(** * Deep_Learning_From_Scratch: a 4-16-16-1 feed-forward network trained by SGD

    Shallow embedding of the code cells of [DeepLearningFromScratch.ipynb]
    (activation functions, forward and backward propagation, the training loop
    and the evaluation cell) and the properties its specification states.

    Numbers.  NumPy's float64 values are idealised as real numbers ([R]) and
    a decimal literal is read as the rational it denotes ([.01] is 1/100).
    That reading is the code's up to rounding as long as no value leaves the
    range of binary64 and no sum absorbs a term.  It is not where the output
    pre-activation [z3] is large: from [z3 = -710] down [e^(−z3)] overflows
    to [+inf], [logistic] is exactly 0 and [d_logistic] is NaN, and with it
    every gradient and, after the update, every parameter; between -709 and
    -355 the square [(1 + e^(−z3))²] overflows and [d_logistic] is 0, short
    of its value by less than 1e-153; from [z3 = 37] up [1 + e^(−z3)] rounds
    to 1 and [logistic] is exactly 1.  A statement that depends on it carries the
    range of [z3] as a hypothesis, and what the code does outside that range
    is stated on binary64 numbers, in [Module Float64], where [np.exp] is a
    parameter of which only the overflow and the underflow are used.  The
    model's arrays hold numbers only, and [astype(int)] is modelled on
    numbers only.

    Exceptions.  A statement that raises leaves no namespace behind
    ([None]): which in-place updates had been carried out before the
    exception is not represented.

    Arrays.  A 2-D array is the list of its rows, so an array without rows
    carries no number of columns: the model is that of NumPy on arrays with
    at least one row, which is all the notebook builds from a non-empty data
    set.  Every NumPy operation that can raise (a shape mismatch in [@], in
    broadcasting, in an in-place update, an index out of range) returns
    [option]. *)

From Stdlib Require Import Reals Lra Lia List Bool Arith ZArith.
From Stdlib Require Import Floats.
Import ListNotations.

(** ** The NumPy operations the notebook uses *)

Module np.
Local Open Scope R_scope.

Definition ndarray : Type := list (list R).

Definition nrows (a : ndarray) : nat := length a.

Definition ncols (a : ndarray) : nat :=
  match a with
  | [] => 0%nat
  | row :: _ => length row
  end.

(** [a.shape == (r, c)] *)
Definition is_shape (r c : nat) (a : ndarray) : bool :=
  (length a =? r)%nat && forallb (fun row => (length row =? c)%nat) a.

(** [a[i, j]] *)
Definition item (a : ndarray) (i j : nat) : R := nth j (nth i a []) 0.

(** The [r] by [c] array whose entry [(i, j)] is [f i j]. *)
Definition fromfunction (r c : nat) (f : nat -> nat -> R) : ndarray :=
  map (fun i => map (fun j => f i j) (seq 0 c)) (seq 0 r).

(** [f 0 + f 1 + ... + f (n-1)] *)
Fixpoint sum_range (n : nat) (f : nat -> R) : R :=
  match n with
  | O => 0
  | S k => sum_range k f + f k
  end.

(** [a @ b]: raises unless the inner dimensions agree. *)
Definition matmul (a b : ndarray) : option ndarray :=
  if (ncols a =? nrows b)%nat then
    Some (fromfunction (nrows a) (ncols b)
            (fun i j => sum_range (ncols a) (fun k => item a i k * item b k j)))
  else None.

(** [a.T] *)
Definition T (a : ndarray) : ndarray :=
  fromfunction (ncols a) (nrows a) (fun i j => item a j i).

(** Broadcasting of one axis: equal lengths, or one of them is 1. *)
Definition broadcast_dim (m n : nat) : option nat :=
  if (m =? n)%nat then Some m
  else if (m =? 1)%nat then Some n
  else if (n =? 1)%nat then Some m
  else None.

(** The entry of [a] that broadcasting pairs with position [(i, j)] of the
    result: an axis of length 1 is read at index 0. *)
Definition bitem (a : ndarray) (i j : nat) : R :=
  item a (if (nrows a =? 1)%nat then 0%nat else i)
         (if (ncols a =? 1)%nat then 0%nat else j).

(** A binary ufunc on two 2-D arrays. *)
Definition broadcast (f : R -> R -> R) (a b : ndarray) : option ndarray :=
  match broadcast_dim (nrows a) (nrows b), broadcast_dim (ncols a) (ncols b) with
  | Some r, Some c => Some (fromfunction r c (fun i j => f (bitem a i j) (bitem b i j)))
  | _, _ => None
  end.

Definition add : ndarray -> ndarray -> option ndarray := broadcast Rplus.
Definition subtract : ndarray -> ndarray -> option ndarray := broadcast Rminus.
Definition multiply : ndarray -> ndarray -> option ndarray := broadcast Rmult.

(** [a -= b]: the in-place form raises when the broadcast result does not
    have the shape of [a]. *)
Definition isubtract (a b : ndarray) : option ndarray :=
  match subtract a b with
  | Some r => if is_shape (nrows a) (ncols a) r then Some r else None
  | None => None
  end.

(** [s * a] for a Python scalar [s]. *)
Definition scale (s : R) (a : ndarray) : ndarray := map (map (Rmult s)) a.

(** A unary ufunc (or an expression of ufuncs and scalars) applied to every
    entry. *)
Definition elementwise {A B : Type} (f : A -> B) (a : list (list A)) : list (list B) :=
  map (map f) a.

(** A boolean array used as a number: [True] is 1.0 and [False] is 0.0. *)
Definition of_bool (a : list (list bool)) : ndarray :=
  elementwise (fun t : bool => if t then 1 else 0) a.

(** [a[i]] on the first axis; an index out of range raises. *)
Definition getitem (a : ndarray) (i : nat) : option (list R) := nth_error a i.

(** [v.reshape(-1, 1)] of a 1-D array: a column. *)
Definition reshape_column (v : list R) : ndarray := map (fun x => [x]) v.

(** A 1-D operand of length [n] broadcasts against a 2-D one as the row
    [(1, n)]. *)
Definition atleast_2d (v : list R) : ndarray := [v].

(** [a.flatten().tolist()] *)
Definition flatten {A : Type} (a : list (list A)) : list A := concat a.

(** [floor x] *)
Definition floor (x : R) : Z := Int_part x.

(** [round]: to the nearest integer, a tie going to the even neighbour
    (NumPy's [around] / [rint]). *)
Definition round (x : R) : R :=
  let n := floor x in
  let d := x - IZR n in
  if Rlt_dec d (1 / 2) then IZR n
  else if Rlt_dec (1 / 2) d then IZR (n + 1)
  else if Z.even n then IZR n else IZR (n + 1).

(** [astype(int)] of one entry: truncation toward zero. *)
Definition astype_int (x : R) : Z :=
  if Rle_dec 0 x then floor x else (- floor (- x))%Z.

(** [np.random.rand(r, c)]: the next [r * c] draws of the generator, filled
    in row-major order.  The generator is its sequence of draws [draws] and
    the number [pos] of draws consumed so far. *)
Definition random_rand (draws : nat -> R) (r c : nat) (pos : nat) : ndarray * nat :=
  (fromfunction r c (fun i j => draws (pos + i * c + j)%nat), (pos + r * c)%nat).

(** [np.zeros((r, c))] and [np.ones((r, c))] *)
Definition zeros (r c : nat) : ndarray := fromfunction r c (fun _ _ => 0).
Definition ones (r c : nat) : ndarray := fromfunction r c (fun _ _ => 1).
End np.

(** ** The notebook's global namespace and its statements *)

(** The six parameter tensors are module-level variables: the functions read
    them, the training loop updates them in place. *)
Record globals : Type := Globals {
  w_first_hidden : np.ndarray;
  b_first_hidden : np.ndarray;
  w_second_hidden : np.ndarray;
  b_second_hidden : np.ndarray;
  w_output : np.ndarray;
  b_output : np.ndarray
}.

(** A statement run against the global namespace: it raises ([None]) or
    yields a value and the namespace it leaves behind. *)
Definition M (A : Type) : Type := globals -> option (A * globals).

Definition ret {A : Type} (a : A) : M A := fun g => Some (a, g).

Definition bind {A B : Type} (m : M A) (k : A -> M B) : M B :=
  fun g =>
    match m g with
    | Some (a, g') => k a g'
    | None => None
    end.

(** Reading a global variable. *)
Definition load {A : Type} (var : globals -> A) : M A := fun g => Some (var g, g).

(** The value of a NumPy operation, or its exception. *)
Definition value {A : Type} (o : option A) : M A :=
  fun g =>
    match o with
    | Some a => Some (a, g)
    | None => None
    end.

Declare Scope py_scope.
Delimit Scope py_scope with py.
Notation "x <- m ;; k" := (bind m (fun x => k))
  (at level 61, m at next level, right associativity) : py_scope.
Notation "' pat <- m ;; k" := (bind m (fun x => match x with pat => k end))
  (at level 61, pat pattern, m at next level, right associativity) : py_scope.
Notation "m ;;; k" := (bind m (fun _ => k))
  (at level 61, right associativity) : py_scope.

(** Rebinding / in-place update of one global. *)
Definition store_w_first_hidden (v : np.ndarray) : M unit :=
  fun g => Some (tt, Globals v (b_first_hidden g) (w_second_hidden g) (b_second_hidden g)
                       (w_output g) (b_output g)).
Definition store_b_first_hidden (v : np.ndarray) : M unit :=
  fun g => Some (tt, Globals (w_first_hidden g) v (w_second_hidden g) (b_second_hidden g)
                       (w_output g) (b_output g)).
Definition store_w_second_hidden (v : np.ndarray) : M unit :=
  fun g => Some (tt, Globals (w_first_hidden g) (b_first_hidden g) v (b_second_hidden g)
                       (w_output g) (b_output g)).
Definition store_b_second_hidden (v : np.ndarray) : M unit :=
  fun g => Some (tt, Globals (w_first_hidden g) (b_first_hidden g) (w_second_hidden g) v
                       (w_output g) (b_output g)).
Definition store_w_output (v : np.ndarray) : M unit :=
  fun g => Some (tt, Globals (w_first_hidden g) (b_first_hidden g) (w_second_hidden g)
                       (b_second_hidden g) v (b_output g)).
Definition store_b_output (v : np.ndarray) : M unit :=
  fun g => Some (tt, Globals (w_first_hidden g) (b_first_hidden g) (w_second_hidden g)
                       (b_second_hidden g) (w_output g) v).

(** [for i in range(n): body(i)] *)
Fixpoint for_range (n : nat) (body : nat -> M unit) : M unit :=
  match n with
  | O => ret tt
  | S k => bind (for_range k body) (fun _ => body k)
  end.

(** ** Parameter initialisation

    [np.random.seed(seed)] followed by six [np.random.rand] calls.  [draws] is
    the sequence of uniform draws the seeded generator produces. *)
Definition initialise (draws : nat -> R) : globals :=
  let '(w1, p1) := np.random_rand draws 16 4 0 in
  let '(b1, p2) := np.random_rand draws 16 1 p1 in
  let '(w2, p3) := np.random_rand draws 16 16 p2 in
  let '(b2, p4) := np.random_rand draws 16 1 p3 in
  let '(w3, p5) := np.random_rand draws 1 16 p4 in
  let '(b3, _) := np.random_rand draws 1 1 p5 in
  Globals w1 b1 w2 b2 w3 b3.

(** ** Activation functions *)

Section Activations.
Local Open Scope R_scope.

(** [np.maximum(x, 0)], entry by entry. *)
Definition relu (x : R) : R := Rmax x 0.

(** [1 / (1 + np.exp(-x))], entry by entry. *)
Definition logistic (x : R) : R := 1 / (1 + exp (- x)).

(** [x > 0], entry by entry: a boolean. *)
Definition d_relu (x : R) : bool := if Rlt_dec 0 x then true else false.

(** [np.exp(-x) / (1 + np.exp(-x)) ** 2], entry by entry. *)
Definition d_logistic (x : R) : R := exp (- x) / (1 + exp (- x)) ^ 2.
End Activations.

(** ** Forward propagation *)

Definition cache : Type :=
  (np.ndarray * np.ndarray * np.ndarray * np.ndarray * np.ndarray * np.ndarray)%type.

Section Propagation.
Local Open Scope py_scope.

Definition forward_propagation (input_vector : np.ndarray) : M cache :=
  w1 <- load w_first_hidden ;;
  wx <- value (np.matmul w1 input_vector) ;;
  b1 <- load b_first_hidden ;;
  first_algebra <- value (np.add wx b1) ;;
  let first_function := np.elementwise relu first_algebra in
  w2 <- load w_second_hidden ;;
  wa <- value (np.matmul w2 first_function) ;;
  b2 <- load b_second_hidden ;;
  second_algebra <- value (np.add wa b2) ;;
  let second_function := np.elementwise relu second_algebra in
  w3 <- load w_output ;;
  wo <- value (np.matmul w3 second_function) ;;
  b3 <- load b_output ;;
  output_algebra <- value (np.add wo b3) ;;
  let result := np.elementwise logistic output_algebra in
  ret (first_algebra, first_function, second_algebra, second_function,
       output_algebra, result).

(** ** Backward propagation

    [real_value] is the 1-D array [training_response[i]]. *)
Definition gradients : Type :=
  (np.ndarray * np.ndarray * np.ndarray * np.ndarray * np.ndarray * np.ndarray)%type.

Definition backward_propagation
    (first_algebra first_function second_algebra second_function
     output_algebra result input_vector : np.ndarray)
    (real_value : list R) : M gradients :=
  (* Output layer *)
  diff <- value (np.subtract result (np.atleast_2d real_value)) ;;
  let d_loss__d_result := np.scale 2 diff in
  let d_result__d_output_algebra := np.elementwise d_logistic output_algebra in
  d_loss__d_output_algebra <-
    value (np.multiply d_loss__d_result d_result__d_output_algebra) ;;
  d_loss__d_w_output <-
    value (np.matmul d_loss__d_output_algebra (np.T second_function)) ;;
  let d_loss__d_b_output := d_loss__d_output_algebra in
  w3 <- load w_output ;;
  d_loss__d_second_function <- value (np.matmul (np.T w3) d_loss__d_output_algebra) ;;
  (* Second hidden layer *)
  let d_second_function__d_second_algebra := np.elementwise d_relu second_algebra in
  d_loss__d_second_algebra <-
    value (np.multiply (np.of_bool d_second_function__d_second_algebra)
                       d_loss__d_second_function) ;;
  d_loss__d_w_second_hidden <-
    value (np.matmul d_loss__d_second_algebra (np.T first_function)) ;;
  let d_loss__d_b_second_hidden := d_loss__d_second_algebra in
  (* First hidden layer *)
  w2 <- load w_second_hidden ;;
  d_loss__d_first_function <- value (np.matmul (np.T w2) d_loss__d_second_algebra) ;;
  let d_first_function__d_first_algebra := np.elementwise d_relu first_algebra in
  d_loss__d_first_algebra <-
    value (np.multiply (np.of_bool d_first_function__d_first_algebra)
                       d_loss__d_first_function) ;;
  d_loss__d_w_first_hidden <-
    value (np.matmul d_loss__d_first_algebra (np.T input_vector)) ;;
  let d_loss__d_b_first_hidden := d_loss__d_first_algebra in
  ret (d_loss__d_w_output, d_loss__d_b_output,
       d_loss__d_w_second_hidden, d_loss__d_b_second_hidden,
       d_loss__d_w_first_hidden, d_loss__d_b_first_hidden).
End Propagation.

(** ** The training cell *)

Definition epochs : nat := 100.

Definition learning_rate : R := (1 / 100)%R.

Section Training.
Local Open Scope py_scope.

(** [P -= learning_rate * G] for the global [P]. *)
Definition descend (var : globals -> np.ndarray) (store : np.ndarray -> M unit)
    (gradient : np.ndarray) : M unit :=
  p <- load var ;;
  p' <- value (np.isubtract p (np.scale learning_rate gradient)) ;;
  store p'.

(** The body of the inner loop, for sample index [i]. *)
Definition training_step (training_predictors training_response : np.ndarray)
    (i : nat) : M unit :=
  (* get a batch *)
  row <- value (np.getitem training_predictors i) ;;
  let predictor_batch := np.reshape_column row in
  target_batch <- value (np.getitem training_response i) ;;
  (* Run the forward propagation *)
  '(first_algebra, first_function, second_algebra, second_function,
    output_algebra, result) <- forward_propagation predictor_batch ;;
  (* Run the backward propagation *)
  '(d_loss__d_w_output, d_loss__d_b_output,
    d_loss__d_w_second_hidden, d_loss__d_b_second_hidden,
    d_loss__d_w_first_hidden, d_loss__d_b_first_hidden) <-
     backward_propagation first_algebra first_function second_algebra
       second_function output_algebra result predictor_batch target_batch ;;
  (* update weights and biases *)
  descend w_first_hidden store_w_first_hidden d_loss__d_w_first_hidden ;;;
  descend b_first_hidden store_b_first_hidden d_loss__d_b_first_hidden ;;;
  descend w_second_hidden store_w_second_hidden d_loss__d_w_second_hidden ;;;
  descend b_second_hidden store_b_second_hidden d_loss__d_b_second_hidden ;;;
  descend w_output store_w_output d_loss__d_w_output ;;;
  descend b_output store_b_output d_loss__d_b_output.

(** The two nested [for] loops, with the number of epochs as a parameter. *)
Definition training_epochs (n : nat) (training_predictors training_response : np.ndarray)
    : M unit :=
  for_range n (fun epoch =>
    for_range (length training_predictors) (fun i =>
      training_step training_predictors training_response i)).

Definition training_loop (training_predictors training_response : np.ndarray) : M unit :=
  training_epochs epochs training_predictors training_response.

(** ** The testing cell *)

(** [forward_propagation(testing_predictors.T)[5].round().astype(int)] *)
Definition predictions (testing_predictors : np.ndarray) : M (list (list Z)) :=
  '(_, _, _, _, _, result) <- forward_propagation (np.T testing_predictors) ;;
  ret (np.elementwise (fun v => np.astype_int (np.round v)) result).
End Training.

Record confusion : Type := Confusion { TP : nat; FP : nat; TN : nat; FN : nat }.

(** One iteration of the tallying loop (the [if] / [elif] chain). *)
Definition tally (c : confusion) (pair : Z * Z) : confusion :=
  let '(actual, predicted) := pair in
  if ((actual =? 1) && (predicted =? 1))%Z then Confusion (TP c + 1) (FP c) (TN c) (FN c)
  else if ((actual =? 0) && (predicted =? 0))%Z then Confusion (TP c) (FP c) (TN c + 1) (FN c)
  else if ((actual =? 0) && (predicted =? 1))%Z then Confusion (TP c) (FP c + 1) (TN c) (FN c)
  else if ((actual =? 1) && (predicted =? 0))%Z then Confusion (TP c) (FP c) (TN c) (FN c + 1)
  else c.

Definition confusion_matrix (testing_response predicted : list (list Z)) : confusion :=
  fold_left tally (combine (np.flatten testing_response) (np.flatten predicted))
            (Confusion 0 0 0 0).

(** ** The activation functions on binary64 numbers

    The same two expressions, evaluated in IEEE-754 binary64 arithmetic.
    [np_exp] stands for NumPy's [exp] on float64; [x ** 2] on a float64 array
    is the product [x * x]. *)

Module Float64.
Section WithExp.
Local Open Scope float_scope.
Variable np_exp : float -> float.

Definition logistic (x : float) : float := 1 / (1 + np_exp (- x)).

Definition d_logistic (x : float) : float :=
  np_exp (- x) / ((1 + np_exp (- x)) * (1 + np_exp (- x))).
End WithExp.

(** binary64's largest finite number is below [e ^ 710]: an exponential with
    a result that large is [+inf]. *)
Definition overflows (np_exp : float -> float) : Prop :=
  forall t : float, (710 <=? t)%float = true -> np_exp t = infinity.
(** and the smallest positive one is above [2 * e ^ -746]: an exponential
    with a result that small is [0]. *)
Definition underflows (np_exp : float -> float) : Prop :=
  forall t : float, (t <=? -746)%float = true -> np_exp t = 0%float.

(** *** Backward propagation on binary64 arrays

    The operations of [np], and [backward_propagation] itself, on arrays of
    binary64 numbers.  The two global weight tensors that the function reads
    are its first two arguments here.  NumPy does not fix the order in which
    [@] accumulates a sum of products; the sums below run in index order, and
    what is proved of them is what holds in every order. *)

Definition ndarray : Type := list (list float).

Definition nrows (a : ndarray) : nat := length a.

Definition ncols (a : ndarray) : nat :=
  match a with
  | [] => 0%nat
  | row :: _ => length row
  end.

Definition is_shape (r c : nat) (a : ndarray) : bool :=
  (length a =? r)%nat && forallb (fun row => (length row =? c)%nat) a.

Definition item (a : ndarray) (i j : nat) : float := nth j (nth i a []) 0%float.

Definition fromfunction (r c : nat) (f : nat -> nat -> float) : ndarray :=
  map (fun i => map (fun j => f i j) (seq 0 c)) (seq 0 r).

Fixpoint sum_range (n : nat) (f : nat -> float) : float :=
  match n with
  | O => 0%float
  | S k => (sum_range k f + f k)%float
  end.

Definition matmul (a b : ndarray) : option ndarray :=
  if (ncols a =? nrows b)%nat then
    Some (fromfunction (nrows a) (ncols b)
            (fun i j => sum_range (ncols a) (fun k => (item a i k * item b k j)%float)))
  else None.

Definition T (a : ndarray) : ndarray :=
  fromfunction (ncols a) (nrows a) (fun i j => item a j i).

Definition bitem (a : ndarray) (i j : nat) : float :=
  item a (if (nrows a =? 1)%nat then 0%nat else i)
         (if (ncols a =? 1)%nat then 0%nat else j).

Definition broadcast (f : float -> float -> float) (a b : ndarray) : option ndarray :=
  match np.broadcast_dim (nrows a) (nrows b), np.broadcast_dim (ncols a) (ncols b) with
  | Some r, Some c => Some (fromfunction r c (fun i j => f (bitem a i j) (bitem b i j)))
  | _, _ => None
  end.

Definition subtract : ndarray -> ndarray -> option ndarray := broadcast PrimFloat.sub.
Definition multiply : ndarray -> ndarray -> option ndarray := broadcast PrimFloat.mul.

Definition scale (s : float) (a : ndarray) : ndarray := map (map (PrimFloat.mul s)) a.

(** [True] is 1.0 and [False] is 0.0. *)
Definition of_bool (a : list (list bool)) : ndarray :=
  np.elementwise (fun t : bool => if t then 1%float else 0%float) a.

(** [x > 0]; it is [False] on NaN. *)
Definition d_relu (x : float) : bool := (0 <? x)%float.

Definition gradients : Type :=
  (ndarray * ndarray * ndarray * ndarray * ndarray * ndarray)%type.

Definition bind {A B : Type} (o : option A) (k : A -> option B) : option B :=
  match o with
  | Some a => k a
  | None => None
  end.

Section Backward.
Variable np_exp : float -> float.
Variables w_output w_second_hidden : ndarray.
Local Notation "x <- m ;; k" := (bind m (fun x => k))
  (at level 61, m at next level, right associativity).

Definition backward_propagation
    (first_algebra first_function second_algebra second_function
     output_algebra result input_vector : ndarray)
    (real_value : list float) : option gradients :=
  (* Output layer *)
  diff <- subtract result [real_value] ;;
  let d_loss__d_result := scale 2 diff in
  let d_result__d_output_algebra := np.elementwise (d_logistic np_exp) output_algebra in
  d_loss__d_output_algebra <- multiply d_loss__d_result d_result__d_output_algebra ;;
  d_loss__d_w_output <- matmul d_loss__d_output_algebra (T second_function) ;;
  let d_loss__d_b_output := d_loss__d_output_algebra in
  d_loss__d_second_function <- matmul (T w_output) d_loss__d_output_algebra ;;
  (* Second hidden layer *)
  let d_second_function__d_second_algebra := np.elementwise d_relu second_algebra in
  d_loss__d_second_algebra <-
    multiply (of_bool d_second_function__d_second_algebra) d_loss__d_second_function ;;
  d_loss__d_w_second_hidden <- matmul d_loss__d_second_algebra (T first_function) ;;
  let d_loss__d_b_second_hidden := d_loss__d_second_algebra in
  (* First hidden layer *)
  d_loss__d_first_function <- matmul (T w_second_hidden) d_loss__d_second_algebra ;;
  let d_first_function__d_first_algebra := np.elementwise d_relu first_algebra in
  d_loss__d_first_algebra <-
    multiply (of_bool d_first_function__d_first_algebra) d_loss__d_first_function ;;
  d_loss__d_w_first_hidden <- matmul d_loss__d_first_algebra (T input_vector) ;;
  let d_loss__d_b_first_hidden := d_loss__d_first_algebra in
  Some (d_loss__d_w_output, d_loss__d_b_output,
        d_loss__d_w_second_hidden, d_loss__d_b_second_hidden,
        d_loss__d_w_first_hidden, d_loss__d_b_first_hidden).
End Backward.

(** The array of shape [(r, c)] that holds NaN everywhere. *)
Definition full_nan (r c : nat) : ndarray := fromfunction r c (fun _ _ => nan).
End Float64.

(** ** The formulas of the specification

    Written entry by entry from the specification's sections 4.2 to 4.4, to be
    compared with what the code computes. *)

Module Spec.
Section Formulas.
Local Open Scope R_scope.
Import np.

(** [W·x + b] for [W] of shape [(r, n)], the bias column [b] and an input of
    [m] columns: entry [(i, j)] is [Σ_k W[i,k]·x[k,j] + b[i]]. *)
Definition affine (r n m : nat) (w b x : ndarray) : ndarray :=
  fromfunction r m
    (fun i j => sum_range n (fun k => item w i k * item x k j) + item b i 0).

(** The six values of section 4.2 for an input of [m] columns. *)
Definition z1 (g : globals) (m : nat) (x : ndarray) : ndarray :=
  affine 16 4 m (w_first_hidden g) (b_first_hidden g) x.
Definition a1 (g : globals) (m : nat) (x : ndarray) : ndarray :=
  elementwise (fun v => Rmax v 0) (z1 g m x).
Definition z2 (g : globals) (m : nat) (x : ndarray) : ndarray :=
  affine 16 16 m (w_second_hidden g) (b_second_hidden g) (a1 g m x).
Definition a2 (g : globals) (m : nat) (x : ndarray) : ndarray :=
  elementwise (fun v => Rmax v 0) (z2 g m x).
Definition z3 (g : globals) (m : nat) (x : ndarray) : ndarray :=
  affine 1 16 m (w_output g) (b_output g) (a2 g m x).
Definition y_hat (g : globals) (m : nat) (x : ndarray) : ndarray :=
  elementwise (fun v => 1 / (1 + exp (- v))) (z3 g m x).

Definition forward (g : globals) (m : nat) (x : ndarray) : cache :=
  (z1 g m x, a1 g m x, z2 g m x, a2 g m x, z3 g m x, y_hat g m x).

(** Step 2 of section 4.3: [logistic(z)·(1 − logistic(z))]. *)
Definition logistic' (z : R) : R := logistic z * (1 - logistic z).

(** Steps 6 and 10: the strict-positivity indicator. *)
Definition positive (z : R) : R := if Rlt_dec 0 z then 1 else 0.

(** Steps 1 to 3: [dL/dz3 = 2(ŷ − y)·logistic'(z3)]. *)
Definition dL_dz3 (z3 yhat : ndarray) (y : R) : R :=
  2 * (item yhat 0 0 - y) * logistic' (item z3 0 0).

(** Steps 5 to 7: [dL/dz2 = (W3ᵗ·dL/dz3) ⊙ [z2 > 0]], entry [i]. *)
Definition dL_dz2 (w3 z2 : ndarray) (d3 : R) (i : nat) : R :=
  (item w3 0 i * d3) * positive (item z2 i 0).

(** Steps 9 to 11: [dL/dz1 = (W2ᵗ·dL/dz2) ⊙ [z1 > 0]], entry [i]. *)
Definition dL_dz1 (w2 z1 : ndarray) (d2 : nat -> R) (i : nat) : R :=
  sum_range 16 (fun k => item w2 k i * d2 k) * positive (item z1 i 0).

(** A column vector, and the product [u·vᵗ] of a column with a row. *)
Definition column (r : nat) (u : nat -> R) : ndarray := fromfunction r 1 (fun i _ => u i).
Definition outer (r c : nat) (u v : nat -> R) : ndarray :=
  fromfunction r c (fun i j => u i * v j).

(** The gradient tuple of section 4.3, in the order [(W3, b3, W2, b2, W1, b1)]. *)
Definition backward (g : globals) (z1 a1 z2 a2 z3 yhat x : ndarray) (y : R) : gradients :=
  let d3 := dL_dz3 z3 yhat y in
  let d2 := dL_dz2 (w_output g) z2 d3 in
  let d1 := dL_dz1 (w_second_hidden g) z1 d2 in
  (outer 1 16 (fun _ => d3) (fun j => item a2 j 0), column 1 (fun _ => d3),
   outer 16 16 d2 (fun j => item a1 j 0), column 16 d2,
   outer 16 4 d1 (fun j => item x j 0), column 16 d1).

(** Step 3 of section 4.4: [P − η·G], entry by entry. *)
Definition descend (r c : nat) (eta : R) (p grad : ndarray) : ndarray :=
  fromfunction r c (fun i j => item p i j - eta * item grad i j).

Definition update (eta : R) (g : globals) (grads : gradients) : globals :=
  let '(dw3, db3, dw2, db2, dw1, db1) := grads in
  Globals (descend 16 4 eta (w_first_hidden g) dw1) (descend 16 1 eta (b_first_hidden g) db1)
          (descend 16 16 eta (w_second_hidden g) dw2) (descend 16 1 eta (b_second_hidden g) db2)
          (descend 1 16 eta (w_output g) dw3) (descend 1 1 eta (b_output g) db3).

(** Column [j] of an array, as a column vector. *)
Definition column_of (j : nat) (a : ndarray) : ndarray := map (fun row => [nth j row 0]) a.

(** The shapes of section 3. *)
Definition shapes_ok (g : globals) : bool :=
  is_shape 16 4 (w_first_hidden g) && is_shape 16 1 (b_first_hidden g) &&
  is_shape 16 16 (w_second_hidden g) && is_shape 16 1 (b_second_hidden g) &&
  is_shape 1 16 (w_output g) && is_shape 1 1 (b_output g).

Definition cache_shapes (m : nat) (c : cache) : bool :=
  let '(z1, a1, z2, a2, z3, yhat) := c in
  is_shape 16 m z1 && is_shape 16 m a1 && is_shape 16 m z2 && is_shape 16 m a2 &&
  is_shape 1 m z3 && is_shape 1 m yhat.
End Formulas.
End Spec.

(** The order in which the samples are visited: [epochs] times the indices
    [0 .. n-1]. *)
Definition schedule (e n : nat) : list nat := concat (repeat (seq 0 n) e).

(** The steps of a list run one after the other. *)
Fixpoint run (body : nat -> M unit) (steps : list nat) : M unit :=
  match steps with
  | [] => ret tt
  | i :: rest => bind (body i) (fun _ => run body rest)
  end.

(** ** Sample states and inputs *)

Module Examples.
(** All parameters 0, and all parameters 1. *)
Definition zero_parameters : globals :=
  Globals (np.zeros 16 4) (np.zeros 16 1) (np.zeros 16 16) (np.zeros 16 1)
          (np.zeros 1 16) (np.zeros 1 1).
Definition unit_parameters : globals :=
  Globals (np.ones 16 4) (np.ones 16 1) (np.ones 16 16) (np.ones 16 1)
          (np.ones 1 16) (np.ones 1 1).

(** The output and second-layer weights of [unit_parameters], every other
    parameter 0. *)
Definition mixed_parameters : globals :=
  Globals (np.zeros 16 4) (np.zeros 16 1) (np.ones 16 16) (np.zeros 16 1)
          (np.ones 1 16) (np.zeros 1 1).

(** A data set of one sample and one of two, and a batch of two columns. *)
Definition one_sample : np.ndarray := [[1; 0; 0; 1]]%R.
Definition one_label : np.ndarray := [[1]]%R.
Definition two_samples : np.ndarray := [[1; 0; 0; 1]; [0; 1; 0; 1]]%R.
Definition two_columns : np.ndarray := [[1; 0]; [0; 1]; [0; 0]; [1; 1]]%R.

(** A function on binary64 numbers that is [+inf] from 710 on, as any
    exponential is. *)
Definition saturating (t : float) : float :=
  if (710 <=? t)%float then infinity else 1%float.

(** One that is also [0] down from -746, as any exponential is, and 1 at 0. *)
Definition clamped (t : float) : float :=
  if (710 <=? t)%float then infinity
  else if (t <=? -746)%float then 0%float else 1%float.

(** Parameters under which the output pre-activation stays small: hidden
    layers of ones, output weights of 0.001 and an output bias of 0. *)
Definition small_parameters : globals :=
  Globals (np.ones 16 4) (np.ones 16 1) (np.ones 16 16) (np.ones 16 1)
          (np.fromfunction 1 16 (fun _ _ => 1 / 1000)%R) (np.zeros 1 1).

(** Binary64 arrays of ones. *)
Definition float_ones (r c : nat) : Float64.ndarray :=
  Float64.fromfunction r c (fun _ _ => 1%float).
End Examples.

(** ** The symbolic-derivation cell

    The SymPy versions of the two activation functions and the loss whose
    derivatives the cell prints; the symbols are scalars. *)

Section Symbolic.
Local Open Scope R_scope.

(** [sp.Max(x, 0)] *)
Definition sp_relu (x : R) : R := Rmax x 0.

(** [1 / (1 + sp.exp(-x))] *)
Definition sp_logistic (x : R) : R := 1 / (1 + exp (- x)).

(** [(result - real_value)**2] *)
Definition loss (result real_value : R) : R := (result - real_value) ^ 2.
End Symbolic.

(** ** The loss of the network as a function of its parameters *)

Module Gradient.
Section Definitions.
Local Open Scope R_scope.
Import np.

(** The notebook's [loss] at the output of [forward_propagation] for the
    sample [(x, y)], in the state [g] of the parameters. *)
Definition network_loss (g : globals) (x : ndarray) (y : R) : R :=
  match forward_propagation x g with
  | Some ((_, _, _, _, _, result), _) => loss (item result 0 0) y
  | None => 0
  end.

(** The six parameter tensors, by name. *)
Inductive parameter : Type := W1 | B1 | W2 | B2 | W3 | B3.

Definition tensor (p : parameter) (g : globals) : ndarray :=
  match p with
  | W1 => w_first_hidden g
  | B1 => b_first_hidden g
  | W2 => w_second_hidden g
  | B2 => b_second_hidden g
  | W3 => w_output g
  | B3 => b_output g
  end.

Definition with_tensor (p : parameter) (v : ndarray) (g : globals) : globals :=
  match p with
  | W1 => Globals v (b_first_hidden g) (w_second_hidden g) (b_second_hidden g)
                  (w_output g) (b_output g)
  | B1 => Globals (w_first_hidden g) v (w_second_hidden g) (b_second_hidden g)
                  (w_output g) (b_output g)
  | W2 => Globals (w_first_hidden g) (b_first_hidden g) v (b_second_hidden g)
                  (w_output g) (b_output g)
  | B2 => Globals (w_first_hidden g) (b_first_hidden g) (w_second_hidden g) v
                  (w_output g) (b_output g)
  | W3 => Globals (w_first_hidden g) (b_first_hidden g) (w_second_hidden g)
                  (b_second_hidden g) v (b_output g)
  | B3 => Globals (w_first_hidden g) (b_first_hidden g) (w_second_hidden g)
                  (b_second_hidden g) (w_output g) v
  end.

Definition rows (p : parameter) : nat :=
  match p with W3 | B3 => 1 | _ => 16 end.

Definition cols (p : parameter) : nat :=
  match p with W1 => 4 | W2 | W3 => 16 | _ => 1 end.

(** The gradient that [backward_propagation] returns for a parameter. *)
Definition component (p : parameter) (grads : gradients) : ndarray :=
  let '(dw3, db3, dw2, db2, dw1, db1) := grads in
  match p with
  | W1 => dw1 | B1 => db1 | W2 => dw2 | B2 => db2 | W3 => dw3 | B3 => db3
  end.

(** [a] with its entry [(i, j)] replaced by [t]. *)
Definition setitem (a : ndarray) (i j : nat) (t : R) : ndarray :=
  fromfunction (nrows a) (ncols a)
    (fun i' j' => if ((i' =? i) && (j' =? j))%nat then t else item a i' j').

(** The state [g] with the entry [(i, j)] of the parameter [p] set to [t]. *)
Definition perturbed (p : parameter) (i j : nat) (g : globals) (t : R) : globals :=
  with_tensor p (setitem (tensor p g) i j t) g.

(** The direction in parameter space that moves the entry [(i, j)] of the
    parameter [p] at unit speed and nothing else. *)
Definition unit_direction (p : parameter) (i j : nat) : globals :=
  with_tensor p (setitem (zeros (rows p) (cols p)) i j 1) Examples.zero_parameters.

(** The entry-wise inner product of two [r] by [c] arrays, and of a gradient
    tuple with a direction in parameter space. *)
Definition frobenius (r c : nat) (a b : ndarray) : R :=
  sum_range r (fun i => sum_range c (fun j => item a i j * item b i j)).

Definition inner (grads : gradients) (d : globals) : R :=
  frobenius 16 4 (component W1 grads) (w_first_hidden d) +
  frobenius 16 1 (component B1 grads) (b_first_hidden d) +
  frobenius 16 16 (component W2 grads) (w_second_hidden d) +
  frobenius 16 1 (component B2 grads) (b_second_hidden d) +
  frobenius 1 16 (component W3 grads) (w_output d) +
  frobenius 1 1 (component B3 grads) (b_output d).

(** The sum of the squares of all entries of a gradient tuple, and the
    velocity of the states [P − η·G] as [η] grows: the tuple, negated. *)
Definition squared_norm (grads : gradients) : R :=
  frobenius 16 4 (component W1 grads) (component W1 grads) +
  frobenius 16 1 (component B1 grads) (component B1 grads) +
  frobenius 16 16 (component W2 grads) (component W2 grads) +
  frobenius 16 1 (component B2 grads) (component B2 grads) +
  frobenius 1 16 (component W3 grads) (component W3 grads) +
  frobenius 1 1 (component B3 grads) (component B3 grads).

Definition descent_direction (grads : gradients) : globals :=
  Globals (scale (-1) (component W1 grads)) (scale (-1) (component B1 grads))
          (scale (-1) (component W2 grads)) (scale (-1) (component B2 grads))
          (scale (-1) (component W3 grads)) (scale (-1) (component B3 grads)).

(** The entries of the array-valued function [P] are differentiable at [t0],
    with the entries of [dP] as derivatives. *)
Definition entries_derivable (r c : nat) (P : R -> ndarray) (t0 : R) (dP : ndarray) : Prop :=
  forall i j, (i < r)%nat -> (j < c)%nat ->
    derivable_pt_lim (fun t => item (P t) i j) t0 (item dP i j).

(** Forward-mode derivatives of the pre-activations and activations along a
    direction [d], at the state [g]. *)
Definition dz1 (g d : globals) (x : ndarray) (i : nat) : R :=
  sum_range 4 (fun k => item (w_first_hidden d) i k * item x k 0)
  + item (b_first_hidden d) i 0.

Definition da1 (g d : globals) (x : ndarray) (i : nat) : R :=
  Spec.positive (item (Spec.z1 g 1 x) i 0) * dz1 g d x i.

Definition dz2 (g d : globals) (x : ndarray) (i : nat) : R :=
  sum_range 16 (fun k => item (w_second_hidden d) i k * item (Spec.a1 g 1 x) k 0
                         + item (w_second_hidden g) i k * da1 g d x k)
  + item (b_second_hidden d) i 0.

Definition da2 (g d : globals) (x : ndarray) (i : nat) : R :=
  Spec.positive (item (Spec.z2 g 1 x) i 0) * dz2 g d x i.

Definition dz3 (g d : globals) (x : ndarray) : R :=
  sum_range 16 (fun k => item (w_output d) 0 k * item (Spec.a2 g 1 x) k 0
                         + item (w_output g) 0 k * da2 g d x k)
  + item (b_output d) 0 0.
End Definitions.
End Gradient.

(** ** The preprocessing cells

    A row of the table read from the data file: four float64 predictors and
    an int64 target.  [data] is the table after the shuffling cell, whose
    order is that of the seeded generator. *)

Record banknote : Type := Banknote {
  variance : R;
  skewness : R;
  curtosis : R;
  entropy : R;
  target : Z
}.

Module pd.
Section Series.
Local Open Scope R_scope.

Definition sum (col : list R) : R := fold_right Rplus 0 col.

(** [col.mean()] *)
Definition mean (col : list R) : R := sum col / INR (length col).

(** [col.std()]: pandas divides by [n - 1]. *)
Definition std (col : list R) : R :=
  R_sqrt.sqrt (sum (map (fun v => (v - mean col) ^ 2) col) / INR (length col - 1)).

(** [frame.apply(f)]: [f] applied to every column. *)
Definition apply (f : list R -> list R) (frame : np.ndarray) : np.ndarray :=
  np.T (map f (np.T frame)).

(** Column [j] of a frame, as a series. *)
Definition column (j : nat) (frame : np.ndarray) : list R :=
  map (fun row => nth j row 0) frame.
End Series.
End pd.

Section Preprocessing.
Local Open Scope R_scope.

(** [lambda col: (col - col.mean()) / col.std()] *)
Definition standardise (col : list R) : list R :=
  map (fun v => (v - pd.mean col) / pd.std col) col.

(** [data.iloc[:, :4]] before the mapping. *)
Definition features (data : list banknote) : np.ndarray :=
  map (fun row => [variance row; skewness row; curtosis row; entropy row]) data.

(** [predictors = data.iloc[:, :4]], after
    [data.iloc[:, :4] = data.iloc[:, :4].apply(...)]. *)
Definition predictors (data : list banknote) : np.ndarray :=
  pd.apply standardise (features data).

(** [response = data.iloc[:, 4:5]] *)
Definition response (data : list banknote) : list (list Z) :=
  map (fun row => [target row]) data.

(** [split_index = int(len(data) * 2/3)] *)
Definition split_index (data : list banknote) : nat := (length data * 2) / 3.

Definition training_predictors (data : list banknote) : np.ndarray :=
  firstn (split_index data) (predictors data).

Definition testing_predictors (data : list banknote) : np.ndarray :=
  skipn (split_index data) (predictors data).

(** The integer targets enter the arithmetic of the training cell as
    float64 numbers. *)
Definition training_response (data : list banknote) : np.ndarray :=
  np.elementwise IZR (firstn (split_index data) (response data)).

Definition testing_response (data : list banknote) : list (list Z) :=
  skipn (split_index data) (response data).
End Preprocessing.

(** ** The accuracy of the testing cell *)

Section Accuracy.
Local Open Scope R_scope.

(** [a == b] on two arrays, its booleans read as the numbers they are
    averaged as. *)
Definition equal : np.ndarray -> np.ndarray -> option np.ndarray :=
  np.broadcast (fun u v => if Req_dec_T u v then 1 else 0).

(** [a.mean()] over all entries. *)
Definition array_mean (a : np.ndarray) : R :=
  pd.sum (np.flatten a) / INR (length (np.flatten a)).

(** [(predictions == testing_response.T).mean()] *)
Definition accuracy (predicted testing_response : list (list Z)) : option R :=
  match equal (np.elementwise IZR predicted)
              (np.T (np.elementwise IZR testing_response)) with
  | Some matches => Some (array_mean matches)
  | None => None
  end.
End Accuracy.

(** ** The notebook from the preprocessing to the report

    The parameters are initialised from the draws of the seeded generator,
    trained on the first two thirds of the table and evaluated on the rest. *)

Definition notebook (draws : nat -> R) (data : list banknote)
    : option (list (list Z) * confusion * R) :=
  match training_loop (training_predictors data) (training_response data)
          (initialise draws) with
  | Some (_, trained) =>
      match predictions (testing_predictors data) trained with
      | Some (predicted, _) =>
          match accuracy predicted (testing_response data) with
          | Some a =>
              Some (predicted, confusion_matrix (testing_response data) predicted, a)
          | None => None
          end
      | None => None
      end
  | None => None
  end.

(** ** The draws behind the initial parameters

    The position, in the sequence of draws of the seeded generator, of the
    draw that fills the entry [(i, j)] of a parameter. *)

Definition first_draw (p : Gradient.parameter) : nat :=
  match p with
  | Gradient.W1 => 0
  | Gradient.B1 => 64
  | Gradient.W2 => 80
  | Gradient.B2 => 336
  | Gradient.W3 => 352
  | Gradient.B3 => 368
  end.

Definition draw_index (p : Gradient.parameter) (i j : nat) : nat :=
  first_draw p + i * Gradient.cols p + j.

(** * Properties *)

(** ** Arrays *)

Section ArrayFacts.
Local Open Scope R_scope.
Import np.

Lemma is_shape_spec (r c : nat) (a : ndarray) :
  is_shape r c a = true <->
  length a = r /\ Forall (fun row => length row = c) a.
Proof.
  unfold is_shape. rewrite andb_true_iff, Nat.eqb_eq, forallb_forall, Forall_forall.
  split; intros [H1 H2]; split; auto; intros x Hx.
  - apply Nat.eqb_eq; auto.
  - apply Nat.eqb_eq; auto.
Qed.

Lemma is_shape_nrows (r c : nat) (a : ndarray) :
  is_shape r c a = true -> nrows a = r.
Proof. intros H. apply is_shape_spec in H. apply H. Qed.

Lemma is_shape_ncols (r c : nat) (a : ndarray) :
  is_shape r c a = true -> (0 < r)%nat -> ncols a = c.
Proof.
  intros H Hr. apply is_shape_spec in H. destruct H as [Hl Hf].
  destruct a as [|row a]; simpl in *; [lia|]. now inversion Hf.
Qed.

Lemma is_shape_row (r c : nat) (a : ndarray) (i : nat) :
  is_shape r c a = true -> (i < r)%nat -> length (nth i a []) = c.
Proof.
  intros H Hi. apply is_shape_spec in H. destruct H as [Hl Hf].
  rewrite Forall_forall in Hf. apply Hf, nth_In. lia.
Qed.

Lemma is_shape_fromfunction (r c : nat) (f : nat -> nat -> R) :
  is_shape r c (fromfunction r c f) = true.
Proof.
  apply is_shape_spec. unfold fromfunction. split.
  - now rewrite length_map, length_seq.
  - apply Forall_forall. intros row Hrow. apply in_map_iff in Hrow.
    destruct Hrow as [i [<- _]]. now rewrite length_map, length_seq.
Qed.

Lemma item_fromfunction (r c : nat) (f : nat -> nat -> R) (i j : nat) :
  (i < r)%nat -> (j < c)%nat -> item (fromfunction r c f) i j = f i j.
Proof.
  intros Hi Hj. unfold item, fromfunction.
  rewrite (nth_indep _ [] (map (fun j => f 0%nat j) (seq 0 c)))
    by now rewrite length_map, length_seq.
  rewrite (map_nth (fun i => map (fun j => f i j) (seq 0 c)) (seq 0 r) 0%nat i).
  rewrite seq_nth by assumption. simpl.
  rewrite (nth_indep _ 0 (f i 0%nat)) by now rewrite length_map, length_seq.
  rewrite (map_nth (fun j => f i j) (seq 0 c) 0%nat j).
  now rewrite seq_nth.
Qed.

Lemma fromfunction_ext (r c : nat) (f g : nat -> nat -> R) :
  (forall i j, (i < r)%nat -> (j < c)%nat -> f i j = g i j) ->
  fromfunction r c f = fromfunction r c g.
Proof.
  intros H. unfold fromfunction. apply map_ext_in. intros i Hi.
  apply map_ext_in. intros j Hj. apply in_seq in Hi, Hj. apply H; lia.
Qed.

Lemma list_eq_nth (A : Type) (d : A) (l : list A) :
  l = map (fun i => nth i l d) (seq 0 (length l)).
Proof.
  apply nth_ext with (d := d) (d' := d).
  - now rewrite length_map, length_seq.
  - intros n Hn.
    rewrite (nth_indep (map _ _) d (nth 0 l d)) by now rewrite length_map, length_seq.
    rewrite (map_nth (fun i => nth i l d) (seq 0 (length l)) 0%nat n).
    now rewrite seq_nth.
Qed.

(** An array is determined by its shape and its entries. *)
Lemma fromfunction_item (r c : nat) (a : ndarray) :
  is_shape r c a = true -> a = fromfunction r c (item a).
Proof.
  intros H. pose proof (is_shape_nrows _ _ _ H) as Hr. unfold nrows in Hr.
  unfold fromfunction. rewrite (list_eq_nth _ [] a) at 1. rewrite Hr.
  apply map_ext_in. intros i Hi. apply in_seq in Hi.
  rewrite (list_eq_nth _ 0 (nth i a [])) at 1.
  rewrite (is_shape_row _ _ _ _ H) by lia. reflexivity.
Qed.

Lemma ndarray_ext (r c : nat) (a b : ndarray) :
  is_shape r c a = true -> is_shape r c b = true ->
  (forall i j, (i < r)%nat -> (j < c)%nat -> item a i j = item b i j) ->
  a = b.
Proof.
  intros Ha Hb H. rewrite (fromfunction_item _ _ _ Ha), (fromfunction_item _ _ _ Hb).
  now apply fromfunction_ext.
Qed.

Lemma sum_range_ext (n : nat) (f g : nat -> R) :
  (forall k, (k < n)%nat -> f k = g k) -> sum_range n f = sum_range n g.
Proof.
  induction n as [|n IH]; intros H; simpl; [reflexivity|].
  rewrite IH by (intros; apply H; lia). now rewrite H by lia.
Qed.

Lemma is_shape_elementwise (r c : nat) (f : R -> R) (a : ndarray) :
  is_shape r c a = true -> is_shape r c (elementwise f a) = true.
Proof.
  intros H. apply is_shape_spec in H. destruct H as [Hl Hf].
  apply is_shape_spec. unfold elementwise. split.
  - now rewrite length_map.
  - rewrite Forall_forall in *. intros row Hrow. apply in_map_iff in Hrow.
    destruct Hrow as [row' [<- Hin]]. rewrite length_map. auto.
Qed.

Lemma item_elementwise (r c : nat) (f : R -> R) (a : ndarray) (i j : nat) :
  is_shape r c a = true -> (i < r)%nat -> (j < c)%nat ->
  item (elementwise f a) i j = f (item a i j).
Proof.
  intros H Hi Hj. unfold item, elementwise.
  pose proof (is_shape_nrows _ _ _ H) as Hr. unfold nrows in Hr.
  rewrite (nth_indep _ [] (map f [])) by (rewrite length_map; lia).
  rewrite (map_nth (map f) a [] i).
  rewrite (nth_indep _ 0 (f 0)) by (rewrite length_map, (is_shape_row _ _ _ _ H); lia).
  now rewrite (map_nth f (nth i a []) 0 j).
Qed.
End ArrayFacts.

Section OperationFacts.
Local Open Scope R_scope.
Import np.

Lemma matmul_shape (r n c : nat) (a b : ndarray) :
  is_shape r n a = true -> is_shape n c b = true -> (0 < r)%nat -> (0 < n)%nat ->
  matmul a b =
  Some (fromfunction r c (fun i j => sum_range n (fun k => item a i k * item b k j))).
Proof.
  intros Ha Hb Hr Hn. unfold matmul.
  rewrite (is_shape_nrows _ _ _ Ha), (is_shape_ncols _ _ _ Ha Hr).
  rewrite (is_shape_nrows _ _ _ Hb), (is_shape_ncols _ _ _ Hb Hn).
  now rewrite Nat.eqb_refl.
Qed.

Lemma broadcast_dim_same (n : nat) : broadcast_dim n n = Some n.
Proof. unfold broadcast_dim. now rewrite Nat.eqb_refl. Qed.

Lemma broadcast_dim_one (n : nat) : broadcast_dim n 1 = Some n.
Proof.
  unfold broadcast_dim. destruct (Nat.eqb_spec n 1) as [->|_]; [reflexivity|].
  reflexivity.
Qed.

Lemma bitem_full (r c : nat) (a : ndarray) (i j : nat) :
  is_shape r c a = true -> (i < r)%nat -> (j < c)%nat -> bitem a i j = item a i j.
Proof.
  intros Ha Hi Hj. unfold bitem.
  rewrite (is_shape_nrows _ _ _ Ha), (is_shape_ncols _ _ _ Ha) by lia.
  destruct (Nat.eqb_spec r 1), (Nat.eqb_spec c 1); f_equal; lia.
Qed.

Lemma bitem_column (r : nat) (b : ndarray) (i j : nat) :
  is_shape r 1 b = true -> (i < r)%nat -> bitem b i j = item b i 0.
Proof.
  intros Hb Hi. unfold bitem.
  rewrite (is_shape_nrows _ _ _ Hb), (is_shape_ncols _ _ _ Hb) by lia.
  simpl. destruct (Nat.eqb_spec r 1); f_equal; lia.
Qed.

(** Two operands of one shape: entry by entry. *)
Lemma broadcast_same (f : R -> R -> R) (r c : nat) (a b : ndarray) :
  is_shape r c a = true -> is_shape r c b = true -> (0 < r)%nat ->
  broadcast f a b = Some (fromfunction r c (fun i j => f (item a i j) (item b i j))).
Proof.
  intros Ha Hb Hr. unfold broadcast.
  rewrite (is_shape_nrows _ _ _ Ha), (is_shape_ncols _ _ _ Ha Hr).
  rewrite (is_shape_nrows _ _ _ Hb), (is_shape_ncols _ _ _ Hb Hr).
  rewrite !broadcast_dim_same. f_equal. apply fromfunction_ext. intros i j Hi Hj.
  now rewrite (bitem_full _ _ _ _ _ Ha), (bitem_full _ _ _ _ _ Hb).
Qed.

(** A column operand is repeated across the columns of the other one. *)
Lemma broadcast_column (f : R -> R -> R) (r c : nat) (a b : ndarray) :
  is_shape r c a = true -> is_shape r 1 b = true -> (0 < r)%nat ->
  broadcast f a b = Some (fromfunction r c (fun i j => f (item a i j) (item b i 0))).
Proof.
  intros Ha Hb Hr. unfold broadcast.
  rewrite (is_shape_nrows _ _ _ Ha), (is_shape_ncols _ _ _ Ha Hr).
  rewrite (is_shape_nrows _ _ _ Hb), (is_shape_ncols _ _ _ Hb Hr).
  rewrite broadcast_dim_same, broadcast_dim_one. f_equal.
  apply fromfunction_ext. intros i j Hi Hj.
  now rewrite (bitem_full _ _ _ _ _ Ha), (bitem_column _ _ _ j Hb).
Qed.

(** [w @ x + b] is the affine map of the specification. *)
Lemma affine_computed (r n m : nat) (w b x : ndarray) :
  is_shape r n w = true -> is_shape r 1 b = true -> is_shape n m x = true ->
  (0 < r)%nat -> (0 < n)%nat ->
  exists wx, matmul w x = Some wx /\ add wx b = Some (Spec.affine r n m w b x).
Proof.
  intros Hw Hb Hx Hr Hn. eexists. split; [apply (matmul_shape _ _ _ _ _ Hw Hx Hr Hn)|].
  unfold add. rewrite (broadcast_column _ _ _ _ _ (is_shape_fromfunction _ _ _) Hb Hr).
  f_equal. apply fromfunction_ext. intros i j Hi Hj.
  now rewrite item_fromfunction.
Qed.

Lemma is_shape_affine (r n m : nat) (w b x : ndarray) :
  is_shape r m (Spec.affine r n m w b x) = true.
Proof. apply is_shape_fromfunction. Qed.

Lemma shapes_ok_fields (g : globals) :
  Spec.shapes_ok g = true ->
  is_shape 16 4 (w_first_hidden g) = true /\ is_shape 16 1 (b_first_hidden g) = true /\
  is_shape 16 16 (w_second_hidden g) = true /\ is_shape 16 1 (b_second_hidden g) = true /\
  is_shape 1 16 (w_output g) = true /\ is_shape 1 1 (b_output g) = true.
Proof.
  unfold Spec.shapes_ok. rewrite !andb_true_iff. tauto.
Qed.

(** The code of [forward_propagation] computes the six values of the
    specification, for an input of any number [m] of columns, and leaves the
    global namespace as it found it. *)
Lemma forward_propagation_computed (g : globals) (m : nat) (x : ndarray) :
  Spec.shapes_ok g = true -> is_shape 4 m x = true ->
  forward_propagation x g = Some (Spec.forward g m x, g).
Proof.
  intros Hg Hx. apply shapes_ok_fields in Hg.
  destruct Hg as (Hw1 & Hb1 & Hw2 & Hb2 & Hw3 & Hb3).
  assert (Hz1 : is_shape 16 m (Spec.z1 g m x) = true) by apply is_shape_affine.
  assert (Ha1 : is_shape 16 m (Spec.a1 g m x) = true)
    by (apply is_shape_elementwise, Hz1).
  assert (Hz2 : is_shape 16 m (Spec.z2 g m x) = true) by apply is_shape_affine.
  assert (Ha2 : is_shape 16 m (Spec.a2 g m x) = true)
    by (apply is_shape_elementwise, Hz2).
  destruct (affine_computed 16 4 m _ _ _ Hw1 Hb1 Hx) as (t1 & Hm1 & Hs1); try lia.
  destruct (affine_computed 16 16 m _ _ _ Hw2 Hb2 Ha1) as (t2 & Hm2 & Hs2); try lia.
  destruct (affine_computed 1 16 m _ _ _ Hw3 Hb3 Ha2) as (t3 & Hm3 & Hs3); try lia.
  unfold forward_propagation, bind, load, value, ret.
  rewrite Hm1, Hs1. fold (Spec.z1 g m x).
  change (elementwise relu (Spec.z1 g m x)) with (Spec.a1 g m x).
  rewrite Hm2, Hs2. fold (Spec.z2 g m x).
  change (elementwise relu (Spec.z2 g m x)) with (Spec.a2 g m x).
  rewrite Hm3, Hs3. reflexivity.
Qed.
End OperationFacts.

(** ** Activation functions *)

Section ActivationFacts.
Local Open Scope R_scope.

Lemma one_plus_exp_pos (x : R) : 0 < 1 + exp x.
Proof. pose proof (exp_pos x). lra. Qed.

Lemma logistic_bounds (x : R) : 0 < logistic x < 1.
Proof.
  unfold logistic. pose proof (exp_pos (- x)) as He.
  assert (Hd : 0 < 1 + exp (- x)) by lra.
  split.
  - apply Rdiv_lt_0_compat; lra.
  - apply (Rmult_lt_reg_r (1 + exp (- x))); [assumption|].
    unfold Rdiv. rewrite Rmult_assoc, Rinv_l by lra. lra.
Qed.

Lemma logistic_zero : logistic 0 = 1 / 2.
Proof. unfold logistic. rewrite Ropp_0, exp_0. lra. Qed.

Lemma logistic_increasing (x x' : R) : x < x' -> logistic x < logistic x'.
Proof.
  intros Hlt. unfold logistic.
  assert (He : exp (- x') < exp (- x)) by (apply exp_increasing; lra).
  pose proof (exp_pos (- x')) as Hp.
  unfold Rdiv. rewrite !Rmult_1_l.
  apply Rinv_lt_contravar; [|lra].
  apply Rmult_lt_0_compat; lra.
Qed.

(** The two forms of the derivative of the logistic function agree. *)
Lemma d_logistic_logistic' (x : R) : d_logistic x = Spec.logistic' x.
Proof.
  unfold d_logistic, Spec.logistic', logistic.
  pose proof (one_plus_exp_pos (- x)). field. lra.
Qed.

(** [d_logistic] is the derivative of [logistic]. *)
Lemma logistic_derivative (x : R) : derivable_pt_lim logistic x (d_logistic x).
Proof.
  unfold logistic, d_logistic.
  pose proof (one_plus_exp_pos (- x)) as Hpos.
  assert (Hexp : derivable_pt_lim (fun t => 1 + exp (- t)) x (- exp (- x))).
  { replace (- exp (- x)) with (0 + exp (- x) * (-1)) by ring.
    apply (derivable_pt_lim_plus (fun _ => 1) (fun t => exp (- t))).
    - apply derivable_pt_lim_const.
    - apply (derivable_pt_lim_comp (fun t => - t) exp).
      + replace (-1) with (- (1)) by ring.
        apply (derivable_pt_lim_opp id). apply derivable_pt_lim_id.
      + apply derivable_pt_lim_exp. }
  replace (exp (- x) / (1 + exp (- x)) ^ 2)
    with ((0 * (1 + exp (- x)) - (- exp (- x)) * 1) / Rsqr (1 + exp (- x)))
    by (unfold Rsqr; field; lra).
  apply (derivable_pt_lim_div (fun _ => 1) (fun t => 1 + exp (- t))).
  - apply derivable_pt_lim_const.
  - exact Hexp.
  - lra.
Qed.

Lemma relu_cases (x : R) : (0 < x -> relu x = x) /\ (x <= 0 -> relu x = 0) /\ 0 <= relu x.
Proof.
  unfold relu, Rmax. destruct (Rle_dec x 0); repeat split; intros; lra.
Qed.
End ActivationFacts.

(** ** Backward propagation *)

Section BackwardFacts.
Local Open Scope R_scope.
Import np.

Lemma is_shape_column (r : nat) (u : nat -> R) : is_shape r 1 (Spec.column r u) = true.
Proof. apply is_shape_fromfunction. Qed.

Lemma is_shape_outer (r c : nat) (u v : nat -> R) : is_shape r c (Spec.outer r c u v) = true.
Proof. apply is_shape_fromfunction. Qed.

Lemma item_column (r : nat) (u : nat -> R) (i : nat) :
  (i < r)%nat -> item (Spec.column r u) i 0 = u i.
Proof. intros Hi. unfold Spec.column. rewrite item_fromfunction; auto. Qed.

Lemma column_ext (r : nat) (u u' : nat -> R) :
  (forall i, (i < r)%nat -> u i = u' i) -> Spec.column r u = Spec.column r u'.
Proof. intros H. apply fromfunction_ext. intros i j Hi _. now apply H. Qed.

Lemma outer_ext (r c : nat) (u u' v v' : nat -> R) :
  (forall i, (i < r)%nat -> u i = u' i) -> (forall j, (j < c)%nat -> v j = v' j) ->
  Spec.outer r c u v = Spec.outer r c u' v'.
Proof.
  intros Hu Hv. apply fromfunction_ext. intros i j Hi Hj. now rewrite Hu, Hv.
Qed.

Lemma T_shape (r c : nat) (a : ndarray) :
  is_shape r c a = true -> (0 < r)%nat ->
  T a = fromfunction c r (fun i j => item a j i).
Proof.
  intros Ha Hr. unfold T.
  now rewrite (is_shape_nrows _ _ _ Ha), (is_shape_ncols _ _ _ Ha Hr).
Qed.

(** A column times a transposed column: the outer product. *)
Lemma matmul_column_row (r c : nat) (u v : ndarray) :
  is_shape r 1 u = true -> is_shape c 1 v = true -> (0 < r)%nat -> (0 < c)%nat ->
  matmul u (T v) = Some (Spec.outer r c (fun i => item u i 0) (fun j => item v j 0)).
Proof.
  intros Hu Hv Hr Hc. rewrite (T_shape _ _ _ Hv Hc).
  rewrite (matmul_shape r 1 c _ _ Hu (is_shape_fromfunction _ _ _) Hr) by lia.
  f_equal. apply fromfunction_ext. intros i j Hi Hj. simpl.
  rewrite item_fromfunction by lia. ring.
Qed.

(** A transposed matrix times a column. *)
Lemma matmul_T_column (n r : nat) (w u : ndarray) :
  is_shape n r w = true -> is_shape n 1 u = true -> (0 < n)%nat -> (0 < r)%nat ->
  matmul (T w) u =
  Some (Spec.column r (fun i => sum_range n (fun k => item w k i * item u k 0))).
Proof.
  intros Hw Hu Hn Hr. rewrite (T_shape _ _ _ Hw Hn).
  rewrite (matmul_shape r n 1 _ _ (is_shape_fromfunction _ _ _) Hu Hr Hn).
  f_equal. apply fromfunction_ext. intros i j Hi Hj.
  apply sum_range_ext. intros k Hk. rewrite item_fromfunction by lia.
  replace j with 0%nat by lia. reflexivity.
Qed.

Lemma of_bool_d_relu (z : ndarray) :
  of_bool (elementwise d_relu z) = elementwise Spec.positive z.
Proof.
  unfold of_bool, elementwise. rewrite map_map. apply map_ext. intros row.
  rewrite map_map. apply map_ext. intros v. unfold d_relu, Spec.positive.
  now destruct (Rlt_dec 0 v).
Qed.

(** The ReLU mask applied to a column. *)
Lemma multiply_mask (r : nat) (z v : ndarray) :
  is_shape r 1 z = true -> is_shape r 1 v = true -> (0 < r)%nat ->
  multiply (of_bool (elementwise d_relu z)) v =
  Some (Spec.column r (fun i => item v i 0 * Spec.positive (item z i 0))).
Proof.
  intros Hz Hv Hr. rewrite of_bool_d_relu. unfold multiply.
  rewrite (broadcast_same _ r 1 _ _ (is_shape_elementwise _ _ _ _ Hz) Hv Hr).
  f_equal. apply fromfunction_ext. intros i j Hi Hj. replace j with 0%nat by lia.
  rewrite (item_elementwise r 1) by (assumption || lia). ring.
Qed.

Lemma scale_fromfunction (s : R) (r c : nat) (f : nat -> nat -> R) :
  scale s (fromfunction r c f) = fromfunction r c (fun i j => s * f i j).
Proof.
  unfold scale, fromfunction. rewrite map_map. apply map_ext. intros i.
  now rewrite map_map.
Qed.

(** Steps 1 to 3: the gradient at the output pre-activation. *)
Lemma output_gradient (z3 yhat : ndarray) (y : R) :
  is_shape 1 1 z3 = true -> is_shape 1 1 yhat = true ->
  exists diff,
    subtract yhat (atleast_2d [y]) = Some diff /\
    multiply (scale 2 diff) (elementwise d_logistic z3) =
    Some (Spec.column 1 (fun _ => Spec.dL_dz3 z3 yhat y)).
Proof.
  intros Hz Hy. eexists. split.
  - unfold subtract. apply (broadcast_same _ 1 1); auto.
  - rewrite scale_fromfunction. unfold multiply.
    rewrite (broadcast_same _ 1 1 _ _ (is_shape_fromfunction _ _ _)
               (is_shape_elementwise _ _ _ _ Hz)) by lia.
    f_equal. apply fromfunction_ext. intros i j Hi Hj.
    replace i with 0%nat by lia. replace j with 0%nat by lia.
    rewrite item_fromfunction by lia.
    rewrite (item_elementwise 1 1) by (assumption || lia).
    rewrite d_logistic_logistic'. unfold Spec.dL_dz3, atleast_2d, item. simpl. ring.
Qed.

(** The code of [backward_propagation] computes the gradient tuple of the
    specification from its arguments and the globals [w_output] and
    [w_second_hidden], and leaves the global namespace as it found it. *)
Lemma backward_propagation_computed (g : globals)
    (z1 a1 z2 a2 z3 yhat x : ndarray) (y : R) :
  is_shape 16 1 z1 = true -> is_shape 16 1 a1 = true ->
  is_shape 16 1 z2 = true -> is_shape 16 1 a2 = true ->
  is_shape 1 1 z3 = true -> is_shape 1 1 yhat = true -> is_shape 4 1 x = true ->
  is_shape 1 16 (w_output g) = true -> is_shape 16 16 (w_second_hidden g) = true ->
  backward_propagation z1 a1 z2 a2 z3 yhat x [y] g =
  Some (Spec.backward g z1 a1 z2 a2 z3 yhat x y, g).
Proof.
  intros Hz1 Ha1 Hz2 Ha2 Hz3 Hy Hx Hw3 Hw2.
  destruct (output_gradient z3 yhat y Hz3 Hy) as (diff & Hdiff & Hd3).
  set (d3 := Spec.dL_dz3 z3 yhat y) in *.
  set (d2 := Spec.dL_dz2 (w_output g) z2 d3).
  set (d1 := Spec.dL_dz1 (w_second_hidden g) z1 d2).
  unfold backward_propagation, bind, load, value, ret.
  rewrite Hdiff, Hd3.
  rewrite (matmul_column_row 1 16 _ _ (is_shape_column _ _) Ha2) by lia.
  rewrite (matmul_T_column 1 16 _ _ Hw3 (is_shape_column _ _)) by lia.
  rewrite (multiply_mask 16 _ _ Hz2 (is_shape_column _ _)) by lia.
  assert (E2 : Spec.column 16
                 (fun i => item (Spec.column 16
                    (fun i0 => sum_range 1
                       (fun k => item (w_output g) k i0 *
                                 item (Spec.column 1 (fun _ => d3)) k 0))) i 0 *
                           Spec.positive (item z2 i 0))
               = Spec.column 16 d2).
  { apply column_ext. intros i Hi. rewrite item_column by assumption. simpl.
    rewrite item_column by lia. unfold d2, Spec.dL_dz2. ring. }
  rewrite E2.
  rewrite (matmul_column_row 16 16 _ _ (is_shape_column _ _) Ha1) by lia.
  rewrite (matmul_T_column 16 16 _ _ Hw2 (is_shape_column _ _)) by lia.
  rewrite (multiply_mask 16 _ _ Hz1 (is_shape_column _ _)) by lia.
  assert (E1 : Spec.column 16
                 (fun i => item (Spec.column 16
                    (fun i0 => sum_range 16
                       (fun k => item (w_second_hidden g) k i0 *
                                 item (Spec.column 16 d2) k 0))) i 0 *
                           Spec.positive (item z1 i 0))
               = Spec.column 16 d1).
  { apply column_ext. intros i Hi. rewrite item_column by assumption.
    unfold d1, Spec.dL_dz1. apply Rmult_eq_compat_r, sum_range_ext. intros k Hk.
    now rewrite item_column. }
  rewrite E1.
  rewrite (matmul_column_row 16 4 _ _ (is_shape_column _ _) Hx) by lia.
  rewrite (outer_ext 1 16 _ (fun _ => d3) _ (fun j => item a2 j 0))
    by (intros; try reflexivity; apply item_column; lia).
  rewrite (outer_ext 16 16 _ d2 _ (fun j => item a1 j 0))
    by (intros; try reflexivity; apply item_column; lia).
  rewrite (outer_ext 16 4 _ d1 _ (fun j => item x j 0))
    by (intros; try reflexivity; apply item_column; lia).
  reflexivity.
Qed.
End BackwardFacts.

(** ** The training loop *)

Section TrainingFacts.
Local Open Scope R_scope.
Import np.

Lemma isubtract_computed (r c : nat) (eta : R) (p grad : ndarray) :
  is_shape r c p = true -> is_shape r c grad = true -> (0 < r)%nat ->
  isubtract p (scale eta grad) = Some (Spec.descend r c eta p grad).
Proof.
  intros Hp Hg Hr. unfold isubtract, subtract.
  rewrite (broadcast_same _ r c _ _ Hp (is_shape_elementwise _ _ (Rmult eta) _ Hg) Hr).
  rewrite (is_shape_nrows _ _ _ Hp), (is_shape_ncols _ _ _ Hp Hr).
  rewrite is_shape_fromfunction. f_equal. apply fromfunction_ext. intros i j Hi Hj.
  unfold scale. now rewrite (item_elementwise r c _ _ _ _ Hg Hi Hj).
Qed.

Lemma shapes_ok_update (eta : R) (g : globals) (grads : gradients) :
  Spec.shapes_ok (Spec.update eta g grads) = true.
Proof.
  destruct grads as [[[[[dw3 db3] dw2] db2] dw1] db1].
  unfold Spec.shapes_ok, Spec.update, Spec.descend. simpl.
  now rewrite !is_shape_fromfunction.
Qed.

Lemma is_shape_reshape_column (v : list R) :
  is_shape (length v) 1 (reshape_column v) = true.
Proof.
  apply is_shape_spec. unfold reshape_column. split.
  - apply length_map.
  - apply Forall_forall. intros row Hrow. apply in_map_iff in Hrow.
    now destruct Hrow as [t [<- _]].
Qed.

Lemma cache_shapes_forward (g : globals) (m : nat) (x : ndarray) :
  Spec.cache_shapes m (Spec.forward g m x) = true.
Proof.
  unfold Spec.cache_shapes, Spec.forward.
  assert (H1 : is_shape 16 m (Spec.z1 g m x) = true) by apply is_shape_affine.
  assert (H2 : is_shape 16 m (Spec.z2 g m x) = true) by apply is_shape_affine.
  assert (H3 : is_shape 1 m (Spec.z3 g m x) = true) by apply is_shape_affine.
  unfold Spec.a1, Spec.a2, Spec.y_hat.
  rewrite H1, H2, H3, !is_shape_elementwise; auto.
Qed.

(** The rows of a well-shaped table of samples. *)
Lemma getitem_row (n c : nat) (a : ndarray) (i : nat) :
  is_shape n c a = true -> (i < n)%nat ->
  exists row, getitem a i = Some row /\ length row = c.
Proof.
  intros Ha Hi. exists (nth i a []). split.
  - unfold getitem. apply nth_error_nth'. rewrite <- (is_shape_nrows _ _ _ Ha) in Hi.
    exact Hi.
  - apply (is_shape_row _ _ _ _ Ha Hi).
Qed.

Lemma length_one (A : Type) (l : list A) : length l = 1%nat -> exists y, l = [y].
Proof.
  destruct l as [|y [|z l]]; simpl; intros H; try discriminate. now exists y.
Qed.

(** One pass of the inner loop's body: forward, backward, then the six
    updates [P − η·G]. *)
Lemma training_step_computed (g : globals) (tp tr : ndarray) (i : nat)
    (row : list R) (y : R) :
  Spec.shapes_ok g = true ->
  getitem tp i = Some row -> length row = 4%nat -> getitem tr i = Some [y] ->
  let x := reshape_column row in
  let '(z1, a1, z2, a2, z3, yhat) := Spec.forward g 1 x in
  training_step tp tr i g =
  Some (tt, Spec.update learning_rate g (Spec.backward g z1 a1 z2 a2 z3 yhat x y)).
Proof.
  intros Hg Hrow Hlen Hy x.
  assert (Hx : is_shape 4 1 x = true)
    by (rewrite <- Hlen; apply is_shape_reshape_column).
  pose proof (cache_shapes_forward g 1 x) as Hc.
  pose proof (forward_propagation_computed g 1 x Hg Hx) as Hf.
  unfold Spec.forward in *. unfold Spec.cache_shapes in Hc.
  rewrite !andb_true_iff in Hc. destruct Hc as [[[[[Hz1 Ha1] Hz2] Ha2] Hz3] Hyh].
  apply shapes_ok_fields in Hg. destruct Hg as (Hw1 & Hb1 & Hw2 & Hb2 & Hw3 & Hb3).
  pose proof (backward_propagation_computed g _ _ _ _ _ _ _ y
                Hz1 Ha1 Hz2 Ha2 Hz3 Hyh Hx Hw3 Hw2) as Hb.
  unfold training_step, bind, value. rewrite Hrow, Hy. fold x. rewrite Hf, Hb.
  unfold Spec.backward, descend, bind, load, value,
    store_w_first_hidden, store_b_first_hidden, store_w_second_hidden,
    store_b_second_hidden, store_w_output, store_b_output. cbn [fst snd
      w_first_hidden b_first_hidden w_second_hidden b_second_hidden w_output b_output].
  rewrite (isubtract_computed 16 4 _ _ _ Hw1 (is_shape_outer _ _ _ _)) by lia.
  cbn [w_first_hidden b_first_hidden w_second_hidden b_second_hidden w_output b_output].
  rewrite (isubtract_computed 16 1 _ _ _ Hb1 (is_shape_column _ _)) by lia.
  cbn [w_first_hidden b_first_hidden w_second_hidden b_second_hidden w_output b_output].
  rewrite (isubtract_computed 16 16 _ _ _ Hw2 (is_shape_outer _ _ _ _)) by lia.
  cbn [w_first_hidden b_first_hidden w_second_hidden b_second_hidden w_output b_output].
  rewrite (isubtract_computed 16 1 _ _ _ Hb2 (is_shape_column _ _)) by lia.
  cbn [w_first_hidden b_first_hidden w_second_hidden b_second_hidden w_output b_output].
  rewrite (isubtract_computed 1 16 _ _ _ Hw3 (is_shape_outer _ _ _ _)) by lia.
  cbn [w_first_hidden b_first_hidden w_second_hidden b_second_hidden w_output b_output].
  rewrite (isubtract_computed 1 1 _ _ _ Hb3 (is_shape_column _ _)) by lia.
  reflexivity.
Qed.

(** On well-shaped samples every step completes and keeps the shapes. *)
Lemma training_step_total (g : globals) (n : nat) (tp tr : ndarray) (i : nat) :
  Spec.shapes_ok g = true -> is_shape n 4 tp = true -> is_shape n 1 tr = true ->
  (i < n)%nat ->
  exists g', training_step tp tr i g = Some (tt, g') /\ Spec.shapes_ok g' = true.
Proof.
  intros Hg Htp Htr Hi.
  destruct (getitem_row _ _ _ _ Htp Hi) as (row & Hrow & Hlen).
  destruct (getitem_row _ _ _ _ Htr Hi) as (t & Ht & Hlt).
  destruct (length_one _ _ Hlt) as [y ->].
  pose proof (training_step_computed g tp tr i row y Hg Hrow Hlen Ht) as Hs.
  cbv zeta in Hs. unfold Spec.forward in Hs.
  eexists. split; [exact Hs | apply shapes_ok_update].
Qed.

Lemma bind_ext (A B : Type) (m m' : M A) (k k' : A -> M B) (g : globals) :
  m g = m' g -> (forall a g', k a g' = k' a g') -> bind m k g = bind m' k' g.
Proof.
  intros Hm Hk. unfold bind. rewrite Hm. destruct (m' g) as [[a g']|]; auto.
Qed.

Lemma run_app (body : nat -> M unit) (l1 l2 : list nat) (g : globals) :
  run body (l1 ++ l2) g = bind (run body l1) (fun _ => run body l2) g.
Proof.
  revert g. induction l1 as [|i l1 IH]; intros g; simpl.
  - reflexivity.
  - unfold bind in *. destruct (body i g) as [[u g']|]; [|reflexivity].
    apply IH.
Qed.

Lemma run_single (body : nat -> M unit) (i : nat) (g : globals) :
  run body [i] g = body i g.
Proof.
  simpl. unfold bind, ret. destruct (body i g) as [[[] g']|]; reflexivity.
Qed.

(** A [for] loop over [range(n)] runs its body at 0, 1, ..., n-1. *)
Lemma for_range_run (n : nat) (body : nat -> M unit) (g : globals) :
  for_range n body g = run body (seq 0 n) g.
Proof.
  revert g. induction n as [|n IH]; intros g; [reflexivity|].
  rewrite seq_S, run_app. simpl for_range. apply bind_ext; [apply IH|].
  intros _ g'. symmetry. apply run_single.
Qed.

Lemma schedule_S (e n : nat) : schedule (S e) n = schedule e n ++ seq 0 n.
Proof.
  unfold schedule. change (repeat (seq 0 n) (S e)) with (seq 0 n :: repeat (seq 0 n) e).
  rewrite repeat_cons, concat_app. simpl. now rewrite app_nil_r.
Qed.

(** The nested loops visit the samples in the order of [schedule]. *)
Lemma training_epochs_run (e : nat) (tp tr : ndarray) (g : globals) :
  training_epochs e tp tr g = run (training_step tp tr) (schedule e (length tp)) g.
Proof.
  revert g. induction e as [|e IH]; intros g; [reflexivity|].
  rewrite schedule_S, run_app. unfold training_epochs in *. simpl for_range.
  apply bind_ext; [apply IH|]. intros _ g'. apply for_range_run.
Qed.

Lemma length_schedule (e n : nat) : length (schedule e n) = (e * n)%nat.
Proof.
  induction e as [|e IH]; [reflexivity|].
  rewrite schedule_S, length_app, IH, length_seq. lia.
Qed.

Lemma in_schedule (e n i : nat) : In i (schedule e n) -> (i < n)%nat.
Proof.
  induction e as [|e IH]; [intros []|].
  rewrite schedule_S, in_app_iff, in_seq. intros [H|H]; [auto|lia].
Qed.

Lemma run_training_total (n : nat) (tp tr : ndarray) (steps : list nat) (g : globals) :
  Spec.shapes_ok g = true -> is_shape n 4 tp = true -> is_shape n 1 tr = true ->
  (forall i, In i steps -> (i < n)%nat) ->
  exists g', run (training_step tp tr) steps g = Some (tt, g') /\
             Spec.shapes_ok g' = true.
Proof.
  intros Hg Htp Htr. revert g Hg. induction steps as [|i steps IH]; intros g Hg Hin.
  - exists g. split; [reflexivity | assumption].
  - destruct (training_step_total g n tp tr i Hg Htp Htr) as (g1 & Hs & Hg1);
      [apply Hin; now left|].
    destruct (IH g1 Hg1) as (g' & Hr & Hg'); [intros; apply Hin; now right|].
    exists g'. split; [|assumption]. simpl. unfold bind. now rewrite Hs.
Qed.

Lemma training_epochs_total (e n : nat) (tp tr : ndarray) (g : globals) :
  Spec.shapes_ok g = true -> is_shape n 4 tp = true -> is_shape n 1 tr = true ->
  exists g', training_epochs e tp tr g = Some (tt, g') /\ Spec.shapes_ok g' = true.
Proof.
  intros Hg Htp Htr. rewrite training_epochs_run.
  apply (run_training_total n); auto.
  intros i Hi. apply in_schedule in Hi.
  now rewrite <- (is_shape_nrows _ _ _ Htp).
Qed.

Lemma shapes_ok_initialise (draws : nat -> R) : Spec.shapes_ok (initialise draws) = true.
Proof.
  unfold initialise, random_rand, Spec.shapes_ok. simpl.
  now rewrite !is_shape_fromfunction.
Qed.
End TrainingFacts.

(** ** Batched evaluation *)

Section BatchFacts.
Local Open Scope R_scope.
Import np.

Lemma is_shape_column_of (r c j : nat) (a : ndarray) :
  is_shape r c a = true -> is_shape r 1 (Spec.column_of j a) = true.
Proof.
  intros Ha. apply is_shape_spec in Ha. destruct Ha as [Hl _].
  apply is_shape_spec. unfold Spec.column_of. split.
  - now rewrite length_map.
  - apply Forall_forall. intros row Hrow. apply in_map_iff in Hrow.
    now destruct Hrow as [t [<- _]].
Qed.

Lemma item_column_of (r c j : nat) (a : ndarray) (i : nat) :
  is_shape r c a = true -> (i < r)%nat -> item (Spec.column_of j a) i 0 = item a i j.
Proof.
  intros Ha Hi. unfold item, Spec.column_of.
  pose proof (is_shape_nrows _ _ _ Ha) as Hr. unfold nrows in Hr.
  rewrite (nth_indep _ [] [nth j [] 0]) by (rewrite length_map; lia).
  now rewrite (map_nth (fun row => [nth j row 0]) a [] i).
Qed.

Lemma column_of_elementwise (r c j : nat) (f : R -> R) (a : ndarray) :
  is_shape r c a = true -> (j < c)%nat ->
  elementwise f (Spec.column_of j a) = Spec.column_of j (elementwise f a).
Proof.
  intros Ha Hj.
  apply (ndarray_ext r 1).
  - apply is_shape_elementwise, (is_shape_column_of r c), Ha.
  - apply (is_shape_column_of r c), is_shape_elementwise, Ha.
  - intros i k Hi Hk. replace k with 0%nat by lia.
    rewrite (item_elementwise r 1) by (try lia; apply (is_shape_column_of r c), Ha).
    rewrite (item_column_of r c) by assumption.
    rewrite (item_column_of r c) by (try assumption; apply is_shape_elementwise, Ha).
    now rewrite (item_elementwise r c).
Qed.

Lemma affine_column_of (r n m j : nat) (w b x : ndarray) :
  is_shape n m x = true -> (j < m)%nat ->
  Spec.affine r n 1 w b (Spec.column_of j x) =
  Spec.column_of j (Spec.affine r n m w b x).
Proof.
  intros Hx Hj.
  apply (ndarray_ext r 1).
  - apply is_shape_affine.
  - apply (is_shape_column_of r m), is_shape_affine.
  - intros i k Hi Hk. replace k with 0%nat by lia.
    rewrite (item_column_of r m) by (try assumption; apply is_shape_affine).
    unfold Spec.affine. rewrite !item_fromfunction by lia.
    f_equal. apply sum_range_ext. intros t Ht.
    now rewrite (item_column_of n m).
Qed.

(** The specification's six values for one column of a batch are the
    corresponding columns of the batch's six values. *)
Lemma forward_column_of (g : globals) (m j : nat) (x : ndarray) :
  is_shape 4 m x = true -> (j < m)%nat ->
  Spec.forward g 1 (Spec.column_of j x) =
  let '(z1, a1, z2, a2, z3, yhat) := Spec.forward g m x in
  (Spec.column_of j z1, Spec.column_of j a1, Spec.column_of j z2,
   Spec.column_of j a2, Spec.column_of j z3, Spec.column_of j yhat).
Proof.
  intros Hx Hj. unfold Spec.forward.
  assert (E1 : Spec.z1 g 1 (Spec.column_of j x) = Spec.column_of j (Spec.z1 g m x))
    by (apply affine_column_of; assumption).
  assert (F1 : Spec.a1 g 1 (Spec.column_of j x) = Spec.column_of j (Spec.a1 g m x)).
  { unfold Spec.a1. rewrite E1.
    apply (column_of_elementwise 16 m); [apply is_shape_affine | assumption]. }
  assert (Ha1 : is_shape 16 m (Spec.a1 g m x) = true)
    by apply is_shape_elementwise, is_shape_affine.
  assert (E2 : Spec.z2 g 1 (Spec.column_of j x) = Spec.column_of j (Spec.z2 g m x)).
  { unfold Spec.z2. rewrite F1. apply affine_column_of; assumption. }
  assert (F2 : Spec.a2 g 1 (Spec.column_of j x) = Spec.column_of j (Spec.a2 g m x)).
  { unfold Spec.a2. rewrite E2.
    apply (column_of_elementwise 16 m); [apply is_shape_affine | assumption]. }
  assert (Ha2 : is_shape 16 m (Spec.a2 g m x) = true)
    by apply is_shape_elementwise, is_shape_affine.
  assert (E3 : Spec.z3 g 1 (Spec.column_of j x) = Spec.column_of j (Spec.z3 g m x)).
  { unfold Spec.z3. rewrite F2. apply affine_column_of; assumption. }
  assert (F3 : Spec.y_hat g 1 (Spec.column_of j x) = Spec.column_of j (Spec.y_hat g m x)).
  { unfold Spec.y_hat. rewrite E3.
    apply (column_of_elementwise 1 m); [apply is_shape_affine | assumption]. }
  now rewrite E1, F1, E2, F2, E3, F3.
Qed.

Lemma row_vector (m : nat) (a : ndarray) :
  is_shape 1 m a = true -> exists row, a = [row] /\ length row = m.
Proof.
  intros Ha. apply is_shape_spec in Ha. destruct Ha as [Hl Hf].
  destruct a as [|row [|row' a]]; try discriminate.
  exists row. split; [reflexivity | now inversion Hf].
Qed.

Lemma is_shape_T (r c : nat) (a : ndarray) :
  is_shape r c a = true -> (0 < r)%nat -> is_shape c r (T a) = true.
Proof.
  intros Ha Hr. rewrite (T_shape _ _ _ Ha Hr). apply is_shape_fromfunction.
Qed.

(** Column [j] of the transposed table is sample [j], reshaped as in the
    training cell. *)
Lemma column_of_T (r c j : nat) (a : ndarray) :
  is_shape r c a = true -> (j < r)%nat ->
  Spec.column_of j (T a) = reshape_column (nth j a []).
Proof.
  intros Ha Hj.
  pose proof (is_shape_row _ _ _ _ Ha Hj) as Hlen.
  apply (ndarray_ext c 1).
  - apply (is_shape_column_of c r), is_shape_T; [assumption | lia].
  - rewrite <- Hlen. apply is_shape_reshape_column.
  - intros i k Hi Hk. replace k with 0%nat by lia.
    rewrite (item_column_of c r)
      by first [assumption | apply is_shape_T; [assumption | lia]].
    rewrite (T_shape _ _ _ Ha) by lia. rewrite item_fromfunction by assumption.
    unfold item, reshape_column.
    rewrite (nth_indep (map (fun v => [v]) (nth j a [])) [] [0])
      by (rewrite length_map; lia).
    now rewrite (map_nth (fun v => [v]) (nth j a []) 0 i).
Qed.

Lemma predictions_computed (g : globals) (m : nat) (tp : ndarray) :
  Spec.shapes_ok g = true -> is_shape m 4 tp = true -> (0 < m)%nat ->
  predictions tp g =
  Some (elementwise (fun v => astype_int (round v)) (Spec.y_hat g m (T tp)), g).
Proof.
  intros Hg Htp Hm. unfold predictions, bind.
  now rewrite (forward_propagation_computed g m (T tp) Hg (is_shape_T _ _ _ Htp Hm)).
Qed.

(** Entry [j] of the flattened predictions of a row of outputs. *)
Lemma nth_flatten_predictions (m j : nat) (yhat : ndarray) :
  is_shape 1 m yhat = true -> (j < m)%nat ->
  nth j (flatten (elementwise (fun v => astype_int (round v)) yhat)) 0%Z =
  astype_int (round (item yhat 0 j)).
Proof.
  intros Hs Hj. destruct (row_vector m _ Hs) as (row & -> & Hlen).
  unfold flatten, elementwise, item. simpl. rewrite app_nil_r.
  rewrite (nth_indep _ 0%Z (astype_int (round 0))) by (rewrite length_map; lia).
  now rewrite (map_nth (fun v => astype_int (round v)) row 0 j).
Qed.
End BatchFacts.

(** ** Rounding *)

Section RoundingFacts.
Local Open Scope R_scope.
Import np.

Lemma floor_bounds (x : R) : IZR (floor x) <= x < IZR (floor x) + 1.
Proof. unfold floor. destruct (base_Int_part x). lra. Qed.

Lemma floor_IZR (n : Z) : floor (IZR n) = n.
Proof. unfold floor. symmetry. apply Int_part_spec. lra. Qed.

Lemma floor_unique (x : R) (n : Z) : IZR n <= x < IZR n + 1 -> floor x = n.
Proof. intros H. unfold floor. symmetry. apply Int_part_spec. lra. Qed.

Lemma astype_int_IZR (n : Z) : astype_int (IZR n) = n.
Proof.
  unfold astype_int. destruct (Rle_dec 0 (IZR n)).
  - apply floor_IZR.
  - rewrite <- opp_IZR, floor_IZR. lia.
Qed.

(** [round] returns an integer-valued number at distance at most 1/2, and on
    a tie the even one. *)
Lemma round_nearest_even (x : R) :
  exists n : Z,
    round x = IZR n /\ Rabs (x - IZR n) <= 1 / 2 /\
    (Rabs (x - IZR n) = 1 / 2 -> Z.even n = true).
Proof.
  pose proof (floor_bounds x) as Hb. unfold round.
  destruct (Rlt_dec (x - IZR (floor x)) (1 / 2)) as [Hlo|Hlo].
  - exists (floor x). split; [reflexivity|]. split.
    + apply Rabs_le. lra.
    + intros Ht. rewrite Rabs_right in Ht by lra. lra.
  - destruct (Rlt_dec (1 / 2) (x - IZR (floor x))) as [Hhi|Hhi].
    + exists (floor x + 1)%Z. rewrite plus_IZR. split; [reflexivity|]. split.
      * apply Rabs_le. lra.
      * intros Ht. rewrite Rabs_left in Ht by lra. lra.
    + destruct (Z.even (floor x)) eqn:Hev.
      * exists (floor x). split; [reflexivity|]. split; [apply Rabs_le; lra | auto].
      * exists (floor x + 1)%Z. rewrite plus_IZR. split; [reflexivity|]. split.
        -- apply Rabs_le. lra.
        -- intros _. rewrite Z.even_add, Hev. reflexivity.
Qed.

(** Rounding on the range of the logistic function. *)
Lemma round_unit_interval (y : R) :
  0 < y < 1 ->
  astype_int (round y) = if Rlt_dec (1 / 2) y then 1%Z else 0%Z.
Proof.
  intros Hy. assert (Hf : floor y = 0%Z) by (apply floor_unique; simpl; lra).
  unfold round. rewrite Hf. simpl Z.even. cbv iota. rewrite Rminus_0_r.
  destruct (Rlt_dec y (1 / 2)), (Rlt_dec (1 / 2) y);
    try apply astype_int_IZR; lra.
Qed.
End RoundingFacts.

(** ** What [backward_propagation] reads *)

Section FrameFacts.
Import np.

Ltac case_result :=
  cbv beta iota;
  match goal with
  | |- context [match ?o with Some _ => _ | None => _ end] =>
      lazymatch o with
      | context [match _ with Some _ => _ | None => _ end] => fail
      | _ => destruct o
      end
  end.

(** The gradients depend on the namespace through [w_output] and
    [w_second_hidden] only. *)
Lemma backward_propagation_reads (g1 g2 : globals)
    (z1 a1 z2 a2 z3 yhat x : ndarray) (y : list R) :
  w_output g1 = w_output g2 -> w_second_hidden g1 = w_second_hidden g2 ->
  option_map fst (backward_propagation z1 a1 z2 a2 z3 yhat x y g1) =
  option_map fst (backward_propagation z1 a1 z2 a2 z3 yhat x y g2).
Proof.
  intros H3 H2. unfold backward_propagation, bind, load, value, ret.
  repeat (rewrite ?H3, ?H2; case_result); reflexivity.
Qed.

(** [backward_propagation] assigns to no global. *)
Lemma backward_propagation_pure (g g' : globals)
    (z1 a1 z2 a2 z3 yhat x : ndarray) (y : list R) (grads : gradients) :
  backward_propagation z1 a1 z2 a2 z3 yhat x y g = Some (grads, g') -> g' = g.
Proof.
  unfold backward_propagation, bind, load, value, ret.
  repeat case_result; intros H; now inversion H.
Qed.

(** [forward_propagation] assigns to no global. *)
Lemma forward_propagation_pure (g g' : globals) (x : ndarray) (c : cache) :
  forward_propagation x g = Some (c, g') -> g' = g.
Proof.
  unfold forward_propagation, bind, load, value, ret.
  repeat case_result; intros H; now inversion H.
Qed.
End FrameFacts.

(** ** The logistic function in binary64 arithmetic *)

Section FloatFacts.
Local Open Scope float_scope.

Lemma logistic_of_overflow (np_exp : float -> float) (x : float) :
  np_exp (- x) = infinity -> Float64.logistic np_exp x = 0.
Proof. intros H. unfold Float64.logistic. rewrite H. reflexivity. Qed.

Lemma d_logistic_of_overflow (np_exp : float -> float) (x : float) :
  np_exp (- x) = infinity -> Float64.d_logistic np_exp x = nan.
Proof. intros H. unfold Float64.d_logistic. rewrite H. reflexivity. Qed.

Lemma logistic_of_absorption (np_exp : float -> float) (x : float) :
  1 + np_exp (- x) = 1 -> Float64.logistic np_exp x = 1.
Proof. intros H. unfold Float64.logistic. rewrite H. reflexivity. Qed.

Lemma logistic_of_underflow (np_exp : float -> float) (x : float) :
  np_exp (- x) = 0 -> Float64.logistic np_exp x = 1.
Proof. intros H. apply logistic_of_absorption. rewrite H. reflexivity. Qed.

(** No binary64 number is at least 710 and at most -746. *)
Lemma leb_exclusive (t : float) : (710 <=? t) = true -> (t <=? -746) = true -> False.
Proof.
  assert (Hp : exists m e, Prim2SF 710 = S754_finite false m e)
    by (vm_compute; eauto).
  assert (Hn : exists m e, Prim2SF (-746) = S754_finite true m e)
    by (vm_compute; eauto).
  destruct Hp as (mp & ep & Hp), Hn as (mn & en & Hn).
  rewrite !leb_spec, Hp, Hn. unfold SFleb.
  destruct (Prim2SF t) as [[|]|[|]| |[|] m e]; cbn; congruence.
Qed.
End FloatFacts.

(** ** NaN in binary64 arithmetic and in the backward pass *)

Section FloatArrayFacts.
Local Open Scope float_scope.
Import Float64.

Lemma mul_nan_l (x : float) : nan * x = nan.
Proof. apply Prim2SF_inj. rewrite mul_spec. reflexivity. Qed.

Lemma mul_nan_r (x : float) : x * nan = nan.
Proof.
  apply Prim2SF_inj. rewrite mul_spec. change (Prim2SF nan) with S754_nan.
  destruct (Prim2SF x); reflexivity.
Qed.

Lemma add_nan_r (x : float) : x + nan = nan.
Proof.
  apply Prim2SF_inj. rewrite add_spec. change (Prim2SF nan) with S754_nan.
  destruct (Prim2SF x); reflexivity.
Qed.

(** A sum with a NaN last term is NaN. *)
Lemma sum_range_nan (n : nat) (f : nat -> float) :
  f n = nan -> sum_range (S n) f = nan.
Proof. intros H. cbn [sum_range]. rewrite H. apply add_nan_r. Qed.

Lemma float_length_fromfunction (r c : nat) (f : nat -> nat -> float) :
  nrows (fromfunction r c f) = r.
Proof. unfold nrows, fromfunction. now rewrite length_map, length_seq. Qed.

Lemma float_ncols_fromfunction (r c : nat) (f : nat -> nat -> float) :
  (0 < r)%nat -> ncols (fromfunction r c f) = c.
Proof.
  intros Hr. destruct r as [|r]; [lia|].
  unfold ncols, fromfunction. cbn [seq map]. now rewrite length_map, length_seq.
Qed.

Lemma float_item_fromfunction (r c : nat) (f : nat -> nat -> float) (i j : nat) :
  (i < r)%nat -> (j < c)%nat -> item (fromfunction r c f) i j = f i j.
Proof.
  intros Hi Hj. unfold item, fromfunction.
  rewrite (nth_indep _ [] (map (fun j => f 0%nat j) (seq 0 c)))
    by now rewrite length_map, length_seq.
  rewrite (map_nth (fun i => map (fun j => f i j) (seq 0 c)) (seq 0 r) 0%nat i).
  rewrite seq_nth by assumption. cbn [Nat.add].
  rewrite (nth_indep _ 0 (f i 0%nat)) by now rewrite length_map, length_seq.
  rewrite (map_nth (fun j => f i j) (seq 0 c) 0%nat j).
  now rewrite seq_nth.
Qed.

Lemma float_fromfunction_ext (r c : nat) (f h : nat -> nat -> float) :
  (forall i j, (i < r)%nat -> (j < c)%nat -> f i j = h i j) ->
  fromfunction r c f = fromfunction r c h.
Proof.
  intros H. unfold fromfunction. apply map_ext_in. intros i Hi.
  apply in_seq in Hi. apply map_ext_in. intros j Hj. apply in_seq in Hj.
  apply H; lia.
Qed.

Lemma float_is_shape_dims (r c : nat) (a : ndarray) :
  is_shape r c a = true -> (0 < r)%nat -> nrows a = r /\ ncols a = c.
Proof.
  unfold is_shape, nrows, ncols. intros H Hr.
  apply andb_true_iff in H. destruct H as [Hl Hc]. apply Nat.eqb_eq in Hl.
  split; [exact Hl|]. destruct a as [|row a]; [simpl in Hl; lia|].
  cbn [forallb] in Hc. apply andb_true_iff in Hc. now apply Nat.eqb_eq.
Qed.

Lemma float_dims_T (r c : nat) (a : ndarray) :
  is_shape r c a = true -> (0 < r)%nat -> (0 < c)%nat ->
  nrows (T a) = c /\ ncols (T a) = r.
Proof.
  intros H Hr Hc. destruct (float_is_shape_dims r c a H Hr) as [Hn Hm].
  unfold T. rewrite Hn, Hm. split.
  - apply float_length_fromfunction.
  - now apply float_ncols_fromfunction.
Qed.

Lemma float_dims_mask (r c : nat) (a : ndarray) :
  is_shape r c a = true -> (0 < r)%nat ->
  nrows (of_bool (np.elementwise d_relu a)) = r /\
  ncols (of_bool (np.elementwise d_relu a)) = c.
Proof.
  intros H Hr. destruct (float_is_shape_dims r c a H Hr) as [Hn Hm].
  unfold of_bool, np.elementwise, nrows, ncols in *. rewrite !length_map.
  split; [exact Hn|]. destruct a as [|row a]; [simpl in Hn; lia|].
  cbn [map]. now rewrite !length_map.
Qed.

Lemma float_item_full_nan (r c i j : nat) :
  (i < r)%nat -> (j < c)%nat -> item (full_nan r c) i j = nan.
Proof. intros Hi Hj. unfold full_nan. now rewrite float_item_fromfunction. Qed.

Lemma float_dims_full_nan (r c : nat) :
  (0 < r)%nat -> nrows (full_nan r c) = r /\ ncols (full_nan r c) = c.
Proof.
  intros Hr. unfold full_nan. split.
  - apply float_length_fromfunction.
  - now apply float_ncols_fromfunction.
Qed.

(** NaN spreads through the element-wise product and through [@]. *)
Lemma multiply_nan (r c : nat) (a : ndarray) :
  nrows a = r -> ncols a = c -> (0 < r)%nat -> (0 < c)%nat ->
  multiply a (full_nan r c) = Some (full_nan r c).
Proof.
  intros Hn Hm Hr Hc. destruct (float_dims_full_nan r c Hr) as [Hn' Hm'].
  unfold multiply, broadcast. rewrite Hn, Hm, Hn', Hm', !broadcast_dim_same.
  f_equal. unfold full_nan at 2. apply float_fromfunction_ext. intros i j Hi Hj.
  unfold bitem at 2. rewrite Hn', Hm'.
  rewrite float_item_full_nan
    by (destruct (r =? 1)%nat, (c =? 1)%nat; lia).
  apply mul_nan_r.
Qed.

Lemma matmul_nan_l (r n c : nat) (b : ndarray) :
  nrows b = S n -> ncols b = c -> (0 < r)%nat ->
  matmul (full_nan r (S n)) b = Some (full_nan r c).
Proof.
  intros Hn Hm Hr. destruct (float_dims_full_nan r (S n) Hr) as [Hn' Hm'].
  unfold matmul. rewrite Hn, Hm, Hn', Hm', Nat.eqb_refl.
  f_equal. apply float_fromfunction_ext. intros i j Hi Hj.
  apply sum_range_nan. rewrite float_item_full_nan by lia. apply mul_nan_l.
Qed.

Lemma matmul_nan_r (r n c : nat) (a : ndarray) :
  nrows a = r -> ncols a = S n ->
  matmul a (full_nan (S n) c) = Some (full_nan r c).
Proof.
  intros Hn Hm. destruct (float_dims_full_nan (S n) c) as [Hn' Hm']; [lia|].
  unfold matmul. rewrite Hn, Hm, Hn', Hm', Nat.eqb_refl.
  f_equal. apply float_fromfunction_ext. intros i j Hi Hj.
  apply sum_range_nan. rewrite float_item_full_nan by lia. apply mul_nan_r.
Qed.

Lemma float_shape_1_1 (a : ndarray) : is_shape 1 1 a = true -> a = [[item a 0 0]].
Proof.
  unfold is_shape. intros H.
  destruct a as [|[|v [|w row]] [|row' a]]; try discriminate H. reflexivity.
Qed.

(** When [np.exp(-z3)] is [+inf], [backward_propagation] returns its six
    tensors, of their shapes, with NaN in every entry. *)
Lemma backward_propagation_nan (np_exp : float -> float)
    (w3 w2 z1 a1 z2 a2 z3 yhat x : ndarray) (y : float) :
  is_shape 1 16 w3 = true -> is_shape 16 16 w2 = true ->
  is_shape 16 1 z1 = true -> is_shape 16 1 a1 = true ->
  is_shape 16 1 z2 = true -> is_shape 16 1 a2 = true ->
  is_shape 1 1 z3 = true -> is_shape 1 1 yhat = true -> is_shape 4 1 x = true ->
  np_exp (- item z3 0 0) = infinity ->
  backward_propagation np_exp w3 w2 z1 a1 z2 a2 z3 yhat x [y] =
    Some (full_nan 1 16, full_nan 1 1, full_nan 16 16, full_nan 16 1,
          full_nan 16 4, full_nan 16 1).
Proof.
  intros Hw3 Hw2 Hz1 Ha1 Hz2 Ha2 Hz3 Hy Hx He.
  rewrite (float_shape_1_1 z3 Hz3), (float_shape_1_1 yhat Hy).
  unfold backward_propagation.
  change (subtract [[item yhat 0 0]] [[y]]) with (Some [[item yhat 0 0 - y]]).
  cbn [bind]. cbn [np.elementwise map scale].
  rewrite (d_logistic_of_overflow np_exp (item z3 0 0) He).
  change [[nan]] with (full_nan 1 1).
  rewrite (multiply_nan 1 1) by (reflexivity || lia). cbn [bind].
  destruct (float_dims_T 16 1 a2 Ha2) as [Hr1 Hc1]; try lia.
  rewrite (matmul_nan_l 1 0 16 (T a2) Hr1 Hc1) by lia. cbn [bind].
  destruct (float_dims_T 1 16 w3 Hw3) as [Hr2 Hc2]; try lia.
  rewrite (matmul_nan_r 16 0 1 (T w3) Hr2 Hc2). cbn [bind].
  destruct (float_dims_mask 16 1 z2 Hz2) as [Hr3 Hc3]; try lia.
  rewrite (multiply_nan 16 1 _ Hr3 Hc3) by lia. cbn [bind].
  destruct (float_dims_T 16 1 a1 Ha1) as [Hr4 Hc4]; try lia.
  rewrite (matmul_nan_l 16 0 16 (T a1) Hr4 Hc4) by lia. cbn [bind].
  destruct (float_dims_T 16 16 w2 Hw2) as [Hr5 Hc5]; try lia.
  rewrite (matmul_nan_r 16 15 1 (T w2) Hr5 Hc5). cbn [bind].
  destruct (float_dims_mask 16 1 z1 Hz1) as [Hr6 Hc6]; try lia.
  rewrite (multiply_nan 16 1 _ Hr6 Hc6) by lia. cbn [bind].
  destruct (float_dims_T 4 1 x Hx) as [Hr7 Hc7]; try lia.
  rewrite (matmul_nan_l 16 0 4 (T x) Hr7 Hc7) by lia. cbn [bind].
  reflexivity.
Qed.
End FloatArrayFacts.

(** ** The operations on small inputs *)

Section Checks.
Local Open Scope R_scope.
Import np.

Example matmul_2x2_2x1 : matmul [[1; 2]; [3; 4]] [[5]; [6]] = Some [[17]; [39]].
Proof.
  unfold matmul. simpl. unfold fromfunction, item. simpl.
  repeat (f_equal; try ring).
Qed.

Example matmul_mismatch : matmul [[1; 2]; [3; 4]] [[5; 6]] = None.
Proof. reflexivity. Qed.

Example add_broadcasts_column :
  add [[1; 2]; [3; 4]] [[10]; [20]] = Some [[11; 12]; [23; 24]].
Proof.
  unfold add, broadcast. simpl. unfold fromfunction, bitem, item. simpl.
  repeat (f_equal; try ring).
Qed.

Example add_mismatch : add [[1; 2]; [3; 4]] [[1; 2; 3]] = None.
Proof. reflexivity. Qed.

Example isubtract_keeps_shape : isubtract [[1]] [[1; 2]] = None.
Proof. reflexivity. Qed.

Example transpose_2x3 : T [[1; 2; 3]; [4; 5; 6]] = [[1; 4]; [2; 5]; [3; 6]].
Proof. reflexivity. Qed.

Example reshape_then_shape : is_shape 4 1 (reshape_column [1; 2; 3; 4]) = true.
Proof. reflexivity. Qed.

Example round_five_halves : round (5 / 2) = 2.
Proof.
  unfold round. rewrite (floor_unique (5 / 2) 2) by lra.
  destruct (Rlt_dec (5 / 2 - 2) (1 / 2)); [lra|].
  destruct (Rlt_dec (1 / 2) (5 / 2 - 2)); [lra|]. reflexivity.
Qed.

Example round_three_halves : round (3 / 2) = 2.
Proof.
  unfold round. rewrite (floor_unique (3 / 2) 1) by lra.
  destruct (Rlt_dec (3 / 2 - 1) (1 / 2)); [lra|].
  destruct (Rlt_dec (1 / 2) (3 / 2 - 1)); [lra|]. reflexivity.
Qed.

Example round_seven_tenths : round (7 / 10) = 1.
Proof.
  unfold round. rewrite (floor_unique (7 / 10) 0) by lra.
  destruct (Rlt_dec (7 / 10 - 0) (1 / 2)); [lra|].
  destruct (Rlt_dec (1 / 2) (7 / 10 - 0)); [reflexivity | lra].
Qed.

Example relu_values : relu 3 = 3 /\ relu (-3) = 0 /\ relu 0 = 0.
Proof.
  repeat split; [apply (relu_cases 3) | apply (relu_cases (-3)) | apply (relu_cases 0)]; lra.
Qed.

Example tally_counts :
  confusion_matrix [[1]; [0]; [1]; [0]]%Z [[1; 0; 0; 1]]%Z = Confusion 1 1 1 1.
Proof. reflexivity. Qed.

Example initialise_fill_order (draws : nat -> R) :
  item (w_first_hidden (initialise draws)) 1 2 = draws 6%nat /\
  item (b_first_hidden (initialise draws)) 0 0 = draws 64%nat /\
  item (b_output (initialise draws)) 0 0 = draws 368%nat.
Proof. repeat split. Qed.
End Checks.

(** * The claims *)

Section Claims.
Local Open Scope R_scope.
Import np.

(** C8, as the specification states it, fails on binary64 numbers: where
    [e^(−x)] overflows to [+inf] the code returns exactly 0, at -710 as at
    -711, and where [e^(−x)] underflows to 0 it returns exactly 1, at 746 as
    at 747; so the value is not strictly between 0 and 1 there, and it does
    not increase strictly. *)
Lemma logistic_saturates :
  (710 <=? - (-710))%float = true /\ (-711 <? -710)%float = true /\
  (- 746 <=? -746)%float = true /\ (746 <? 747)%float = true /\
  forall np_exp : float -> float,
    Float64.overflows np_exp -> Float64.underflows np_exp ->
    Float64.logistic np_exp (-710) = 0%float /\
    Float64.logistic np_exp (-711) = 0%float /\
    Float64.logistic np_exp 746 = 1%float /\
    Float64.logistic np_exp 747 = 1%float.
Proof.
  repeat (split; [reflexivity|]). intros np_exp Hov Hun. repeat split.
  - apply logistic_of_overflow, Hov. reflexivity.
  - apply logistic_of_overflow, Hov. reflexivity.
  - apply logistic_of_underflow, Hun. reflexivity.
  - apply logistic_of_underflow, Hun. reflexivity.
Qed.

(** C8, amended: for every [x], [logistic x] lies between 0 and 1, strictly
    so for [−709 ≤ x ≤ 36]; [logistic 0 = 0.5]; and [logistic] is
    non-decreasing.  On binary64 numbers the two bounds are reached:
    [logistic] is exactly 0.5 at 0, exactly 0 wherever [e^(−x)] overflows to
    [+inf] (from [−x = 710] on), and exactly 1 wherever [1 + e^(−x)] rounds to
    1, as it does wherever [e^(−x)] underflows to 0 (from [x = 746] on). *)
Theorem logistic_properties (np_exp : float -> float) :
  np_exp (- 0)%float = 1%float ->
  Float64.overflows np_exp -> Float64.underflows np_exp ->
  (forall x, 0 <= logistic x <= 1) /\
  (forall x, -709 <= x <= 36 -> 0 < logistic x < 1) /\
  logistic 0 = 1 / 2 /\
  (forall x x', x <= x' -> logistic x <= logistic x') /\
  Float64.logistic np_exp 0 = 0.5%float /\
  (forall x, (710 <=? - x)%float = true -> Float64.logistic np_exp x = 0%float) /\
  (forall x, (1 + np_exp (- x) = 1)%float -> Float64.logistic np_exp x = 1%float) /\
  (forall x, (- x <=? -746)%float = true -> Float64.logistic np_exp x = 1%float).
Proof.
  intros H0 Hov Hun.
  split; [intros x; pose proof (logistic_bounds x); lra|].
  split; [intros x _; apply logistic_bounds|].
  split; [exact logistic_zero|].
  split.
  { intros x x' [Hlt| ->]; [|lra].
    pose proof (logistic_increasing x x' Hlt). lra. }
  split; [unfold Float64.logistic; rewrite H0; reflexivity|].
  split; [intros x Hx; apply logistic_of_overflow, Hov, Hx|].
  split; [intros x Hx; now apply logistic_of_absorption|].
  intros x Hx. apply logistic_of_underflow, Hun, Hx.
Qed.

Lemma clamped_saturates :
  Examples.clamped (- 0)%float = 1%float /\
  Float64.overflows Examples.clamped /\ Float64.underflows Examples.clamped.
Proof.
  split; [reflexivity|]. split; intros t Ht; unfold Examples.clamped.
  - now rewrite Ht.
  - rewrite Ht. destruct (710 <=? t)%float eqn:E; [|reflexivity].
    exfalso. exact (leb_exclusive t E Ht).
Defined.

Lemma logistic_properties_witness :
  (forall x, 0 <= logistic x <= 1) /\
  (forall x, -709 <= x <= 36 -> 0 < logistic x < 1) /\
  logistic 0 = 1 / 2 /\
  (forall x x', x <= x' -> logistic x <= logistic x') /\
  Float64.logistic Examples.clamped 0 = 0.5%float /\
  (forall x, (710 <=? - x)%float = true ->
     Float64.logistic Examples.clamped x = 0%float) /\
  (forall x, (1 + Examples.clamped (- x) = 1)%float ->
     Float64.logistic Examples.clamped x = 1%float) /\
  (forall x, (- x <=? -746)%float = true ->
     Float64.logistic Examples.clamped x = 1%float).
Proof.
  apply (logistic_properties Examples.clamped).
  - exact (proj1 clamped_saturates).
  - exact (proj1 (proj2 clamped_saturates)).
  - exact (proj2 (proj2 clamped_saturates)).
Defined.


(** C2: for every 4-dimensional input [x] and every setting of the
    parameters (of the shapes of the model), [forward_propagation x] returns
    the six values [z1 = W1·x + b1], [a1 = relu(z1)], [z2 = W2·a1 + b2],
    [a2 = relu(z2)], [z3 = W3·a2 + b3], [ŷ = logistic(z3)], with
    [relu(v) = max(v, 0)] and [logistic(v) = 1/(1+e^(−v))], each of its shape,
    and leaves the global namespace unchanged. *)
Theorem forward_propagation_correct (g : globals) (x : ndarray) :
  Spec.shapes_ok g = true -> is_shape 4 1 x = true ->
  exists z1 a1 z2 a2 z3 yhat,
    forward_propagation x g = Some ((z1, a1, z2, a2, z3, yhat), g) /\
    Spec.cache_shapes 1 (z1, a1, z2, a2, z3, yhat) = true /\
    (forall i, (i < 16)%nat ->
       item z1 i 0 =
         sum_range 4 (fun k => item (w_first_hidden g) i k * item x k 0)
         + item (b_first_hidden g) i 0 /\
       item a1 i 0 = Rmax (item z1 i 0) 0 /\
       item z2 i 0 =
         sum_range 16 (fun k => item (w_second_hidden g) i k * item a1 k 0)
         + item (b_second_hidden g) i 0 /\
       item a2 i 0 = Rmax (item z2 i 0) 0) /\
    item z3 0 0 =
      sum_range 16 (fun k => item (w_output g) 0 k * item a2 k 0)
      + item (b_output g) 0 0 /\
    item yhat 0 0 = 1 / (1 + exp (- item z3 0 0)).
Proof.
  intros Hg Hx.
  exists (Spec.z1 g 1 x), (Spec.a1 g 1 x), (Spec.z2 g 1 x), (Spec.a2 g 1 x),
         (Spec.z3 g 1 x), (Spec.y_hat g 1 x).
  split; [exact (forward_propagation_computed g 1 x Hg Hx)|].
  split; [exact (cache_shapes_forward g 1 x)|].
  assert (H1 : is_shape 16 1 (Spec.z1 g 1 x) = true) by apply is_shape_affine.
  assert (H2 : is_shape 16 1 (Spec.z2 g 1 x) = true) by apply is_shape_affine.
  assert (H3 : is_shape 1 1 (Spec.z3 g 1 x) = true) by apply is_shape_affine.
  split; [|split].
  - intros i Hi. repeat split.
    + unfold Spec.z1, Spec.affine. now rewrite item_fromfunction by lia.
    + unfold Spec.a1. now rewrite (item_elementwise 16 1) by (assumption || lia).
    + unfold Spec.z2, Spec.affine. now rewrite item_fromfunction by lia.
    + unfold Spec.a2. now rewrite (item_elementwise 16 1) by (assumption || lia).
  - unfold Spec.z3, Spec.affine. now rewrite item_fromfunction by lia.
  - unfold Spec.y_hat. now rewrite (item_elementwise 1 1) by (assumption || lia).
Qed.

Lemma forward_propagation_correct_witness :
  exists z1 a1 z2 a2 z3 yhat,
    forward_propagation (ones 4 1) Examples.unit_parameters =
      Some ((z1, a1, z2, a2, z3, yhat), Examples.unit_parameters) /\
    Spec.cache_shapes 1 (z1, a1, z2, a2, z3, yhat) = true /\
    (forall i, (i < 16)%nat ->
       item z1 i 0 =
         sum_range 4 (fun k => item (w_first_hidden Examples.unit_parameters) i k *
                               item (ones 4 1) k 0)
         + item (b_first_hidden Examples.unit_parameters) i 0 /\
       item a1 i 0 = Rmax (item z1 i 0) 0 /\
       item z2 i 0 =
         sum_range 16 (fun k => item (w_second_hidden Examples.unit_parameters) i k *
                                item a1 k 0)
         + item (b_second_hidden Examples.unit_parameters) i 0 /\
       item a2 i 0 = Rmax (item z2 i 0) 0) /\
    item z3 0 0 =
      sum_range 16 (fun k => item (w_output Examples.unit_parameters) 0 k * item a2 k 0)
      + item (b_output Examples.unit_parameters) 0 0 /\
    item yhat 0 0 = 1 / (1 + exp (- item z3 0 0)).
Proof.
  apply (forward_propagation_correct Examples.unit_parameters (ones 4 1)); reflexivity.
Defined.

(** C1, as the specification states it, fails on binary64 numbers.  On the
    cache with [z3 = -1000] and [ŷ = logistic(z3) = 0], and the label 1,
    [e^(−z3)] overflows, the code's [logistic'(z3)], computed as
    [e^(−z3)/(1+e^(−z3))²], is [inf/inf], and every entry of the six tensors
    that [backward_propagation] returns is NaN; while
    [2(ŷ − y)·logistic(z3)·(1 − logistic(z3))], the form that the
    specification gives first, is the number -0 there. *)
Lemma backward_propagation_overflows :
  (710 <=? - (-1000))%float = true /\
  forall np_exp : float -> float, Float64.overflows np_exp ->
    Float64.logistic np_exp (-1000) = 0%float /\
    (2 * (0 - 1) * (Float64.logistic np_exp (-1000)
                    * (1 - Float64.logistic np_exp (-1000))))%float = (- 0)%float /\
    Float64.backward_propagation np_exp
      (Examples.float_ones 1 16) (Examples.float_ones 16 16)
      (Examples.float_ones 16 1) (Examples.float_ones 16 1)
      (Examples.float_ones 16 1) (Examples.float_ones 16 1)
      [[(-1000)%float]] [[0%float]] (Examples.float_ones 4 1) [1%float] =
    Some (Float64.full_nan 1 16, Float64.full_nan 1 1,
          Float64.full_nan 16 16, Float64.full_nan 16 1,
          Float64.full_nan 16 4, Float64.full_nan 16 1) /\
    Float64.item (Float64.full_nan 1 1) 0 0 = nan.
Proof.
  split; [reflexivity|]. intros np_exp Hov.
  assert (He : np_exp (- (-1000))%float = infinity) by (apply Hov; reflexivity).
  assert (Hl : Float64.logistic np_exp (-1000) = 0%float)
    by now apply logistic_of_overflow.
  split; [exact Hl|]. split; [rewrite Hl; reflexivity|]. split; [|reflexivity].
  apply backward_propagation_nan; try reflexivity. exact He.
Qed.

(** C1, amended: for every forward cache [(z1, a1, z2, a2, z3, ŷ)] with
    [z3 ≥ −709], where [e^(−z3)] is a finite binary64 number, every input [x]
    and label [y], [backward_propagation] returns, in the order
    [(W3, b3, W2, b2, W1, b1)], the gradients of the chain rule for the loss
    [(ŷ − y)²]: [dL/dz3 = 2(ŷ − y)·logistic'(z3)], [dL/dW3 = dL/dz3·a2ᵗ],
    [dL/db3 = dL/dz3], [dL/dz2 = (W3ᵗ·dL/dz3) ⊙ [z2 > 0]],
    [dL/dW2 = dL/dz2·a1ᵗ], [dL/db2 = dL/dz2],
    [dL/dz1 = (W2ᵗ·dL/dz2) ⊙ [z1 > 0]], [dL/dW1 = dL/dz1·xᵗ],
    [dL/db1 = dL/dz1]; [logistic'] is the derivative of [logistic], in either
    of its two forms, and the ReLU derivative at exactly 0 is 0.  On a
    binary64 cache with [z3 ≤ −710], where [e^(−z3)] overflows to [+inf], it
    returns six tensors of the same shapes with NaN in every entry. *)
Theorem backward_propagation_chain_rule (g : globals)
    (z1 a1 z2 a2 z3 yhat x : ndarray) (y : R) (np_exp : float -> float)
    (fw3 fw2 fz1 fa1 fz2 fa2 fz3 fyhat fx : Float64.ndarray) (fy : float) :
  is_shape 16 1 z1 = true -> is_shape 16 1 a1 = true ->
  is_shape 16 1 z2 = true -> is_shape 16 1 a2 = true ->
  is_shape 1 1 z3 = true -> is_shape 1 1 yhat = true -> is_shape 4 1 x = true ->
  is_shape 1 16 (w_output g) = true -> is_shape 16 16 (w_second_hidden g) = true ->
  -709 <= item z3 0 0 ->
  Float64.overflows np_exp ->
  Float64.is_shape 1 16 fw3 = true -> Float64.is_shape 16 16 fw2 = true ->
  Float64.is_shape 16 1 fz1 = true -> Float64.is_shape 16 1 fa1 = true ->
  Float64.is_shape 16 1 fz2 = true -> Float64.is_shape 16 1 fa2 = true ->
  Float64.is_shape 1 1 fz3 = true -> Float64.is_shape 1 1 fyhat = true ->
  Float64.is_shape 4 1 fx = true ->
  (710 <=? - Float64.item fz3 0 0)%float = true ->
  let d3 := 2 * (item yhat 0 0 - y) * Spec.logistic' (item z3 0 0) in
  let d2 := fun i => (item (w_output g) 0 i * d3) * Spec.positive (item z2 i 0) in
  let d1 := fun i => sum_range 16 (fun k => item (w_second_hidden g) k i * d2 k)
                     * Spec.positive (item z1 i 0) in
  backward_propagation z1 a1 z2 a2 z3 yhat x [y] g =
    Some ((fromfunction 1 16 (fun _ j => d3 * item a2 j 0),
           fromfunction 1 1 (fun _ _ => d3),
           fromfunction 16 16 (fun i j => d2 i * item a1 j 0),
           fromfunction 16 1 (fun i _ => d2 i),
           fromfunction 16 4 (fun i j => d1 i * item x j 0),
           fromfunction 16 1 (fun i _ => d1 i)), g) /\
  derivable_pt_lim logistic (item z3 0 0) (Spec.logistic' (item z3 0 0)) /\
  Spec.logistic' (item z3 0 0) =
    exp (- item z3 0 0) / (1 + exp (- item z3 0 0)) ^ 2 /\
  Spec.positive 0 = 0 /\ d_relu 0 = false /\
  Float64.backward_propagation np_exp fw3 fw2 fz1 fa1 fz2 fa2 fz3 fyhat fx [fy] =
    Some (Float64.full_nan 1 16, Float64.full_nan 1 1,
          Float64.full_nan 16 16, Float64.full_nan 16 1,
          Float64.full_nan 16 4, Float64.full_nan 16 1) /\
  (forall r c i j, (i < r)%nat -> (j < c)%nat ->
     Float64.item (Float64.full_nan r c) i j = nan).
Proof.
  intros Hz1 Ha1 Hz2 Ha2 Hz3 Hy Hx Hw3 Hw2 Hfinite
         Hov Hfw3 Hfw2 Hfz1 Hfa1 Hfz2 Hfa2 Hfz3 Hfy Hfx Hinf d3 d2 d1.
  split; [|split; [|split; [|split; [|split; [|split]]]]].
  - exact (backward_propagation_computed g z1 a1 z2 a2 z3 yhat x y
             Hz1 Ha1 Hz2 Ha2 Hz3 Hy Hx Hw3 Hw2).
  - rewrite <- d_logistic_logistic'. apply logistic_derivative.
  - symmetry. apply d_logistic_logistic'.
  - unfold Spec.positive. destruct (Rlt_dec 0 0); [lra | reflexivity].
  - unfold d_relu. destruct (Rlt_dec 0 0); [lra | reflexivity].
  - apply backward_propagation_nan; try assumption. apply Hov, Hinf.
  - exact float_item_full_nan.
Qed.

Lemma backward_propagation_chain_rule_witness :
  let g := Examples.unit_parameters in
  let d3 := 2 * (item [[1 / 2]] 0 0 - 1) * Spec.logistic' (item (zeros 1 1) 0 0) in
  let d2 := fun i => (item (w_output g) 0 i * d3) * Spec.positive (item (ones 16 1) i 0) in
  let d1 := fun i => sum_range 16 (fun k => item (w_second_hidden g) k i * d2 k)
                     * Spec.positive (item (ones 16 1) i 0) in
  backward_propagation (ones 16 1) (ones 16 1) (ones 16 1) (ones 16 1) (zeros 1 1)
      [[1 / 2]] (ones 4 1) [1] g =
    Some ((fromfunction 1 16 (fun _ j => d3 * item (ones 16 1) j 0),
           fromfunction 1 1 (fun _ _ => d3),
           fromfunction 16 16 (fun i j => d2 i * item (ones 16 1) j 0),
           fromfunction 16 1 (fun i _ => d2 i),
           fromfunction 16 4 (fun i j => d1 i * item (ones 4 1) j 0),
           fromfunction 16 1 (fun i _ => d1 i)), g) /\
  derivable_pt_lim logistic (item (zeros 1 1) 0 0) (Spec.logistic' (item (zeros 1 1) 0 0)) /\
  Spec.logistic' (item (zeros 1 1) 0 0) =
    exp (- item (zeros 1 1) 0 0) / (1 + exp (- item (zeros 1 1) 0 0)) ^ 2 /\
  Spec.positive 0 = 0 /\ d_relu 0 = false /\
  Float64.backward_propagation Examples.saturating
      (Examples.float_ones 1 16) (Examples.float_ones 16 16)
      (Examples.float_ones 16 1) (Examples.float_ones 16 1)
      (Examples.float_ones 16 1) (Examples.float_ones 16 1)
      [[(-1000)%float]] [[0%float]] (Examples.float_ones 4 1) [1%float] =
    Some (Float64.full_nan 1 16, Float64.full_nan 1 1,
          Float64.full_nan 16 16, Float64.full_nan 16 1,
          Float64.full_nan 16 4, Float64.full_nan 16 1) /\
  (forall r c i j, (i < r)%nat -> (j < c)%nat ->
     Float64.item (Float64.full_nan r c) i j = nan).
Proof.
  apply (backward_propagation_chain_rule Examples.unit_parameters
           (ones 16 1) (ones 16 1) (ones 16 1) (ones 16 1) (zeros 1 1)
           [[1 / 2]] (ones 4 1) 1 Examples.saturating
           (Examples.float_ones 1 16) (Examples.float_ones 16 16)
           (Examples.float_ones 16 1) (Examples.float_ones 16 1)
           (Examples.float_ones 16 1) (Examples.float_ones 16 1)
           [[(-1000)%float]] [[0%float]] (Examples.float_ones 4 1) 1%float);
    try reflexivity.
  - unfold item, zeros, fromfunction. simpl. lra.
  - intros t Ht. unfold Examples.saturating. now rewrite Ht.
Defined.
Lemma nth_schedule (e n k i : nat) :
  (k < e)%nat -> (i < n)%nat -> nth (k * n + i) (schedule e n) 0%nat = i.
Proof.
  induction e as [|e IH]; intros Hk Hi; [lia|].
  rewrite schedule_S.
  destruct (Nat.eq_dec k e) as [->|Hne].
  - rewrite app_nth2 by (rewrite length_schedule; lia).
    rewrite length_schedule. replace (e * n + i - e * n)%nat with i by lia.
    now rewrite seq_nth.
  - rewrite app_nth1 by (rewrite length_schedule; nia). apply IH; lia.
Qed.

(** C3: the training loop visits epochs × samples in a fixed order (100
    epochs, the samples in the same order 0 .. n-1 in every epoch), and for
    each (epoch, i) it runs forward on [x_i], backward on the resulting cache
    with [(x_i, y_i)], and replaces each of the six parameter tensors [P] with
    gradient [G] by [P − η·G] with [η = 0.01]; nothing else is done to the
    parameters, and the loop always runs its 100·n steps to the end. *)
Theorem training_loop_sgd (g : globals) (n : nat) (tp tr : ndarray) :
  Spec.shapes_ok g = true -> is_shape n 4 tp = true -> is_shape n 1 tr = true ->
  epochs = 100%nat /\ learning_rate = 1 / 100 /\
  training_loop tp tr g = run (training_step tp tr) (schedule 100 n) g /\
  length (schedule 100 n) = (100 * n)%nat /\
  (forall k i, (k < 100)%nat -> (i < n)%nat ->
     nth (k * n + i) (schedule 100 n) 0%nat = i) /\
  (forall s i, Spec.shapes_ok s = true -> (i < n)%nat ->
     exists row y z1 a1 z2 a2 z3 yhat dw3 db3 dw2 db2 dw1 db1,
       getitem tp i = Some row /\ getitem tr i = Some [y] /\
       forward_propagation (reshape_column row) s =
         Some ((z1, a1, z2, a2, z3, yhat), s) /\
       backward_propagation z1 a1 z2 a2 z3 yhat (reshape_column row) [y] s =
         Some ((dw3, db3, dw2, db2, dw1, db1), s) /\
       training_step tp tr i s =
         Some (tt,
           Globals
             (fromfunction 16 4
                (fun a b => item (w_first_hidden s) a b - 1 / 100 * item dw1 a b))
             (fromfunction 16 1
                (fun a b => item (b_first_hidden s) a b - 1 / 100 * item db1 a b))
             (fromfunction 16 16
                (fun a b => item (w_second_hidden s) a b - 1 / 100 * item dw2 a b))
             (fromfunction 16 1
                (fun a b => item (b_second_hidden s) a b - 1 / 100 * item db2 a b))
             (fromfunction 1 16
                (fun a b => item (w_output s) a b - 1 / 100 * item dw3 a b))
             (fromfunction 1 1
                (fun a b => item (b_output s) a b - 1 / 100 * item db3 a b)))) /\
  exists g', training_loop tp tr g = Some (tt, g').
Proof.
  intros Hg Htp Htr.
  pose proof (is_shape_nrows _ _ _ Htp) as Hn. unfold nrows in Hn.
  split; [reflexivity|]. split; [reflexivity|].
  split; [unfold training_loop; rewrite training_epochs_run, Hn; reflexivity|].
  split; [apply length_schedule|].
  split; [intros k i; apply nth_schedule|].
  split.
  - intros s i Hs Hi.
    destruct (getitem_row _ _ _ _ Htp Hi) as (row & Hrow & Hlen).
    destruct (getitem_row _ _ _ _ Htr Hi) as (t & Ht & Hlt).
    destruct (length_one _ _ Hlt) as [y ->].
    assert (Hx : is_shape 4 1 (reshape_column row) = true)
      by (rewrite <- Hlen; apply is_shape_reshape_column).
    pose proof (training_step_computed s tp tr i row y Hs Hrow Hlen Ht) as Hstep.
    pose proof (forward_propagation_computed s 1 _ Hs Hx) as Hf.
    pose proof (cache_shapes_forward s 1 (reshape_column row)) as Hc.
    cbv zeta in Hstep. unfold Spec.forward in *. unfold Spec.cache_shapes in Hc.
    rewrite !andb_true_iff in Hc. destruct Hc as [[[[[Hz1 Ha1] Hz2] Ha2] Hz3] Hyh].
    pose proof (shapes_ok_fields s Hs) as (_ & _ & Hw2 & _ & Hw3 & _).
    pose proof (backward_propagation_computed s _ _ _ _ _ _ _ y
                  Hz1 Ha1 Hz2 Ha2 Hz3 Hyh Hx Hw3 Hw2) as Hb.
    unfold Spec.backward in Hb, Hstep.
    do 14 eexists. split; [exact Hrow|]. split; [exact Ht|].
    split; [exact Hf|]. split; [exact Hb|]. exact Hstep.
  - destruct (training_epochs_total epochs n tp tr g Hg Htp Htr) as (g' & Hrun & _).
    now exists g'.
Qed.

Lemma training_loop_sgd_witness :
  exists g', training_loop Examples.one_sample Examples.one_label
               Examples.unit_parameters = Some (tt, g').
Proof.
  apply (training_loop_sgd Examples.unit_parameters 1 Examples.one_sample
           Examples.one_label); reflexivity.
Defined.

(** C6: the shapes are invariant for the lifetime of the model: after
    initialisation the six parameter tensors have the shapes (16,4), (16,1),
    (16,16), (16,1), (1,16), (1,1); every SGD update step, and so every run of
    the training loop, preserves them; and for every 4-dimensional input
    [forward_propagation] returns tensors of the shapes (16,1), (16,1),
    (16,1), (16,1), (1,1), (1,1). *)
Theorem shapes_invariant (draws : nat -> R) (g : globals) (e n : nat)
    (tp tr : ndarray) (i : nat) (x : ndarray) :
  Spec.shapes_ok g = true -> is_shape n 4 tp = true -> is_shape n 1 tr = true ->
  (i < n)%nat -> is_shape 4 1 x = true ->
  (let g0 := initialise draws in
   is_shape 16 4 (w_first_hidden g0) = true /\ is_shape 16 1 (b_first_hidden g0) = true /\
   is_shape 16 16 (w_second_hidden g0) = true /\ is_shape 16 1 (b_second_hidden g0) = true /\
   is_shape 1 16 (w_output g0) = true /\ is_shape 1 1 (b_output g0) = true) /\
  (exists g', training_step tp tr i g = Some (tt, g') /\
     is_shape 16 4 (w_first_hidden g') = true /\ is_shape 16 1 (b_first_hidden g') = true /\
     is_shape 16 16 (w_second_hidden g') = true /\ is_shape 16 1 (b_second_hidden g') = true /\
     is_shape 1 16 (w_output g') = true /\ is_shape 1 1 (b_output g') = true) /\
  (exists g', training_epochs e tp tr g = Some (tt, g') /\ Spec.shapes_ok g' = true) /\
  (exists z1 a1 z2 a2 z3 yhat,
     forward_propagation x g = Some ((z1, a1, z2, a2, z3, yhat), g) /\
     is_shape 16 1 z1 = true /\ is_shape 16 1 a1 = true /\
     is_shape 16 1 z2 = true /\ is_shape 16 1 a2 = true /\
     is_shape 1 1 z3 = true /\ is_shape 1 1 yhat = true).
Proof.
  intros Hg Htp Htr Hi Hx. split; [|split; [|split]].
  - apply shapes_ok_fields, shapes_ok_initialise.
  - destruct (training_step_total g n tp tr i Hg Htp Htr Hi) as (g' & Hs & Hg').
    exists g'. split; [exact Hs | now apply shapes_ok_fields].
  - apply (training_epochs_total e n); assumption.
  - pose proof (cache_shapes_forward g 1 x) as Hc.
    unfold Spec.cache_shapes, Spec.forward in Hc. rewrite !andb_true_iff in Hc.
    destruct Hc as [[[[[Hz1 Ha1] Hz2] Ha2] Hz3] Hyh].
    do 6 eexists. split; [exact (forward_propagation_computed g 1 x Hg Hx)|].
    repeat split; assumption.
Qed.

Lemma shapes_invariant_witness :
  exists g', training_epochs 3 Examples.one_sample Examples.one_label
               (initialise (fun _ => 1)) = Some (tt, g') /\
             Spec.shapes_ok g' = true.
Proof.
  apply (shapes_invariant (fun _ => 1) (initialise (fun _ => 1)) 3 1
           Examples.one_sample Examples.one_label 0 (ones 4 1));
    solve [reflexivity | lia].
Defined.
End Claims.

Section MoreClaims.
Local Open Scope R_scope.
Import np.

(** C9: forward propagation commutes with horizontal stacking of inputs: on
    the 4×m matrix whose columns are [x_1 .. x_m], each of the six returned
    tensors has as its columns the tensors returned for each [x_j] alone (the
    bias vectors broadcast across the columns); so the batched evaluation of
    the testing cell, on the transposed table of test samples, gives for each
    sample the rounded output of forward propagation on that sample alone. *)
Theorem forward_propagation_batch (g : globals) (m : nat) (x : ndarray)
    (n : nat) (testing_predictors : ndarray) :
  Spec.shapes_ok g = true -> is_shape 4 m x = true ->
  is_shape n 4 testing_predictors = true -> (0 < n)%nat ->
  (exists z1 a1 z2 a2 z3 yhat,
     forward_propagation x g = Some ((z1, a1, z2, a2, z3, yhat), g) /\
     forall j, (j < m)%nat ->
       forward_propagation (Spec.column_of j x) g =
         Some ((Spec.column_of j z1, Spec.column_of j a1, Spec.column_of j z2,
                Spec.column_of j a2, Spec.column_of j z3, Spec.column_of j yhat), g)) /\
  (exists predicted,
     predictions testing_predictors g = Some (predicted, g) /\
     length (flatten predicted) = n /\
     forall j, (j < n)%nat ->
       exists row z1 a1 z2 a2 z3 yhat,
         getitem testing_predictors j = Some row /\
         forward_propagation (reshape_column row) g =
           Some ((z1, a1, z2, a2, z3, yhat), g) /\
         nth j (flatten predicted) 0%Z = astype_int (round (item yhat 0 0))).
Proof.
  intros Hg Hx Htp Hn. split.
  - exists (Spec.z1 g m x), (Spec.a1 g m x), (Spec.z2 g m x), (Spec.a2 g m x),
           (Spec.z3 g m x), (Spec.y_hat g m x).
    split; [exact (forward_propagation_computed g m x Hg Hx)|].
    intros j Hj.
    assert (Hxj : is_shape 4 1 (Spec.column_of j x) = true)
      by (apply (is_shape_column_of 4 m), Hx).
    rewrite (forward_propagation_computed g 1 _ Hg Hxj).
    now rewrite (forward_column_of g m j x Hx Hj).
  - pose proof (is_shape_T _ _ _ Htp Hn) as Ht.
    assert (Hs : is_shape 1 n (Spec.y_hat g n (T testing_predictors)) = true)
      by apply is_shape_elementwise, is_shape_affine.
    eexists. split; [exact (predictions_computed g n _ Hg Htp Hn)|]. split.
    + destruct (row_vector n _ Hs) as (row & -> & Hlen).
      unfold flatten, elementwise. simpl. now rewrite app_nil_r, length_map.
    + intros j Hj.
      destruct (getitem_row _ _ _ _ Htp Hj) as (row & Hrow & Hlen).
      assert (Hnth : nth j testing_predictors [] = row).
      { unfold getitem in Hrow. now apply nth_error_nth. }
      assert (Hxj : is_shape 4 1 (reshape_column row) = true)
        by (rewrite <- Hlen; apply is_shape_reshape_column).
      exists row, (Spec.z1 g 1 (reshape_column row)), (Spec.a1 g 1 (reshape_column row)),
        (Spec.z2 g 1 (reshape_column row)), (Spec.a2 g 1 (reshape_column row)),
        (Spec.z3 g 1 (reshape_column row)), (Spec.y_hat g 1 (reshape_column row)).
      split; [exact Hrow|].
      split; [exact (forward_propagation_computed g 1 _ Hg Hxj)|].
      rewrite (nth_flatten_predictions n j _ Hs Hj).
      pose proof (forward_column_of g n j _ Ht Hj) as Hcol.
      rewrite (column_of_T _ _ _ _ Htp Hj), Hnth in Hcol.
      unfold Spec.forward in Hcol.
      assert (Hy : Spec.y_hat g 1 (reshape_column row) =
                   Spec.column_of j (Spec.y_hat g n (T testing_predictors)))
        by congruence.
      rewrite Hy. now rewrite (item_column_of 1 n) by (assumption || lia).
Qed.

Lemma forward_propagation_batch_witness :
  (exists z1 a1 z2 a2 z3 yhat,
     forward_propagation Examples.two_columns Examples.unit_parameters =
       Some ((z1, a1, z2, a2, z3, yhat), Examples.unit_parameters) /\
     forall j, (j < 2)%nat ->
       forward_propagation (Spec.column_of j Examples.two_columns)
           Examples.unit_parameters =
         Some ((Spec.column_of j z1, Spec.column_of j a1, Spec.column_of j z2,
                Spec.column_of j a2, Spec.column_of j z3, Spec.column_of j yhat),
               Examples.unit_parameters)) /\
  (exists predicted,
     predictions Examples.two_samples Examples.unit_parameters =
       Some (predicted, Examples.unit_parameters) /\
     length (flatten predicted) = 2%nat /\
     forall j, (j < 2)%nat ->
       exists row z1 a1 z2 a2 z3 yhat,
         getitem Examples.two_samples j = Some row /\
         forward_propagation (reshape_column row) Examples.unit_parameters =
           Some ((z1, a1, z2, a2, z3, yhat), Examples.unit_parameters) /\
         nth j (flatten predicted) 0%Z = astype_int (round (item yhat 0 0))).
Proof.
  apply (forward_propagation_batch Examples.unit_parameters 2 Examples.two_columns
           2 Examples.two_samples); solve [reflexivity | lia].
Defined.

Lemma sum_range_zero (n : nat) (f : nat -> R) :
  (forall k, (k < n)%nat -> f k = 0) -> sum_range n f = 0.
Proof.
  induction n as [|n IH]; intros H; simpl; [reflexivity|].
  rewrite IH by (intros; apply H; lia). rewrite H by lia. ring.
Qed.

Lemma item_zeros (r c i j : nat) :
  (i < r)%nat -> (j < c)%nat -> item (zeros r c) i j = 0.
Proof. intros Hi Hj. unfold zeros. now rewrite item_fromfunction. Qed.

(** With all parameters 0 the output is exactly one half. *)
Lemma y_hat_zero_parameters (x : ndarray) :
  Spec.y_hat Examples.zero_parameters 1 x = [[1 / 2]].
Proof.
  unfold Spec.y_hat, Spec.z3, Spec.affine. cbv [elementwise fromfunction map seq].
  rewrite sum_range_zero.
  - simpl w_output. simpl b_output. rewrite item_zeros by lia.
    rewrite Rplus_0_l, Ropp_0, exp_0.
    replace (1 / (1 + 1)) with (1 / 2) by lra. reflexivity.
  - intros k Hk. simpl w_output. rewrite item_zeros by lia. ring.
Qed.

(** C4, as the specification states it, fails: NumPy's [round] sends a tie to
    the even neighbour, so the prediction 0.5 (the output whenever [z3 = 0],
    as with all parameters 0) is classified as 0, not as 1. *)
Lemma prediction_one_half_is_zero :
  logistic 0 = 1 / 2 /\
  astype_int (round (1 / 2)) = 0%Z /\
  predictions Examples.one_sample Examples.zero_parameters =
    Some ([[0%Z]], Examples.zero_parameters).
Proof.
  assert (Hr : astype_int (round (1 / 2)) = 0%Z).
  { rewrite round_unit_interval by lra. destruct (Rlt_dec (1 / 2) (1 / 2)); [lra|].
    reflexivity. }
  split; [exact logistic_zero|]. split; [exact Hr|].
  rewrite (predictions_computed _ 1) by (reflexivity || lia).
  rewrite y_hat_zero_parameters. unfold elementwise. simpl map. now rewrite Hr.
Qed.

(** C4, amended: each test prediction [ŷ] is rounded to the nearest integer
    with ties going to the even integer, so a prediction is classified as 1
    exactly when [ŷ > 0.5], and a prediction of exactly 0.5 is classified
    as 0. *)
Theorem predictions_round_half_even (g : globals) (n : nat)
    (testing_predictors : ndarray) (j : nat) :
  Spec.shapes_ok g = true -> is_shape n 4 testing_predictors = true -> (j < n)%nat ->
  exists z1 a1 z2 a2 z3 yhat predicted,
    forward_propagation (T testing_predictors) g =
      Some ((z1, a1, z2, a2, z3, yhat), g) /\
    predictions testing_predictors g = Some (predicted, g) /\
    (exists k : Z,
       round (item yhat 0 j) = IZR k /\ nth j (flatten predicted) 0%Z = k /\
       Rabs (item yhat 0 j - IZR k) <= 1 / 2 /\
       (Rabs (item yhat 0 j - IZR k) = 1 / 2 -> Z.even k = true)) /\
    nth j (flatten predicted) 0%Z =
      (if Rlt_dec (1 / 2) (item yhat 0 j) then 1%Z else 0%Z) /\
    (item yhat 0 j = 1 / 2 -> nth j (flatten predicted) 0%Z = 0%Z).
Proof.
  intros Hg Htp Hj.
  assert (Hn : (0 < n)%nat) by lia.
  pose proof (is_shape_T _ _ _ Htp Hn) as Hx.
  set (x := T testing_predictors) in *.
  exists (Spec.z1 g n x), (Spec.a1 g n x), (Spec.z2 g n x), (Spec.a2 g n x),
         (Spec.z3 g n x), (Spec.y_hat g n x).
  eexists. split; [exact (forward_propagation_computed g n x Hg Hx)|].
  split; [exact (predictions_computed g n _ Hg Htp Hn)|]. fold x.
  assert (Hz : is_shape 1 n (Spec.z3 g n x) = true) by apply is_shape_affine.
  assert (Hy : item (Spec.y_hat g n x) 0 j = logistic (item (Spec.z3 g n x) 0 j)).
  { unfold Spec.y_hat. now rewrite (item_elementwise 1 n) by (assumption || lia). }
  assert (Hs : is_shape 1 n (Spec.y_hat g n x) = true)
    by apply is_shape_elementwise, Hz.
  rewrite (nth_flatten_predictions n j _ Hs Hj).
  assert (Hhalf : astype_int (round (item (Spec.y_hat g n x) 0 j)) =
                  if Rlt_dec (1 / 2) (item (Spec.y_hat g n x) 0 j) then 1%Z else 0%Z).
  { apply round_unit_interval. rewrite Hy. apply logistic_bounds. }
  split; [|split].
  - destruct (round_nearest_even (item (Spec.y_hat g n x) 0 j)) as (k & Hk & Hd & He).
    exists k. rewrite Hk, astype_int_IZR. auto.
  - exact Hhalf.
  - intros Heq. rewrite Hhalf, Heq. destruct (Rlt_dec (1 / 2) (1 / 2)); [lra|].
    reflexivity.
Qed.

Lemma predictions_round_half_even_witness :
  exists z1 a1 z2 a2 z3 yhat predicted,
    forward_propagation (T Examples.one_sample) Examples.zero_parameters =
      Some ((z1, a1, z2, a2, z3, yhat), Examples.zero_parameters) /\
    predictions Examples.one_sample Examples.zero_parameters =
      Some (predicted, Examples.zero_parameters) /\
    (exists k : Z,
       round (item yhat 0 0) = IZR k /\ nth 0 (flatten predicted) 0%Z = k /\
       Rabs (item yhat 0 0 - IZR k) <= 1 / 2 /\
       (Rabs (item yhat 0 0 - IZR k) = 1 / 2 -> Z.even k = true)) /\
    nth 0 (flatten predicted) 0%Z =
      (if Rlt_dec (1 / 2) (item yhat 0 0) then 1%Z else 0%Z) /\
    (item yhat 0 0 = 1 / 2 -> nth 0 (flatten predicted) 0%Z = 0%Z).
Proof.
  apply (predictions_round_half_even Examples.zero_parameters 1 Examples.one_sample 0);
    solve [reflexivity | lia].
Defined.
End MoreClaims.

Section PurityClaims.
Local Open Scope R_scope.
Import np.

(** C5, as the specification states it, fails: with the same eight arguments,
    [backward_propagation] returns different gradients in two states of the
    global namespace that differ in [w_output]. *)
Lemma backward_propagation_depends_on_globals :
  exists grads0 grads1,
    backward_propagation (ones 16 1) (ones 16 1) (ones 16 1) (ones 16 1) (zeros 1 1)
      [[1 / 2]] (ones 4 1) [1] Examples.zero_parameters =
      Some (grads0, Examples.zero_parameters) /\
    backward_propagation (ones 16 1) (ones 16 1) (ones 16 1) (ones 16 1) (zeros 1 1)
      [[1 / 2]] (ones 4 1) [1] Examples.unit_parameters =
      Some (grads1, Examples.unit_parameters) /\
    grads0 <> grads1.
Proof.
  do 2 eexists. split; [|split].
  - apply backward_propagation_computed; reflexivity.
  - apply backward_propagation_computed; reflexivity.
  - intros Heq. apply (f_equal (fun t : gradients => item (snd (fst (fst t))) 0 0)) in Heq.
    unfold Spec.backward in Heq. cbn [fst snd] in Heq.
    rewrite !item_column in Heq by lia.
    unfold Spec.dL_dz2, Spec.dL_dz3, Spec.logistic', Spec.positive in Heq.
    cbn [w_output Examples.zero_parameters Examples.unit_parameters] in Heq.
    rewrite (item_zeros 1 16), (item_zeros 1 1) in Heq by lia.
    unfold ones in Heq. rewrite !item_fromfunction in Heq by lia.
    rewrite logistic_zero in Heq.
    change (item [[1 / 2]] 0 0) with (1 / 2) in Heq.
    destruct (Rlt_dec 0 1); lra.
Qed.

(** C5, amended: [backward_propagation] is a function of its eight arguments
    and of the current values of the two globals [w_output] (W3) and
    [w_second_hidden] (W2): two invocations with equal arguments, in states
    that agree on these two tensors, raise together or return equal gradients,
    whatever the other four parameter tensors are; and an invocation leaves
    the global namespace unchanged. *)
Theorem backward_propagation_frame (g1 g2 : globals)
    (z1 a1 z2 a2 z3 yhat x : ndarray) (y : list R) :
  w_output g1 = w_output g2 -> w_second_hidden g1 = w_second_hidden g2 ->
  option_map fst (backward_propagation z1 a1 z2 a2 z3 yhat x y g1) =
  option_map fst (backward_propagation z1 a1 z2 a2 z3 yhat x y g2) /\
  (forall grads g', backward_propagation z1 a1 z2 a2 z3 yhat x y g1 = Some (grads, g') ->
                    g' = g1).
Proof.
  intros H3 H2. split.
  - now apply backward_propagation_reads.
  - intros grads g'. apply backward_propagation_pure.
Qed.

Lemma backward_propagation_frame_witness :
  option_map fst
    (backward_propagation (ones 16 1) (ones 16 1) (ones 16 1) (ones 16 1) (zeros 1 1)
       [[1 / 2]] (ones 4 1) [1] Examples.unit_parameters) =
  option_map fst
    (backward_propagation (ones 16 1) (ones 16 1) (ones 16 1) (ones 16 1) (zeros 1 1)
       [[1 / 2]] (ones 4 1) [1] Examples.mixed_parameters) /\
  (forall grads g',
     backward_propagation (ones 16 1) (ones 16 1) (ones 16 1) (ones 16 1) (zeros 1 1)
       [[1 / 2]] (ones 4 1) [1] Examples.unit_parameters = Some (grads, g') ->
     g' = Examples.unit_parameters).
Proof.
  apply (backward_propagation_frame Examples.unit_parameters Examples.mixed_parameters);
    reflexivity.
Defined.
End PurityClaims.

Section OverflowClaims.
Local Open Scope float_scope.

(** C7, as the specification states it, fails: the logistic is computed in the
    naive form.  At the pre-activation -1000 the exponential is taken of the
    positive argument 1000, where it overflows to [+inf]; [d_logistic] then
    evaluates [inf / inf] and returns NaN. *)
Lemma d_logistic_overflows :
  (0 <? - (-1000)) = true /\
  forall np_exp : float -> float, Float64.overflows np_exp ->
    np_exp (- (-1000)) = infinity /\
    Float64.logistic np_exp (-1000) = 1 / (1 + infinity) /\
    Float64.d_logistic np_exp (-1000) = nan.
Proof.
  split; [reflexivity|]. intros np_exp Hov.
  assert (He : np_exp (- (-1000)) = infinity) by (apply Hov; reflexivity).
  split; [exact He|]. split.
  - unfold Float64.logistic. now rewrite He.
  - now apply d_logistic_of_overflow.
Qed.

(** C7, amended: the logistic is computed in the naive form
    [1/(1+e^(−z3))], the exponential being taken of [−z3] whatever the sign of
    [z3]; when [e^(−z3)] overflows to [+inf] (from [−z3 = 710] on), [logistic]
    returns 0 without failing, and [d_logistic], computed as
    [e^(−z3)/(1+e^(−z3))²], returns NaN. *)
Theorem naive_logistic_overflow (np_exp : float -> float) (x : float) :
  Float64.overflows np_exp -> (710 <=? - x) = true ->
  np_exp (- x) = infinity /\
  Float64.logistic np_exp x = 0 /\
  Float64.d_logistic np_exp x = nan.
Proof.
  intros Hov Hx. pose proof (Hov (- x) Hx) as He.
  split; [exact He|]. split.
  - now apply logistic_of_overflow.
  - now apply d_logistic_of_overflow.
Qed.

Lemma saturating_overflows : Float64.overflows Examples.saturating.
Proof.
  intros t Ht. unfold Examples.saturating. now rewrite Ht.
Defined.

Lemma naive_logistic_overflow_witness :
  Examples.saturating (- (-1000)) = infinity /\
  Float64.logistic Examples.saturating (-1000) = 0 /\
  Float64.d_logistic Examples.saturating (-1000) = nan.
Proof.
  apply (naive_logistic_overflow Examples.saturating (-1000));
    [exact saturating_overflows | reflexivity].
Defined.
End OverflowClaims.

(** * Further properties of the code *)

(** ** Derivatives *)

Section CalculusFacts.
Local Open Scope R_scope.
Import np.

Lemma derivable_ext (f h : R -> R) (t0 c : R) :
  (forall t, f t = h t) -> derivable_pt_lim f t0 c -> derivable_pt_lim h t0 c.
Proof.
  intros Hfh Hf eps Heps. destruct (Hf eps Heps) as [delta Hdelta].
  exists delta. intros u Hu Hlt. rewrite <- !Hfh. now apply Hdelta.
Qed.

Lemma derivable_value (f : R -> R) (t0 c c' : R) :
  c = c' -> derivable_pt_lim f t0 c -> derivable_pt_lim f t0 c'.
Proof. now intros ->. Qed.

Lemma derivable_add (f h : R -> R) (t0 c c' : R) :
  derivable_pt_lim f t0 c -> derivable_pt_lim h t0 c' ->
  derivable_pt_lim (fun t => f t + h t) t0 (c + c').
Proof. intros Hf Hh. exact (derivable_pt_lim_plus f h t0 c c' Hf Hh). Qed.

Lemma derivable_mul (f h : R -> R) (t0 c c' : R) :
  derivable_pt_lim f t0 c -> derivable_pt_lim h t0 c' ->
  derivable_pt_lim (fun t => f t * h t) t0 (c * h t0 + f t0 * c').
Proof. intros Hf Hh. exact (derivable_pt_lim_mult f h t0 c c' Hf Hh). Qed.

Lemma derivable_mul_const (f : R -> R) (a t0 c : R) :
  derivable_pt_lim f t0 c -> derivable_pt_lim (fun t => f t * a) t0 (c * a).
Proof.
  intros Hf. apply derivable_value with (c := c * a + f t0 * 0); [ring|].
  apply (derivable_mul f (fun _ => a)); [assumption | apply derivable_pt_lim_const].
Qed.

Lemma derivable_sum (n : nat) (f : nat -> R -> R) (c : nat -> R) (t0 : R) :
  (forall k, (k < n)%nat -> derivable_pt_lim (f k) t0 (c k)) ->
  derivable_pt_lim (fun t => sum_range n (fun k => f k t)) t0 (sum_range n c).
Proof.
  induction n as [|n IH]; intros H; simpl.
  - apply derivable_pt_lim_const.
  - apply (derivable_add (fun t => sum_range n (fun k => f k t)) (f n)).
    + apply IH. intros k Hk. apply H. lia.
    + apply H. lia.
Qed.

(** Away from 0, [relu] is differentiable with the strict-positivity
    indicator as derivative. *)
Lemma relu_derivative (z : R) :
  z <> 0 -> derivable_pt_lim relu z (Spec.positive z).
Proof.
  intros Hz eps Heps. unfold Spec.positive, relu.
  destruct (Rlt_dec 0 z) as [Hpos|Hneg].
  - exists (mkposreal z Hpos). simpl. intros u Hu Hlt.
    apply Rabs_def2 in Hlt.
    rewrite (Rmax_left (z + u) 0), (Rmax_left z 0) by lra.
    replace ((z + u - z) / u - 1) with 0 by (field; assumption).
    now rewrite Rabs_R0.
  - assert (Hlt0 : 0 < - z) by lra.
    exists (mkposreal (- z) Hlt0). simpl. intros u Hu Hlt.
    apply Rabs_def2 in Hlt.
    rewrite (Rmax_right (z + u) 0), (Rmax_right z 0) by lra.
    replace ((0 - 0) / u - 0) with 0 by (field; assumption).
    now rewrite Rabs_R0.
Qed.

Lemma derivable_relu (f : R -> R) (t0 c : R) :
  derivable_pt_lim f t0 c -> f t0 <> 0 ->
  derivable_pt_lim (fun t => Rmax (f t) 0) t0 (Spec.positive (f t0) * c).
Proof.
  intros Hf Hz.
  exact (derivable_pt_lim_comp f relu t0 c (Spec.positive (f t0)) Hf
           (relu_derivative (f t0) Hz)).
Qed.

(** The loss as a function of the output pre-activation. *)
Lemma loss_derivative (y z : R) :
  derivable_pt_lim (fun u => loss (logistic u) y) z
    (2 * (logistic z - y) * Spec.logistic' z).
Proof.
  unfold loss.
  assert (Hd : derivable_pt_lim (fun u => logistic u - y) z (Spec.logistic' z)).
  { apply derivable_value with (c := d_logistic z + 0);
      [rewrite d_logistic_logistic'; ring|].
    apply (derivable_add logistic (fun _ => - y)).
    - apply logistic_derivative.
    - apply derivable_pt_lim_const. }
  apply derivable_ext with (f := fun u => (logistic u - y) * (logistic u - y));
    [intros; ring|].
  apply derivable_value
    with (c := Spec.logistic' z * (logistic z - y) + (logistic z - y) * Spec.logistic' z);
    [ring|].
  now apply (derivable_mul (fun u => logistic u - y) (fun u => logistic u - y)).
Qed.

Lemma derivable_loss (f : R -> R) (y t0 c : R) :
  derivable_pt_lim f t0 c ->
  derivable_pt_lim (fun t => loss (logistic (f t)) y) t0
    (2 * (logistic (f t0) - y) * Spec.logistic' (f t0) * c).
Proof.
  intros Hf.
  exact (derivable_pt_lim_comp f (fun u => loss (logistic u) y) t0 c _ Hf
           (loss_derivative y (f t0))).
Qed.
End CalculusFacts.

(** ** The network's loss along a path of parameters *)

Section ForwardModeFacts.
Local Open Scope R_scope.
Import np.

Lemma item_z1 (g : globals) (x : ndarray) (i : nat) :
  (i < 16)%nat ->
  item (Spec.z1 g 1 x) i 0 =
  sum_range 4 (fun k => item (w_first_hidden g) i k * item x k 0)
  + item (b_first_hidden g) i 0.
Proof. intros Hi. unfold Spec.z1, Spec.affine. now rewrite item_fromfunction by lia. Qed.

Lemma item_a1 (g : globals) (x : ndarray) (i : nat) :
  (i < 16)%nat -> item (Spec.a1 g 1 x) i 0 = Rmax (item (Spec.z1 g 1 x) i 0) 0.
Proof.
  intros Hi. unfold Spec.a1.
  now rewrite (item_elementwise 16 1) by (try lia; apply is_shape_affine).
Qed.

Lemma item_z2 (g : globals) (x : ndarray) (i : nat) :
  (i < 16)%nat ->
  item (Spec.z2 g 1 x) i 0 =
  sum_range 16 (fun k => item (w_second_hidden g) i k * item (Spec.a1 g 1 x) k 0)
  + item (b_second_hidden g) i 0.
Proof. intros Hi. unfold Spec.z2, Spec.affine. now rewrite item_fromfunction by lia. Qed.

Lemma item_a2 (g : globals) (x : ndarray) (i : nat) :
  (i < 16)%nat -> item (Spec.a2 g 1 x) i 0 = Rmax (item (Spec.z2 g 1 x) i 0) 0.
Proof.
  intros Hi. unfold Spec.a2.
  now rewrite (item_elementwise 16 1) by (try lia; apply is_shape_affine).
Qed.

Lemma item_z3 (g : globals) (x : ndarray) :
  item (Spec.z3 g 1 x) 0 0 =
  sum_range 16 (fun k => item (w_output g) 0 k * item (Spec.a2 g 1 x) k 0)
  + item (b_output g) 0 0.
Proof. unfold Spec.z3, Spec.affine. now rewrite item_fromfunction by lia. Qed.

Lemma item_y_hat (g : globals) (x : ndarray) :
  item (Spec.y_hat g 1 x) 0 0 = logistic (item (Spec.z3 g 1 x) 0 0).
Proof.
  unfold Spec.y_hat.
  now rewrite (item_elementwise 1 1) by (try lia; apply is_shape_affine).
Qed.

Lemma network_loss_computed (g : globals) (x : ndarray) (y : R) :
  Spec.shapes_ok g = true -> is_shape 4 1 x = true ->
  Gradient.network_loss g x y = loss (logistic (item (Spec.z3 g 1 x) 0 0)) y.
Proof.
  intros Hg Hx. unfold Gradient.network_loss.
  rewrite (forward_propagation_computed g 1 x Hg Hx). unfold Spec.forward.
  now rewrite item_y_hat.
Qed.

(** Forward-mode differentiation of the loss along a differentiable path of
    parameter states, where no hidden pre-activation is 0. *)
Lemma network_loss_along_path (G : R -> globals) (d : globals) (t0 : R)
    (x : ndarray) (y : R) :
  (forall t, Spec.shapes_ok (G t) = true) -> is_shape 4 1 x = true ->
  Gradient.entries_derivable 16 4 (fun t => w_first_hidden (G t)) t0 (w_first_hidden d) ->
  Gradient.entries_derivable 16 1 (fun t => b_first_hidden (G t)) t0 (b_first_hidden d) ->
  Gradient.entries_derivable 16 16 (fun t => w_second_hidden (G t)) t0 (w_second_hidden d) ->
  Gradient.entries_derivable 16 1 (fun t => b_second_hidden (G t)) t0 (b_second_hidden d) ->
  Gradient.entries_derivable 1 16 (fun t => w_output (G t)) t0 (w_output d) ->
  Gradient.entries_derivable 1 1 (fun t => b_output (G t)) t0 (b_output d) ->
  (forall i, (i < 16)%nat -> item (Spec.z1 (G t0) 1 x) i 0 <> 0) ->
  (forall i, (i < 16)%nat -> item (Spec.z2 (G t0) 1 x) i 0 <> 0) ->
  derivable_pt_lim (fun t => Gradient.network_loss (G t) x y) t0
    (2 * (logistic (item (Spec.z3 (G t0) 1 x) 0 0) - y)
       * Spec.logistic' (item (Spec.z3 (G t0) 1 x) 0 0)
       * Gradient.dz3 (G t0) d x).
Proof.
  intros HG Hx Hw1 Hb1 Hw2 Hb2 Hw3 Hb3 Hz1 Hz2.
  assert (D1 : forall i, (i < 16)%nat ->
            derivable_pt_lim (fun t => item (Spec.z1 (G t) 1 x) i 0) t0
              (Gradient.dz1 (G t0) d x i)).
  { intros i Hi.
    apply derivable_ext
      with (f := fun t => sum_range 4 (fun k => item (w_first_hidden (G t)) i k * item x k 0)
                          + item (b_first_hidden (G t)) i 0);
      [intros t; symmetry; now apply item_z1|].
    unfold Gradient.dz1. apply derivable_add; [|apply Hb1; lia].
    apply (derivable_sum 4 (fun k t => item (w_first_hidden (G t)) i k * item x k 0)
             (fun k => item (w_first_hidden d) i k * item x k 0)).
    intros k Hk. apply derivable_mul_const. now apply Hw1. }
  assert (DA1 : forall i, (i < 16)%nat ->
            derivable_pt_lim (fun t => item (Spec.a1 (G t) 1 x) i 0) t0
              (Gradient.da1 (G t0) d x i)).
  { intros i Hi.
    apply derivable_ext with (f := fun t => Rmax (item (Spec.z1 (G t) 1 x) i 0) 0);
      [intros t; symmetry; now apply item_a1|].
    unfold Gradient.da1.
    apply (derivable_relu (fun t => item (Spec.z1 (G t) 1 x) i 0)); auto. }
  assert (D2 : forall i, (i < 16)%nat ->
            derivable_pt_lim (fun t => item (Spec.z2 (G t) 1 x) i 0) t0
              (Gradient.dz2 (G t0) d x i)).
  { intros i Hi.
    apply derivable_ext
      with (f := fun t => sum_range 16 (fun k => item (w_second_hidden (G t)) i k *
                                                 item (Spec.a1 (G t) 1 x) k 0)
                          + item (b_second_hidden (G t)) i 0);
      [intros t; symmetry; now apply item_z2|].
    unfold Gradient.dz2. apply derivable_add; [|apply Hb2; lia].
    apply (derivable_sum 16
             (fun k t => item (w_second_hidden (G t)) i k * item (Spec.a1 (G t) 1 x) k 0)
             (fun k => item (w_second_hidden d) i k * item (Spec.a1 (G t0) 1 x) k 0
                       + item (w_second_hidden (G t0)) i k * Gradient.da1 (G t0) d x k)).
    intros k Hk.
    apply (derivable_mul (fun t => item (w_second_hidden (G t)) i k)
             (fun t => item (Spec.a1 (G t) 1 x) k 0)); [now apply Hw2 | now apply DA1]. }
  assert (DA2 : forall i, (i < 16)%nat ->
            derivable_pt_lim (fun t => item (Spec.a2 (G t) 1 x) i 0) t0
              (Gradient.da2 (G t0) d x i)).
  { intros i Hi.
    apply derivable_ext with (f := fun t => Rmax (item (Spec.z2 (G t) 1 x) i 0) 0);
      [intros t; symmetry; now apply item_a2|].
    unfold Gradient.da2.
    apply (derivable_relu (fun t => item (Spec.z2 (G t) 1 x) i 0)); auto. }
  assert (D3 : derivable_pt_lim (fun t => item (Spec.z3 (G t) 1 x) 0 0) t0
                 (Gradient.dz3 (G t0) d x)).
  { apply derivable_ext
      with (f := fun t => sum_range 16 (fun k => item (w_output (G t)) 0 k *
                                                 item (Spec.a2 (G t) 1 x) k 0)
                          + item (b_output (G t)) 0 0);
      [intros t; symmetry; apply item_z3|].
    unfold Gradient.dz3. apply derivable_add; [|apply Hb3; lia].
    apply (derivable_sum 16
             (fun k t => item (w_output (G t)) 0 k * item (Spec.a2 (G t) 1 x) k 0)
             (fun k => item (w_output d) 0 k * item (Spec.a2 (G t0) 1 x) k 0
                       + item (w_output (G t0)) 0 k * Gradient.da2 (G t0) d x k)).
    intros k Hk.
    apply (derivable_mul (fun t => item (w_output (G t)) 0 k)
             (fun t => item (Spec.a2 (G t) 1 x) k 0)); [apply Hw3; lia | now apply DA2]. }
  apply derivable_ext
    with (f := fun t => loss (logistic (item (Spec.z3 (G t) 1 x) 0 0)) y);
    [intros t; symmetry; now apply network_loss_computed|].
  exact (derivable_loss (fun t => item (Spec.z3 (G t) 1 x) 0 0) y t0 _ D3).
Qed.
End ForwardModeFacts.

(** ** Reverse mode: the gradient tuple as the differential of the loss *)

Section AdjointFacts.
Local Open Scope R_scope.
Import np.

Lemma sum_range_plus (n : nat) (f h : nat -> R) :
  sum_range n (fun k => f k + h k) = sum_range n f + sum_range n h.
Proof. induction n as [|n IH]; simpl; [ring | rewrite IH; ring]. Qed.

Lemma sum_range_scal (n : nat) (c : R) (f : nat -> R) :
  c * sum_range n f = sum_range n (fun k => c * f k).
Proof. induction n as [|n IH]; simpl; [ring | rewrite <- IH; ring]. Qed.

Lemma sum_range_one (f : nat -> R) : sum_range 1 f = f 0%nat.
Proof. simpl. ring. Qed.

Lemma sum_range_swap (n m : nat) (f : nat -> nat -> R) :
  sum_range n (fun i => sum_range m (fun j => f i j)) =
  sum_range m (fun j => sum_range n (fun i => f i j)).
Proof.
  induction n as [|n IH]; simpl.
  - symmetry. apply sum_range_zero. reflexivity.
  - rewrite IH. now rewrite <- sum_range_plus.
Qed.

Lemma frobenius_outer (r c : nat) (u v : nat -> R) (b : ndarray) :
  Gradient.frobenius r c (Spec.outer r c u v) b =
  sum_range r (fun i => sum_range c (fun j => u i * v j * item b i j)).
Proof.
  unfold Gradient.frobenius. apply sum_range_ext. intros i Hi.
  apply sum_range_ext. intros j Hj. unfold Spec.outer.
  now rewrite item_fromfunction.
Qed.

Lemma frobenius_column (r : nat) (u : nat -> R) (b : ndarray) :
  Gradient.frobenius r 1 (Spec.column r u) b = sum_range r (fun i => u i * item b i 0).
Proof.
  unfold Gradient.frobenius. apply sum_range_ext. intros i Hi. simpl.
  rewrite item_column by assumption. ring.
Qed.

(** A layer's share of the differential: the adjoint [u] against the tangent
    of an affine map with input [v]. *)
Lemma frobenius_affine (r n : nat) (u v : nat -> R) (dw db : ndarray) :
  sum_range r (fun i => u i * (sum_range n (fun k => item dw i k * v k) + item db i 0)) =
  Gradient.frobenius r n (Spec.outer r n u v) dw +
  Gradient.frobenius r 1 (Spec.column r u) db.
Proof.
  rewrite frobenius_outer, frobenius_column, <- sum_range_plus.
  apply sum_range_ext. intros i Hi.
  rewrite Rmult_plus_distr_l, sum_range_scal. f_equal.
  apply sum_range_ext. intros k Hk. ring.
Qed.

(** The forward-mode derivative of the loss equals the inner product of the
    gradient tuple with the direction. *)
Lemma differential_is_inner (g d : globals) (x : ndarray) (y : R) :
  2 * (logistic (item (Spec.z3 g 1 x) 0 0) - y)
    * Spec.logistic' (item (Spec.z3 g 1 x) 0 0) * Gradient.dz3 g d x =
  Gradient.inner
    (Spec.backward g (Spec.z1 g 1 x) (Spec.a1 g 1 x) (Spec.z2 g 1 x) (Spec.a2 g 1 x)
       (Spec.z3 g 1 x) (Spec.y_hat g 1 x) x y) d.
Proof.
  unfold Gradient.inner, Spec.backward, Gradient.component.
  set (d3 := Spec.dL_dz3 (Spec.z3 g 1 x) (Spec.y_hat g 1 x) y).
  set (d2 := Spec.dL_dz2 (w_output g) (Spec.z2 g 1 x) d3).
  set (d1 := Spec.dL_dz1 (w_second_hidden g) (Spec.z1 g 1 x) d2).
  assert (E3 : 2 * (logistic (item (Spec.z3 g 1 x) 0 0) - y)
                 * Spec.logistic' (item (Spec.z3 g 1 x) 0 0) = d3).
  { unfold d3, Spec.dL_dz3. now rewrite item_y_hat. }
  rewrite E3.
  (* layer 1 against layer 2 *)
  assert (L1 : sum_range 16 (fun i => d2 i *
                  sum_range 16 (fun k => item (w_second_hidden g) i k * Gradient.da1 g d x k)) =
               sum_range 16 (fun k => d1 k * Gradient.dz1 g d x k)).
  { transitivity
      (sum_range 16 (fun i => sum_range 16 (fun k =>
         item (w_second_hidden g) i k * d2 i *
         (Spec.positive (item (Spec.z1 g 1 x) k 0) * Gradient.dz1 g d x k)))).
    - apply sum_range_ext. intros i Hi. rewrite sum_range_scal.
      apply sum_range_ext. intros k Hk. unfold Gradient.da1. ring.
    - rewrite sum_range_swap. apply sum_range_ext. intros k Hk.
      unfold d1, Spec.dL_dz1.
      rewrite Rmult_assoc, (Rmult_comm (sum_range 16 _)), sum_range_scal.
      apply sum_range_ext. intros i Hi. ring. }
  assert (L2 : sum_range 16 (fun i => d2 i * Gradient.dz2 g d x i) =
               sum_range 16 (fun i => d2 i *
                  (sum_range 16 (fun k => item (w_second_hidden d) i k *
                                          item (Spec.a1 g 1 x) k 0)
                   + item (b_second_hidden d) i 0)) +
               sum_range 16 (fun k => d1 k * Gradient.dz1 g d x k)).
  { rewrite <- L1, <- sum_range_plus. apply sum_range_ext. intros i Hi.
    unfold Gradient.dz2. rewrite sum_range_plus. ring. }
  assert (L3 : d3 * Gradient.dz3 g d x =
               sum_range 1 (fun i => d3 *
                  (sum_range 16 (fun k => item (w_output d) i k *
                                          item (Spec.a2 g 1 x) k 0)
                   + item (b_output d) i 0)) +
               sum_range 16 (fun i => d2 i * Gradient.dz2 g d x i)).
  { assert (E : d3 * sum_range 16 (fun k => item (w_output g) 0 k * Gradient.da2 g d x k) =
                sum_range 16 (fun i => d2 i * Gradient.dz2 g d x i)).
    { rewrite sum_range_scal. apply sum_range_ext. intros k Hk.
      unfold d2, Spec.dL_dz2, Gradient.da2. ring. }
    rewrite <- E, sum_range_one. unfold Gradient.dz3. rewrite sum_range_plus. ring. }
  rewrite L3, L2. unfold Gradient.dz1.
  rewrite (frobenius_affine 16 4 d1 (fun j => item x j 0)).
  rewrite (frobenius_affine 16 16 d2 (fun j => item (Spec.a1 g 1 x) j 0)).
  rewrite (frobenius_affine 1 16 (fun _ => d3) (fun j => item (Spec.a2 g 1 x) j 0)).
  ring.
Qed.
End AdjointFacts.

(** ** Partial derivatives *)

Section GradientFacts.
Local Open Scope R_scope.
Import np.

Lemma sum_range_delta (n j : nat) (f : nat -> R) :
  (j < n)%nat -> sum_range n (fun k => if (k =? j)%nat then f k else 0) = f j.
Proof.
  induction n as [|n IH]; intros Hj; [lia|]. simpl.
  destruct (Nat.eqb_spec n j) as [->|Hne].
  - rewrite sum_range_zero; [ring|]. intros k Hk.
    destruct (Nat.eqb_spec k j); [lia | reflexivity].
  - rewrite IH by lia. ring.
Qed.

Lemma is_shape_setitem (r c : nat) (a : ndarray) (i j : nat) (t : R) :
  is_shape r c a = true -> (0 < r)%nat -> is_shape r c (Gradient.setitem a i j t) = true.
Proof.
  intros Ha Hr. unfold Gradient.setitem.
  rewrite (is_shape_nrows _ _ _ Ha), (is_shape_ncols _ _ _ Ha Hr).
  apply is_shape_fromfunction.
Qed.

Lemma item_setitem (r c : nat) (a : ndarray) (i j : nat) (t : R) (i' j' : nat) :
  is_shape r c a = true -> (0 < r)%nat -> (i' < r)%nat -> (j' < c)%nat ->
  item (Gradient.setitem a i j t) i' j' =
  if ((i' =? i) && (j' =? j))%nat then t else item a i' j'.
Proof.
  intros Ha Hr Hi Hj. unfold Gradient.setitem.
  rewrite (is_shape_nrows _ _ _ Ha), (is_shape_ncols _ _ _ Ha Hr).
  now rewrite item_fromfunction.
Qed.

Lemma setitem_same (r c : nat) (a : ndarray) (i j : nat) :
  is_shape r c a = true -> (0 < r)%nat -> Gradient.setitem a i j (item a i j) = a.
Proof.
  intros Ha Hr. apply (ndarray_ext r c); [now apply is_shape_setitem | assumption|].
  intros i' j' Hi Hj. rewrite (item_setitem r c) by assumption.
  destruct (Nat.eqb_spec i' i) as [->|_], (Nat.eqb_spec j' j) as [->|_]; reflexivity.
Qed.

Lemma rows_positive (p : Gradient.parameter) : (0 < Gradient.rows p)%nat.
Proof. destruct p; simpl; lia. Qed.

Lemma is_shape_tensor (p : Gradient.parameter) (g : globals) :
  Spec.shapes_ok g = true ->
  is_shape (Gradient.rows p) (Gradient.cols p) (Gradient.tensor p g) = true.
Proof.
  intros Hg. apply shapes_ok_fields in Hg.
  destruct Hg as (Hw1 & Hb1 & Hw2 & Hb2 & Hw3 & Hb3). destruct p; assumption.
Qed.

Lemma shapes_ok_with_tensor (p : Gradient.parameter) (v : ndarray) (g : globals) :
  Spec.shapes_ok g = true ->
  is_shape (Gradient.rows p) (Gradient.cols p) v = true ->
  Spec.shapes_ok (Gradient.with_tensor p v g) = true.
Proof.
  intros Hg Hv. apply shapes_ok_fields in Hg.
  destruct Hg as (Hw1 & Hb1 & Hw2 & Hb2 & Hw3 & Hb3).
  unfold Spec.shapes_ok. destruct p; simpl in *;
    now rewrite ?Hw1, ?Hb1, ?Hw2, ?Hb2, ?Hw3, ?Hb3, ?Hv.
Qed.

Lemma shapes_ok_perturbed (p : Gradient.parameter) (i j : nat) (g : globals) (t : R) :
  Spec.shapes_ok g = true -> Spec.shapes_ok (Gradient.perturbed p i j g t) = true.
Proof.
  intros Hg. apply shapes_ok_with_tensor; [assumption|].
  apply is_shape_setitem; [now apply is_shape_tensor | apply rows_positive].
Qed.

Lemma perturbed_same (p : Gradient.parameter) (i j : nat) (g : globals) :
  Spec.shapes_ok g = true ->
  Gradient.perturbed p i j g (item (Gradient.tensor p g) i j) = g.
Proof.
  intros Hg. unfold Gradient.perturbed.
  rewrite (setitem_same _ _ _ _ _ (is_shape_tensor p g Hg) (rows_positive p)).
  now destruct g, p.
Qed.

Lemma is_shape_zeros (r c : nat) : is_shape r c (zeros r c) = true.
Proof. apply is_shape_fromfunction. Qed.

(** Along a perturbation of one entry, every entry of every parameter tensor
    is differentiable: the perturbed entry at speed 1, the others at speed 0. *)
Lemma perturbed_derivable (p q : Gradient.parameter) (i j : nat) (g : globals) (t0 : R) :
  Spec.shapes_ok g = true ->
  Gradient.entries_derivable (Gradient.rows q) (Gradient.cols q)
    (fun t => Gradient.tensor q (Gradient.perturbed p i j g t)) t0
    (Gradient.tensor q (Gradient.unit_direction p i j)).
Proof.
  intros Hg i' j' Hi Hj.
  pose proof (is_shape_tensor p g Hg) as Hp.
  pose proof (rows_positive p) as Hr.
  assert (Hmoved :
    derivable_pt_lim
      (fun t => item (Gradient.setitem (Gradient.tensor p g) i j t) i' j') t0
      (item (Gradient.setitem (zeros (Gradient.rows p) (Gradient.cols p)) i j 1) i' j')
    \/ ~ ((i' < Gradient.rows p)%nat /\ (j' < Gradient.cols p)%nat)).
  { destruct (Nat.lt_ge_cases i' (Gradient.rows p)) as [Hi'|Hi'];
      [|right; lia].
    destruct (Nat.lt_ge_cases j' (Gradient.cols p)) as [Hj'|Hj'];
      [|right; lia].
    left.
    apply derivable_ext
      with (f := fun t => if ((i' =? i) && (j' =? j))%nat then t
                          else item (Gradient.tensor p g) i' j');
      [intros t; symmetry; now apply (item_setitem _ _ _ _ _ _ _ _ Hp)|].
    rewrite (item_setitem _ _ _ _ _ _ _ _ (is_shape_zeros _ _)) by assumption.
    destruct ((i' =? i) && (j' =? j))%nat.
    - apply derivable_pt_lim_id.
    - rewrite item_zeros by assumption. apply derivable_pt_lim_const. }
  destruct p, q; simpl in *;
    solve [ destruct Hmoved as [H|H]; [exact H | exfalso; apply H; split; assumption]
          | rewrite item_zeros by assumption; apply derivable_pt_lim_const ].
Qed.

Lemma frobenius_zeros (r c : nat) (a : ndarray) :
  Gradient.frobenius r c a (zeros r c) = 0.
Proof.
  unfold Gradient.frobenius. apply sum_range_zero. intros i Hi.
  apply sum_range_zero. intros j Hj. rewrite item_zeros by assumption. ring.
Qed.

Lemma frobenius_unit (r c : nat) (a : ndarray) (i j : nat) :
  (i < r)%nat -> (j < c)%nat ->
  Gradient.frobenius r c a (Gradient.setitem (zeros r c) i j 1) = item a i j.
Proof.
  intros Hi Hj. unfold Gradient.frobenius.
  rewrite <- (sum_range_delta r i (fun k => item a k j)) by assumption.
  apply sum_range_ext. intros i' Hi'.
  rewrite <- (sum_range_delta c j (fun k => if (i' =? i)%nat then item a i' k else 0))
    by assumption.
  apply sum_range_ext. intros j' Hj'.
  rewrite (item_setitem r c) by (auto using is_shape_zeros; lia).
  rewrite item_zeros by assumption.
  destruct (Nat.eqb_spec i' i) as [->|_], (Nat.eqb_spec j' j) as [->|_]; simpl; ring.
Qed.

(** The inner product with a unit direction reads off one entry of the
    gradient tuple. *)
Lemma inner_unit_direction (p : Gradient.parameter) (i j : nat) (grads : gradients) :
  (i < Gradient.rows p)%nat -> (j < Gradient.cols p)%nat ->
  Gradient.inner grads (Gradient.unit_direction p i j) =
  item (Gradient.component p grads) i j.
Proof.
  intros Hi Hj. unfold Gradient.inner, Gradient.unit_direction.
  destruct p; simpl in *;
    rewrite ?frobenius_zeros, frobenius_unit by assumption;
    rewrite ?frobenius_zeros; ring.
Qed.
End GradientFacts.

(** ** Preprocessing *)

Section PreprocessingFacts.
Local Open Scope R_scope.
Import np.

Lemma map_seq_nth (A B : Type) (h : A -> B) (d : A) (l : list A) :
  map (fun i => h (nth i l d)) (seq 0 (length l)) = map h l.
Proof.
  transitivity (map h (map (fun i => nth i l d) (seq 0 (length l)))).
  - now rewrite map_map.
  - f_equal. symmetry. apply list_eq_nth.
Qed.

Lemma row_fromfunction (r c i : nat) (F : nat -> nat -> R) :
  (i < r)%nat -> nth i (fromfunction r c F) [] = map (F i) (seq 0 c).
Proof.
  intros Hi. unfold fromfunction.
  rewrite (nth_indep _ [] (map (fun j => F 0%nat j) (seq 0 c)))
    by now rewrite length_map, length_seq.
  rewrite (map_nth (fun k => map (fun j => F k j) (seq 0 c)) (seq 0 r) 0%nat i).
  now rewrite seq_nth.
Qed.

Lemma column_fromfunction (r c j : nat) (F : nat -> nat -> R) :
  (j < c)%nat -> pd.column j (fromfunction r c F) = map (fun i => F i j) (seq 0 r).
Proof.
  intros Hj. unfold pd.column, fromfunction. rewrite map_map.
  apply map_ext. intros i.
  rewrite (nth_indep _ 0 (F i 0%nat)) by now rewrite length_map, length_seq.
  rewrite (map_nth (fun k => F i k) (seq 0 c) 0%nat j). now rewrite seq_nth.
Qed.

Lemma sum_map_affine (c s : R) (col : list R) :
  pd.sum (map (fun v => (v - c) / s) col) = (pd.sum col - INR (length col) * c) / s.
Proof.
  induction col as [|a col IH].
  - simpl. unfold Rdiv. ring.
  - change (pd.sum (map (fun v => (v - c) / s) (a :: col)))
      with ((a - c) / s + pd.sum (map (fun v => (v - c) / s) col)).
    change (pd.sum (a :: col)) with (a + pd.sum col).
    rewrite IH. change (length (a :: col)) with (S (length col)). rewrite S_INR.
    unfold Rdiv. ring.
Qed.

Lemma sum_map_div (h : R -> R) (k : R) (col : list R) :
  pd.sum (map (fun v => h v / k) col) = pd.sum (map h col) / k.
Proof.
  induction col as [|a col IH].
  - simpl. unfold Rdiv. ring.
  - change (pd.sum (map (fun v => h v / k) (a :: col)))
      with (h a / k + pd.sum (map (fun v => h v / k) col)).
    change (pd.sum (map h (a :: col))) with (h a + pd.sum (map h col)).
    rewrite IH. unfold Rdiv. ring.
Qed.

Lemma length_standardise (col : list R) : length (standardise col) = length col.
Proof. apply length_map. Qed.

(** A column with at least two entries that are not all equal has, once
    standardised, mean 0 and standard deviation 1. *)
Lemma standardise_moments (col : list R) :
  (2 <= length col)%nat -> pd.std col <> 0 ->
  pd.mean (standardise col) = 0 /\ pd.std (standardise col) = 1.
Proof.
  intros Hn Hs.
  assert (Hlen : INR (length col) <> 0) by (apply not_0_INR; lia).
  assert (Hmean : pd.mean (standardise col) = 0).
  { unfold pd.mean at 1. rewrite length_standardise. unfold standardise.
    rewrite sum_map_affine.
    replace (pd.sum col - INR (length col) * pd.mean col) with 0
      by (unfold pd.mean; field; assumption).
    unfold Rdiv. ring. }
  split; [exact Hmean|].
  set (S := pd.sum (map (fun v => (v - pd.mean col) ^ 2) col)) in *.
  set (m := INR (length col - 1)).
  assert (Hvar : 0 < S / m).
  { destruct (Rlt_le_dec 0 (S / m)) as [H|H]; [exact H|].
    exfalso. apply Hs. unfold pd.std. fold S. fold m. now apply sqrt_neg_0. }
  assert (Hsq : pd.std col * pd.std col = S / m).
  { unfold pd.std. fold S. fold m. apply sqrt_def. lra. }
  assert (Hm : m <> 0) by (unfold m; apply not_0_INR; lia).
  unfold pd.std at 1. rewrite Hmean, length_standardise. fold m.
  unfold standardise. rewrite map_map.
  rewrite (map_ext _ (fun v => (v - pd.mean col) ^ 2 / (pd.std col * pd.std col)))
    by (intros v; field; assumption).
  rewrite sum_map_div. fold S. rewrite Hsq.
  replace (S / (S / m) / m) with 1; [apply sqrt_1|].
  assert (HS : S <> 0).
  { intros H0. rewrite H0 in Hvar. unfold Rdiv in Hvar. rewrite Rmult_0_l in Hvar. lra. }
  field. split; assumption.
Qed.

Lemma is_shape_features (data : list banknote) :
  is_shape (length data) 4 (features data) = true.
Proof.
  apply is_shape_spec. unfold features. split; [apply length_map|].
  apply Forall_forall. intros row Hrow. apply in_map_iff in Hrow.
  now destruct Hrow as [b [<- _]].
Qed.

Lemma row_of_T (r c j : nat) (a : ndarray) :
  is_shape r c a = true -> (0 < r)%nat -> (j < c)%nat ->
  nth j (T a) [] = pd.column j a.
Proof.
  intros Ha Hr Hj. rewrite (T_shape _ _ _ Ha Hr), row_fromfunction by assumption.
  unfold pd.column, item. rewrite <- (is_shape_nrows _ _ _ Ha). unfold nrows.
  apply (map_seq_nth _ _ (fun row => nth j row 0) [] a).
Qed.

Lemma column_of_transposed (r c j : nat) (a : ndarray) :
  is_shape r c a = true -> (0 < r)%nat -> (j < r)%nat ->
  pd.column j (T a) = nth j a [].
Proof.
  intros Ha Hr Hj. rewrite (T_shape _ _ _ Ha Hr), column_fromfunction by assumption.
  unfold item. rewrite <- (is_shape_row _ _ _ _ Ha Hj).
  symmetry. apply list_eq_nth.
Qed.

(** [apply] hands every column to the function and puts the results back as
    the columns of the frame. *)
Lemma apply_by_column (f : list R -> list R) (r c j : nat) (frame : ndarray) :
  (forall col, length (f col) = length col) ->
  is_shape r c frame = true -> (0 < r)%nat -> (j < c)%nat ->
  is_shape r c (pd.apply f frame) = true /\
  pd.column j (pd.apply f frame) = f (pd.column j frame).
Proof.
  intros Hf Ha Hr Hj.
  assert (Hc : (0 < c)%nat) by lia.
  pose proof (is_shape_T _ _ _ Ha Hr) as Ht.
  assert (Hm : is_shape c r (map f (T frame)) = true).
  { apply is_shape_spec in Ht. destruct Ht as [Hl Hrows].
    apply is_shape_spec. split; [now rewrite length_map|].
    rewrite Forall_forall in *. intros row Hrow. apply in_map_iff in Hrow.
    destruct Hrow as [col [<- Hin]]. rewrite Hf. auto. }
  unfold pd.apply. split; [now apply is_shape_T|].
  rewrite (column_of_transposed c r j _ Hm Hc Hj).
  pose proof (is_shape_nrows _ _ _ Hm) as Hl. unfold nrows in Hl.
  rewrite (nth_indep _ [] (f [])) by (rewrite Hl; exact Hj).
  rewrite (map_nth f (T frame) [] j).
  now rewrite (row_of_T r c j _ Ha Hr Hj).
Qed.
End PreprocessingFacts.

(** ** The testing cell *)

Section EvaluationFacts.
Local Open Scope R_scope.
Import np.

(** The number of pairs of a list that a test selects. *)
Lemma tally_step (c : confusion) (a p : Z) :
  tally c (a, p) =
  Confusion
    (TP c + (if ((a =? 1) && (p =? 1))%Z then 1 else 0))
    (FP c + (if ((a =? 0) && (p =? 1))%Z then 1 else 0))
    (TN c + (if ((a =? 0) && (p =? 0))%Z then 1 else 0))
    (FN c + (if ((a =? 1) && (p =? 0))%Z then 1 else 0)).
Proof.
  destruct c as [tp fp tn fn]. unfold tally. simpl.
  destruct (Z.eqb_spec a 1), (Z.eqb_spec a 0), (Z.eqb_spec p 1), (Z.eqb_spec p 0);
    simpl; try lia; now rewrite ?Nat.add_0_r.
Qed.

Lemma length_filter_cons (A : Type) (b : A -> bool) (x : A) (l : list A) :
  length (filter b (x :: l)) = ((if b x then 1 else 0) + length (filter b l))%nat.
Proof. simpl. now destruct (b x). Qed.

Lemma fold_tally (pairs : list (Z * Z)) (c : confusion) :
  fold_left tally pairs c =
  Confusion
    (TP c + length (filter (fun q => ((fst q =? 1) && (snd q =? 1))%Z) pairs))
    (FP c + length (filter (fun q => ((fst q =? 0) && (snd q =? 1))%Z) pairs))
    (TN c + length (filter (fun q => ((fst q =? 0) && (snd q =? 0))%Z) pairs))
    (FN c + length (filter (fun q => ((fst q =? 1) && (snd q =? 0))%Z) pairs)).
Proof.
  revert c. induction pairs as [|[a p] pairs IH]; intros c.
  - destruct c. simpl. now rewrite !Nat.add_0_r.
  - change (fold_left tally ((a, p) :: pairs) c)
      with (fold_left tally pairs (tally c (a, p))).
    rewrite IH, tally_step. rewrite !length_filter_cons.
    simpl fst. simpl snd. simpl TP. simpl FP. simpl TN. simpl FN.
    f_equal; lia.
Qed.

Lemma sum_indicator (A : Type) (b : A -> bool) (l : list A) :
  pd.sum (map (fun q => if b q then 1 else 0) l) = INR (length (filter b l)).
Proof.
  induction l as [|x l IH]; [reflexivity|].
  change (pd.sum (map (fun q => if b q then 1 else 0) (x :: l)))
    with ((if b x then 1 else 0) + pd.sum (map (fun q => if b q then 1 else 0) l)).
  rewrite IH, length_filter_cons, plus_INR. destruct (b x); simpl; ring.
Qed.

Lemma combine_by_index (ls ps : list Z) :
  length ps = length ls ->
  combine ls ps = map (fun j => (nth j ls 0%Z, nth j ps 0%Z)) (seq 0 (length ls)).
Proof.
  intros Hlen. rewrite (list_eq_nth _ (0%Z, 0%Z) (combine ls ps)) at 1.
  rewrite length_combine, Hlen, Nat.min_id.
  apply map_ext. intros j. apply combine_nth. now symmetry.
Qed.

(** Column vector of labels, as the response slices are. *)
Lemma labels_as_array (ls : list Z) :
  is_shape (length ls) 1 (elementwise IZR (map (fun v => [v]) ls)) = true /\
  forall j, (j < length ls)%nat ->
    item (elementwise IZR (map (fun v => [v]) ls)) j 0 = IZR (nth j ls 0%Z).
Proof.
  unfold elementwise. rewrite map_map. simpl. split.
  - apply is_shape_spec. split; [apply length_map|].
    apply Forall_forall. intros row Hrow. apply in_map_iff in Hrow.
    now destruct Hrow as [v [<- _]].
  - intros j Hj. unfold item.
    rewrite (nth_indep _ [] [IZR 0]) by now rewrite length_map.
    now rewrite (map_nth (fun v => [IZR v]) ls 0%Z j).
Qed.

Lemma accuracy_computed (ls ps : list Z) :
  length ps = length ls -> (0 < length ls)%nat ->
  accuracy [ps] (map (fun v => [v]) ls) =
  Some (INR (length (filter (fun q => (fst q =? snd q)%Z) (combine ls ps)))
        / INR (length ls)).
Proof.
  intros Hlen Hn. set (n := length ls) in *.
  destruct (labels_as_array ls) as [Hshape Hitem]. fold n in Hshape, Hitem.
  assert (Hp : is_shape 1 n (elementwise IZR [ps]) = true).
  { apply is_shape_spec. unfold elementwise. simpl. split; [reflexivity|].
    constructor; [|constructor]. now rewrite length_map. }
  assert (Hpi : forall j, (j < n)%nat ->
                  item (elementwise IZR [ps]) 0 j = IZR (nth j ps 0%Z)).
  { intros j Hj. unfold elementwise, item. simpl.
    exact (map_nth IZR ps 0%Z j). }
  unfold accuracy, equal.
  rewrite (broadcast_same _ 1 n _ _ Hp (is_shape_T _ _ _ Hshape Hn)) by lia.
  unfold array_mean, flatten, fromfunction. simpl concat. rewrite app_nil_r.
  rewrite length_map, length_seq. do 2 f_equal.
  rewrite <- (sum_indicator _ (fun q => (fst q =? snd q)%Z)).
  rewrite (combine_by_index ls ps Hlen), map_map. fold n. f_equal.
  apply map_ext_in. intros j Hj. apply in_seq in Hj.
  rewrite Hpi by lia. rewrite (T_shape _ _ _ Hshape Hn).
  rewrite item_fromfunction by lia. rewrite Hitem by lia. simpl fst. simpl snd.
  destruct (Req_dec_T (IZR (nth j ps 0%Z)) (IZR (nth j ls 0%Z))) as [He|He].
  - apply eq_IZR in He. rewrite He, Z.eqb_refl. reflexivity.
  - destruct (Z.eqb_spec (nth j ls 0%Z) (nth j ps 0%Z)) as [Hz|Hz]; [|reflexivity].
    exfalso. apply He. now rewrite Hz.
Qed.

(** Every prediction is 0 or 1. *)
Lemma predictions_binary (g : globals) (n : nat) (tp : ndarray) :
  Spec.shapes_ok g = true -> is_shape n 4 tp = true -> (0 < n)%nat ->
  exists row, predictions tp g = Some ([row], g) /\ length row = n /\
              Forall (fun v => v = 0%Z \/ v = 1%Z) row.
Proof.
  intros Hg Htp Hn. rewrite (predictions_computed g n tp Hg Htp Hn).
  assert (Hs : is_shape 1 n (Spec.z3 g n (T tp)) = true) by apply is_shape_affine.
  destruct (row_vector n _ Hs) as (zs & Hzs & Hlen).
  unfold Spec.y_hat. rewrite Hzs. unfold elementwise. simpl.
  eexists. split; [reflexivity|]. split; [now rewrite !length_map|].
  apply Forall_forall. intros v Hv. rewrite map_map in Hv. apply in_map_iff in Hv.
  destruct Hv as [z [<- _]].
  change (1 / (1 + exp (- z))) with (logistic z).
  rewrite (round_unit_interval _ (logistic_bounds z)).
  destruct (Rlt_dec (1 / 2) (logistic z)); auto.
Qed.
Lemma combine_flatten_column (labels predicted : list Z) :
  combine (flatten (map (fun v => [v]) labels)) (flatten [predicted]) =
  combine labels predicted.
Proof.
  unfold flatten. simpl. rewrite app_nil_r. f_equal.
  induction labels as [|v l IH]; [reflexivity|]. simpl. now rewrite IH.
Qed.

Lemma is_shape_firstn (n c k : nat) (a : ndarray) :
  is_shape n c a = true -> (k <= n)%nat -> is_shape k c (firstn k a) = true.
Proof.
  intros Ha Hk. apply is_shape_spec in Ha. destruct Ha as [Hl Hrows].
  apply is_shape_spec. split; [rewrite length_firstn; lia|].
  rewrite Forall_forall in *. intros row Hrow. apply Hrows.
  rewrite <- (firstn_skipn k a). apply in_or_app. now left.
Qed.

Lemma is_shape_skipn (n c k : nat) (a : ndarray) :
  is_shape n c a = true -> is_shape (n - k) c (skipn k a) = true.
Proof.
  intros Ha. apply is_shape_spec in Ha. destruct Ha as [Hl Hrows].
  apply is_shape_spec. split; [rewrite length_skipn; lia|].
  rewrite Forall_forall in *. intros row Hrow. apply Hrows.
  rewrite <- (firstn_skipn k a). apply in_or_app. now right.
Qed.
End EvaluationFacts.

(** * Further theorems *)

Section GradientTheorems.
Local Open Scope R_scope.
Import np.

Lemma forward_cache_is_spec (g : globals) (x z1 a1 z2 a2 z3 yhat : ndarray) :
  Spec.shapes_ok g = true -> is_shape 4 1 x = true ->
  forward_propagation x g = Some ((z1, a1, z2, a2, z3, yhat), g) ->
  (z1, a1, z2, a2, z3, yhat) = Spec.forward g 1 x.
Proof.
  intros Hg Hx Hf. rewrite (forward_propagation_computed g 1 x Hg Hx) in Hf.
  now inversion Hf.
Qed.

Lemma backward_on_forward (g : globals) (x : ndarray) (y : R) :
  Spec.shapes_ok g = true -> is_shape 4 1 x = true ->
  backward_propagation (Spec.z1 g 1 x) (Spec.a1 g 1 x) (Spec.z2 g 1 x) (Spec.a2 g 1 x)
    (Spec.z3 g 1 x) (Spec.y_hat g 1 x) x [y] g =
  Some (Spec.backward g (Spec.z1 g 1 x) (Spec.a1 g 1 x) (Spec.z2 g 1 x) (Spec.a2 g 1 x)
          (Spec.z3 g 1 x) (Spec.y_hat g 1 x) x y, g).
Proof.
  intros Hg Hx. pose proof (cache_shapes_forward g 1 x) as Hc.
  unfold Spec.cache_shapes, Spec.forward in Hc. rewrite !andb_true_iff in Hc.
  destruct Hc as [[[[[Hz1 Ha1] Hz2] Ha2] Hz3] Hyh].
  pose proof (shapes_ok_fields g Hg) as (_ & _ & Hw2 & _ & Hw3 & _).
  now apply backward_propagation_computed.
Qed.

(** X2: the gradient tuple is the differential of the loss: along every
    differentiable path of parameter states through a state in which no hidden
    pre-activation is 0 and the output pre-activation is at least -709 (so
    that [e^(−z3)] is a finite binary64 number),
    the loss of the network on the sample is differentiable, and its
    derivative is the inner product of the tuple that [backward_propagation]
    returns on the cache of [forward_propagation] with the velocity of the
    path. *)
Theorem network_loss_differential (G : R -> globals) (d : globals) (t0 : R)
    (x : ndarray) (y : R) (z1 a1 z2 a2 z3 yhat : ndarray) (grads : gradients) :
  (forall t, Spec.shapes_ok (G t) = true) -> is_shape 4 1 x = true ->
  Gradient.entries_derivable 16 4 (fun t => w_first_hidden (G t)) t0 (w_first_hidden d) ->
  Gradient.entries_derivable 16 1 (fun t => b_first_hidden (G t)) t0 (b_first_hidden d) ->
  Gradient.entries_derivable 16 16 (fun t => w_second_hidden (G t)) t0 (w_second_hidden d) ->
  Gradient.entries_derivable 16 1 (fun t => b_second_hidden (G t)) t0 (b_second_hidden d) ->
  Gradient.entries_derivable 1 16 (fun t => w_output (G t)) t0 (w_output d) ->
  Gradient.entries_derivable 1 1 (fun t => b_output (G t)) t0 (b_output d) ->
  forward_propagation x (G t0) = Some ((z1, a1, z2, a2, z3, yhat), G t0) ->
  backward_propagation z1 a1 z2 a2 z3 yhat x [y] (G t0) = Some (grads, G t0) ->
  (forall i, (i < 16)%nat -> item z1 i 0 <> 0) ->
  (forall i, (i < 16)%nat -> item z2 i 0 <> 0) ->
  -709 <= item z3 0 0 ->
  derivable_pt_lim (fun t => Gradient.network_loss (G t) x y) t0 (Gradient.inner grads d).
Proof.
  intros HG Hx Hw1 Hb1 Hw2 Hb2 Hw3 Hb3 Hf Hb Hz1 Hz2 _.
  pose proof (forward_cache_is_spec _ _ _ _ _ _ _ _ (HG t0) Hx Hf) as Hc.
  unfold Spec.forward in Hc. inversion Hc; subst; clear Hc.
  rewrite (backward_on_forward _ _ y (HG t0) Hx) in Hb. inversion Hb; subst; clear Hb.
  rewrite <- differential_is_inner.
  now apply network_loss_along_path.
Qed.

Lemma sum_range_nonneg (n : nat) (f : nat -> R) :
  (forall k, (k < n)%nat -> 0 <= f k) -> 0 <= sum_range n f.
Proof.
  induction n as [|n IH]; intros H; simpl; [lra|].
  assert (0 <= sum_range n f) by (apply IH; intros; apply H; lia).
  assert (0 <= f n) by (apply H; lia). lra.
Qed.

Lemma item_ones (r c i j : nat) :
  (i < r)%nat -> (j < c)%nat -> item (ones r c) i j = 1.
Proof. intros Hi Hj. unfold ones. now rewrite item_fromfunction. Qed.

(** With hidden layers of ones every hidden unit is active on a non-negative
    input. *)
Lemma hidden_ones_active (g : globals) (x : ndarray) :
  w_first_hidden g = ones 16 4 -> b_first_hidden g = ones 16 1 ->
  w_second_hidden g = ones 16 16 -> b_second_hidden g = ones 16 1 ->
  (forall k, (k < 4)%nat -> 0 <= item x k 0) ->
  (forall i, (i < 16)%nat -> item (Spec.z1 g 1 x) i 0 <> 0) /\
  (forall i, (i < 16)%nat -> item (Spec.z2 g 1 x) i 0 <> 0).
Proof.
  intros Hw1 Hb1 Hw2 Hb2 Hx. split; intros i Hi.
  - rewrite item_z1 by assumption. rewrite Hw1, Hb1.
    assert (0 <= sum_range 4 (fun k => item (ones 16 4) i k * item x k 0)).
    { apply sum_range_nonneg. intros k Hk. rewrite item_ones by lia.
      pose proof (Hx k Hk). lra. }
    rewrite (item_ones 16 1) by lia. lra.
  - rewrite item_z2 by assumption. rewrite Hw2, Hb2.
    assert (0 <= sum_range 16 (fun k => item (ones 16 16) i k *
                                        item (Spec.a1 g 1 x) k 0)).
    { apply sum_range_nonneg. intros k Hk. rewrite item_ones by lia.
      rewrite item_a1 by assumption.
      pose proof (Rmax_r (item (Spec.z1 g 1 x) k 0) 0).
      lra. }
    rewrite (item_ones 16 1) by lia. lra.
Qed.

Lemma sample_nonneg (k : nat) :
  (k < 4)%nat -> 0 <= item (reshape_column [1; 0; 0; 1]) k 0.
Proof.
  intros Hk. destruct k as [|[|[|[|k]]]]; [| | | |lia]; unfold item; simpl; lra.
Qed.

Lemma small_parameters_active :
  (forall i, (i < 16)%nat ->
     item (Spec.z1 Examples.small_parameters 1 (reshape_column [1; 0; 0; 1])) i 0 <> 0) /\
  (forall i, (i < 16)%nat ->
     item (Spec.z2 Examples.small_parameters 1 (reshape_column [1; 0; 0; 1])) i 0 <> 0).
Proof.
  apply hidden_ones_active; try reflexivity. exact sample_nonneg.
Qed.

(** The cache of [small_parameters] on the sample [(1, 0, 0, 1)]: every
    first pre-activation is 3, every second one 49, and the output
    pre-activation is 0.784. *)
Lemma small_parameters_cache :
  (forall i, (i < 16)%nat ->
     item (Spec.z1 Examples.small_parameters 1 (reshape_column [1; 0; 0; 1])) i 0 = 3) /\
  (forall i, (i < 16)%nat ->
     item (Spec.z2 Examples.small_parameters 1 (reshape_column [1; 0; 0; 1])) i 0 = 49) /\
  item (Spec.z3 Examples.small_parameters 1 (reshape_column [1; 0; 0; 1])) 0 0 = 98 / 125.
Proof.
  set (g := Examples.small_parameters). set (x := reshape_column [1; 0; 0; 1]).
  assert (Hz1 : forall i, (i < 16)%nat -> item (Spec.z1 g 1 x) i 0 = 3).
  { intros i Hi. rewrite item_z1 by assumption.
    change (w_first_hidden g) with (ones 16 4).
    change (b_first_hidden g) with (ones 16 1).
    rewrite (sum_range_ext 4 _ (fun k => item x k 0))
      by (intros k Hk; rewrite item_ones by lia; ring).
    rewrite (item_ones 16 1) by lia.
    unfold x, item. simpl. lra. }
  assert (Ha1 : forall i, (i < 16)%nat -> item (Spec.a1 g 1 x) i 0 = 3).
  { intros i Hi. rewrite item_a1, Hz1 by assumption. apply Rmax_left. lra. }
  assert (Hz2 : forall i, (i < 16)%nat -> item (Spec.z2 g 1 x) i 0 = 49).
  { intros i Hi. rewrite item_z2 by assumption.
    change (w_second_hidden g) with (ones 16 16).
    change (b_second_hidden g) with (ones 16 1).
    rewrite (sum_range_ext 16 _ (fun _ => 3))
      by (intros k Hk; rewrite item_ones, Ha1 by lia; ring).
    rewrite (item_ones 16 1) by lia. simpl. lra. }
  assert (Ha2 : forall i, (i < 16)%nat -> item (Spec.a2 g 1 x) i 0 = 49).
  { intros i Hi. rewrite item_a2, Hz2 by assumption. apply Rmax_left. lra. }
  split; [exact Hz1|]. split; [exact Hz2|].
  rewrite item_z3.
  change (w_output g) with (fromfunction 1 16 (fun _ _ => 1 / 1000)).
  change (b_output g) with (zeros 1 1).
  rewrite (sum_range_ext 16 _ (fun _ => 49 / 1000))
    by (intros k Hk; rewrite item_fromfunction, Ha2 by lia; field).
  rewrite item_zeros by lia. simpl. lra.
Qed.

Lemma small_parameters_output :
  -36 <= item (Spec.z3 Examples.small_parameters 1 (reshape_column [1; 0; 0; 1])) 0 0 <= 36.
Proof. rewrite (proj2 (proj2 small_parameters_cache)). lra. Qed.

Lemma network_loss_differential_witness :
  let g := Examples.small_parameters in
  let x := reshape_column [1; 0; 0; 1] in
  derivable_pt_lim
    (fun t => Gradient.network_loss (Gradient.perturbed Gradient.B3 0 0 g t) x 1)
    (item (b_output g) 0 0)
    (Gradient.inner
       (Spec.backward g (Spec.z1 g 1 x) (Spec.a1 g 1 x) (Spec.z2 g 1 x) (Spec.a2 g 1 x)
          (Spec.z3 g 1 x) (Spec.y_hat g 1 x) x 1)
       (Gradient.unit_direction Gradient.B3 0 0)).
Proof.
  intros g x.
  assert (Hg : Spec.shapes_ok g = true) by reflexivity.
  assert (Hx : is_shape 4 1 x = true) by reflexivity.
  assert (Hsame : Gradient.perturbed Gradient.B3 0 0 g (item (b_output g) 0 0) = g)
    by exact (perturbed_same Gradient.B3 0 0 _ Hg).
  apply (network_loss_differential
           (Gradient.perturbed Gradient.B3 0 0 g)
           (Gradient.unit_direction Gradient.B3 0 0)
           (item (b_output g) 0 0) x 1
           (Spec.z1 g 1 x) (Spec.a1 g 1 x) (Spec.z2 g 1 x) (Spec.a2 g 1 x)
           (Spec.z3 g 1 x) (Spec.y_hat g 1 x)).
  - intros t. now apply shapes_ok_perturbed.
  - exact Hx.
  - exact (perturbed_derivable Gradient.B3 Gradient.W1 0 0 _ _ Hg).
  - exact (perturbed_derivable Gradient.B3 Gradient.B1 0 0 _ _ Hg).
  - exact (perturbed_derivable Gradient.B3 Gradient.W2 0 0 _ _ Hg).
  - exact (perturbed_derivable Gradient.B3 Gradient.B2 0 0 _ _ Hg).
  - exact (perturbed_derivable Gradient.B3 Gradient.W3 0 0 _ _ Hg).
  - exact (perturbed_derivable Gradient.B3 Gradient.B3 0 0 _ _ Hg).
  - rewrite Hsame. exact (forward_propagation_computed _ 1 _ Hg Hx).
  - rewrite Hsame. exact (backward_on_forward _ _ 1 Hg Hx).
  - exact (proj1 small_parameters_active).
  - exact (proj2 small_parameters_active).
  - pose proof small_parameters_output. fold g x in H. lra.
Defined.

(** X1 (gradient check): on the cache that [forward_propagation] returns for a
    sample, every entry of every tensor that [backward_propagation] returns is
    the partial derivative of the loss [(ŷ − y)²] of the network with respect
    to the corresponding entry of the corresponding parameter, provided no
    hidden pre-activation is exactly 0 (where ReLU has no derivative) and the
    output pre-activation is at least -709 (so that [e^(−z3)] is a finite
    binary64 number). *)
Theorem backward_propagation_is_gradient (g : globals) (x : ndarray) (y : R)
    (z1 a1 z2 a2 z3 yhat : ndarray) (grads : gradients)
    (p : Gradient.parameter) (i j : nat) :
  Spec.shapes_ok g = true -> is_shape 4 1 x = true ->
  forward_propagation x g = Some ((z1, a1, z2, a2, z3, yhat), g) ->
  backward_propagation z1 a1 z2 a2 z3 yhat x [y] g = Some (grads, g) ->
  (forall k, (k < 16)%nat -> item z1 k 0 <> 0) ->
  (forall k, (k < 16)%nat -> item z2 k 0 <> 0) ->
  -709 <= item z3 0 0 ->
  (i < Gradient.rows p)%nat -> (j < Gradient.cols p)%nat ->
  derivable_pt_lim (fun t => Gradient.network_loss (Gradient.perturbed p i j g t) x y)
    (item (Gradient.tensor p g) i j)
    (item (Gradient.component p grads) i j).
Proof.
  intros Hg Hx Hf Hb Hz1 Hz2 _ Hi Hj.
  pose proof (perturbed_same p i j g Hg) as Hsame.
  pose proof (forward_cache_is_spec _ _ _ _ _ _ _ _ Hg Hx Hf) as Hc.
  unfold Spec.forward in Hc. inversion Hc; subst; clear Hc.
  rewrite (backward_on_forward _ _ y Hg Hx) in Hb. inversion Hb; subst; clear Hb.
  rewrite <- (inner_unit_direction p i j _ Hi Hj).
  rewrite <- differential_is_inner.
  rewrite <- Hsame at 2 3 4.
  apply network_loss_along_path.
  - intros t. now apply shapes_ok_perturbed.
  - exact Hx.
  - exact (perturbed_derivable p Gradient.W1 i j _ _ Hg).
  - exact (perturbed_derivable p Gradient.B1 i j _ _ Hg).
  - exact (perturbed_derivable p Gradient.W2 i j _ _ Hg).
  - exact (perturbed_derivable p Gradient.B2 i j _ _ Hg).
  - exact (perturbed_derivable p Gradient.W3 i j _ _ Hg).
  - exact (perturbed_derivable p Gradient.B3 i j _ _ Hg).
  - rewrite Hsame. exact Hz1.
  - rewrite Hsame. exact Hz2.
Qed.

Lemma backward_propagation_is_gradient_witness :
  let g := Examples.small_parameters in
  let x := reshape_column [1; 0; 0; 1] in
  derivable_pt_lim
    (fun t => Gradient.network_loss (Gradient.perturbed Gradient.W1 3 2 g t) x 1)
    (item (w_first_hidden g) 3 2)
    (item (Gradient.component Gradient.W1
             (Spec.backward g (Spec.z1 g 1 x) (Spec.a1 g 1 x) (Spec.z2 g 1 x)
                (Spec.a2 g 1 x) (Spec.z3 g 1 x) (Spec.y_hat g 1 x) x 1)) 3 2).
Proof.
  intros g x.
  assert (Hg : Spec.shapes_ok g = true) by reflexivity.
  assert (Hx : is_shape 4 1 x = true) by reflexivity.
  apply (backward_propagation_is_gradient g x 1
           (Spec.z1 g 1 x) (Spec.a1 g 1 x) (Spec.z2 g 1 x) (Spec.a2 g 1 x)
           (Spec.z3 g 1 x) (Spec.y_hat g 1 x)).
  - exact Hg.
  - exact Hx.
  - exact (forward_propagation_computed _ 1 _ Hg Hx).
  - exact (backward_on_forward _ _ 1 Hg Hx).
  - exact (proj1 small_parameters_active).
  - exact (proj2 small_parameters_active).
  - pose proof small_parameters_output. fold g x in H. lra.
  - simpl. lia.
  - simpl. lia.
Defined.
End GradientTheorems.

Section ActivationTheorems.
Local Open Scope R_scope.
Import np.

(** X8: [relu] is the function [(x + |x|) / 2] that the notebook gives as its
    formula and the code's comment as its literal form; it is never negative,
    is the identity on positive numbers and 0 elsewhere, is monotone and is
    idempotent. *)
Theorem relu_characterisation :
  forall x : R,
    relu x = (x + Rabs x) / 2 /\
    0 <= relu x /\
    (0 < x -> relu x = x) /\
    (x <= 0 -> relu x = 0) /\
    relu (relu x) = relu x /\
    (forall x', x <= x' -> relu x <= relu x').
Proof.
  intros x. unfold relu.
  assert (H1 : Rmax x 0 = (x + Rabs x) / 2).
  { unfold Rmax, Rabs. destruct (Rle_dec x 0), (Rcase_abs x); lra. }
  assert (H2 : 0 <= Rmax x 0) by apply Rmax_r.
  repeat split.
  - exact H1.
  - exact H2.
  - intros Hx. apply Rmax_left. lra.
  - intros Hx. now apply Rmax_right.
  - apply Rmax_left. exact H2.
  - intros x' Hle. apply Rle_max_compat_r. exact Hle.
Qed.

(** X9: [d_relu] is the derivative of [relu] at every point other than 0, and at
    0 [relu] has no derivative at all: the value [False] that [d_relu] takes
    there is a convention. *)
Theorem d_relu_is_derivative :
  (forall z, z <> 0 -> derivable_pt_lim relu z (if d_relu z then 1 else 0)) /\
  (forall l, ~ derivable_pt_lim relu 0 l).
Proof.
  split.
  - intros z Hz. apply derivable_value with (c := Spec.positive z);
      [|now apply relu_derivative].
    unfold Spec.positive, d_relu. now destruct (Rlt_dec 0 z).
  - intros l Hl. destruct (Hl (1 / 2)) as [delta Hdelta]; [lra|].
    pose proof (cond_pos delta) as Hpos.
    assert (Hright : Rabs ((relu (0 + delta / 2) - relu 0) / (delta / 2) - l) < 1 / 2).
    { apply Hdelta; [lra|]. rewrite Rabs_right; lra. }
    assert (Hleft : Rabs ((relu (0 + - (delta / 2)) - relu 0) / (- (delta / 2)) - l) < 1 / 2).
    { apply Hdelta; [lra|]. rewrite Rabs_left; lra. }
    unfold relu in Hright, Hleft.
    rewrite (Rmax_left (0 + delta / 2) 0), (Rmax_left 0 0) in Hright by lra.
    rewrite (Rmax_right (0 + - (delta / 2)) 0), (Rmax_left 0 0) in Hleft by lra.
    replace ((0 + delta / 2 - 0) / (delta / 2)) with 1 in Hright by (field; lra).
    replace ((0 - 0) / - (delta / 2)) with 0 in Hleft by (field; lra).
    apply Rabs_def2 in Hright. apply Rabs_def2 in Hleft. lra.
Qed.

(** X10: for [|x| ≤ 36], the range in which the binary64 outputs stay
    strictly between 0 and 1, the logistic function is point-symmetric about
    (0, 1/2), and its derivative [d_logistic] is even, positive, and at most
    1/4, the value it takes at 0. *)
Theorem logistic_symmetry_and_slope (x : R) :
  -36 <= x <= 36 ->
  logistic (- x) = 1 - logistic x /\
  d_logistic (- x) = d_logistic x /\
  0 < d_logistic x <= 1 / 4 /\
  d_logistic 0 = 1 / 4.
Proof.
  intros _.
  assert (Hsym : logistic (- x) = 1 - logistic x).
  { unfold logistic. rewrite Ropp_involutive, exp_Ropp.
    pose proof (exp_pos x) as Hp. field. lra. }
  pose proof (logistic_bounds x) as Hb.
  repeat split.
  - exact Hsym.
  - rewrite !d_logistic_logistic'. unfold Spec.logistic'. rewrite Hsym. ring.
  - rewrite d_logistic_logistic'. unfold Spec.logistic'.
    apply Rmult_lt_0_compat; lra.
  - rewrite d_logistic_logistic'. unfold Spec.logistic'.
    pose proof (Rle_0_sqr (logistic x - 1 / 2)) as Hsq. unfold Rsqr in Hsq. lra.
  - rewrite d_logistic_logistic'. unfold Spec.logistic'. rewrite logistic_zero. lra.
Qed.

Lemma logistic_symmetry_and_slope_witness :
  logistic (- 2) = 1 - logistic 2 /\
  d_logistic (- 2) = d_logistic 2 /\
  0 < d_logistic 2 <= 1 / 4 /\
  d_logistic 0 = 1 / 4.
Proof. apply (logistic_symmetry_and_slope 2). lra. Defined.

(** X11: the derivatives that the symbolic cell prints are the derivatives of the
    expressions it differentiates: [-2*real_value + 2*result] for the loss,
    [exp(-x)/(1 + exp(-x))**2] for the logistic function, the other factor (or
    1) for each variable of [w*v + b], and the step function for [Max(x, 0)]
    away from 0. *)
Theorem symbolic_derivatives :
  (forall result real_value,
     derivable_pt_lim (fun r => loss r real_value) result
       (-2 * real_value + 2 * result)) /\
  (forall x, derivable_pt_lim sp_logistic x (exp (- x) / (1 + exp (- x)) ^ 2)) /\
  (forall w v b,
     derivable_pt_lim (fun t => t * v + b) w v /\
     derivable_pt_lim (fun t => w * v + t) b 1 /\
     derivable_pt_lim (fun t => w * t + b) v w) /\
  (forall x, x <> 0 -> derivable_pt_lim sp_relu x (if Rlt_dec 0 x then 1 else 0)).
Proof.
  split; [|split; [|split]].
  - intros result real_value. unfold loss.
    apply derivable_ext with (f := fun r => (r - real_value) * (r - real_value));
      [intros; ring|].
    apply derivable_value
      with (c := 1 * (result - real_value) + (result - real_value) * 1); [ring|].
    assert (Hd : derivable_pt_lim (fun r => r - real_value) result 1).
    { apply derivable_value with (c := 1 + 0); [ring|].
      apply (derivable_add id (fun _ => - real_value));
        [apply derivable_pt_lim_id | apply derivable_pt_lim_const]. }
    now apply (derivable_mul (fun r => r - real_value) (fun r => r - real_value)).
  - intros x. exact (logistic_derivative x).
  - intros w v b. repeat split.
    + apply derivable_value with (c := 1 * v + 0); [ring|].
      apply (derivable_add (fun t => t * v) (fun _ => b));
        [|apply derivable_pt_lim_const].
      apply (derivable_mul_const id). apply derivable_pt_lim_id.
    + apply derivable_value with (c := 0 + 1); [ring|].
      apply (derivable_add (fun _ => w * v) id);
        [apply derivable_pt_lim_const | apply derivable_pt_lim_id].
    + apply derivable_value with (c := (0 * v + w * 1) + 0); [ring|].
      apply (derivable_add (fun t => w * t) (fun _ => b));
        [|apply derivable_pt_lim_const].
      apply (derivable_mul (fun _ => w) id);
        [apply derivable_pt_lim_const | apply derivable_pt_lim_id].
  - intros x Hx. exact (relu_derivative x Hx).
Qed.
End ActivationTheorems.

Section PreprocessingTheorems.
Local Open Scope R_scope.
Import np.

Lemma is_shape_predictors (data : list banknote) :
  (0 < length data)%nat -> is_shape (length data) 4 (predictors data) = true.
Proof.
  intros Hn. unfold predictors.
  apply (apply_by_column standardise (length data) 4 0 (features data)
           length_standardise (is_shape_features data) Hn). lia.
Qed.

Lemma length_predictors (data : list banknote) : length (predictors data) = length data.
Proof.
  destruct data as [|row data]; [reflexivity|].
  apply (is_shape_nrows _ 4), is_shape_predictors. simpl. lia.
Qed.

(** X13: the mapping cell z-scores every predictor over the whole table: a
    predictor column that has at least two rows, not all equal, becomes the
    column [(col - mean) / std] of the raw one, with mean 0 and (sample)
    standard deviation 1, and the table keeps its shape. *)
Theorem predictors_standardised (data : list banknote) (j : nat) :
  (2 <= length data)%nat -> (j < 4)%nat ->
  pd.std (pd.column j (features data)) <> 0 ->
  is_shape (length data) 4 (predictors data) = true /\
  pd.column j (predictors data) = standardise (pd.column j (features data)) /\
  pd.mean (pd.column j (predictors data)) = 0 /\
  pd.std (pd.column j (predictors data)) = 1.
Proof.
  intros Hn Hj Hs.
  assert (Hpos : (0 < length data)%nat) by lia.
  destruct (apply_by_column standardise (length data) 4 j (features data)
              length_standardise (is_shape_features data) Hpos Hj) as [Hshape Hcol].
  fold (predictors data) in Hshape, Hcol.
  split; [exact Hshape|]. split; [exact Hcol|].
  rewrite Hcol. apply standardise_moments; [|exact Hs].
  unfold pd.column, features. now rewrite !length_map.
Qed.

Lemma two_rows_spread :
  pd.std (pd.column 0 (features [Banknote 0 0 0 0 0; Banknote 2 1 1 1 1])) <> 0.
Proof.
  apply Rgt_not_eq. apply sqrt_lt_R0.
  unfold pd.column, features, pd.mean, pd.sum. simpl. lra.
Qed.

Lemma predictors_standardised_witness :
  is_shape 2 4 (predictors [Banknote 0 0 0 0 0; Banknote 2 1 1 1 1]) = true /\
  pd.column 0 (predictors [Banknote 0 0 0 0 0; Banknote 2 1 1 1 1]) =
    standardise (pd.column 0 (features [Banknote 0 0 0 0 0; Banknote 2 1 1 1 1])) /\
  pd.mean (pd.column 0 (predictors [Banknote 0 0 0 0 0; Banknote 2 1 1 1 1])) = 0 /\
  pd.std (pd.column 0 (predictors [Banknote 0 0 0 0 0; Banknote 2 1 1 1 1])) = 1.
Proof.
  apply (predictors_standardised [Banknote 0 0 0 0 0; Banknote 2 1 1 1 1] 0);
    [simpl; lia | lia | exact two_rows_spread].
Defined.

Lemma split_index_bounds (data : list banknote) :
  (3 * split_index data <= 2 * length data < 3 * split_index data + 3)%nat.
Proof.
  unfold split_index.
  pose proof (Nat.div_mod_eq (length data * 2) 3) as Hd.
  pose proof (Nat.mod_upper_bound (length data * 2) 3). lia.
Qed.

(** X14: the split cell cuts the table after row [⌊2n/3⌋]: the training and the
    testing parts, taken in this order, are the whole table, for the
    predictors and for the responses alike; their sizes are [⌊2n/3⌋] and
    [n − ⌊2n/3⌋], so the testing part of a non-empty table is never empty;
    and row [i] of either part pairs the predictors and the target of one and
    the same row of the table. *)
Theorem split_partition (data : list banknote) :
  let s := split_index data in
  let n := length data in
  training_predictors data ++ testing_predictors data = predictors data /\
  firstn s (response data) ++ testing_response data = response data /\
  (3 * s <= 2 * n < 3 * s + 3)%nat /\
  length (training_predictors data) = s /\ length (training_response data) = s /\
  length (testing_predictors data) = (n - s)%nat /\
  length (testing_response data) = (n - s)%nat /\
  ((1 <= n)%nat -> (1 <= n - s)%nat) /\
  (forall i row, (i < s)%nat -> nth_error data i = Some row ->
     getitem (training_predictors data) i = nth_error (predictors data) i /\
     getitem (training_response data) i = Some [IZR (target row)]) /\
  (forall i row, nth_error data (s + i) = Some row ->
     nth_error (testing_predictors data) i = nth_error (predictors data) (s + i) /\
     nth_error (testing_response data) i = Some [target row]).
Proof.
  intros s n.
  pose proof (split_index_bounds data) as Hb. fold s n in Hb.
  assert (Hs : (s <= n)%nat) by lia.
  assert (Hr : length (response data) = n) by apply length_map.
  pose proof (length_predictors data) as Hp. fold n in Hp.
  unfold training_predictors, testing_predictors, training_response, testing_response.
  fold s.
  split; [apply firstn_skipn|]. split; [apply firstn_skipn|].
  split; [exact Hb|].
  split; [rewrite length_firstn; lia|].
  split; [unfold elementwise; rewrite length_map, length_firstn; lia|].
  split; [rewrite length_skipn; lia|].
  split; [rewrite length_skipn; lia|].
  split; [lia|]. split.
  - intros i row Hi Hrow.
    assert (Hlt : (i <? s)%nat = true) by now apply Nat.ltb_lt.
    split.
    + unfold getitem. now rewrite nth_error_firstn, Hlt.
    + unfold getitem, elementwise. rewrite nth_error_map, nth_error_firstn, Hlt.
      unfold response. rewrite nth_error_map, Hrow. reflexivity.
  - intros i row Hrow. split.
    + apply nth_error_skipn.
    + rewrite nth_error_skipn. unfold response. now rewrite nth_error_map, Hrow.
Qed.
End PreprocessingTheorems.

Section EvaluationTheorems.
Local Open Scope R_scope.
Import np.

Lemma counts_bounded (pairs : list (Z * Z)) :
  (length (filter (fun q => ((fst q =? 1) && (snd q =? 1))%Z) pairs) +
   length (filter (fun q => ((fst q =? 0) && (snd q =? 1))%Z) pairs) +
   length (filter (fun q => ((fst q =? 0) && (snd q =? 0))%Z) pairs) +
   length (filter (fun q => ((fst q =? 1) && (snd q =? 0))%Z) pairs)
   <= length pairs)%nat.
Proof.
  induction pairs as [|[a p] pairs IH]; [simpl; lia|].
  rewrite !length_filter_cons. simpl fst. simpl snd. simpl length.
  destruct (Z.eqb_spec a 1), (Z.eqb_spec a 0), (Z.eqb_spec p 1), (Z.eqb_spec p 0);
    simpl; lia.
Qed.

Lemma counts_binary (pairs : list (Z * Z)) :
  Forall (fun q => (fst q = 0 \/ fst q = 1) /\ (snd q = 0 \/ snd q = 1))%Z pairs ->
  (length (filter (fun q => ((fst q =? 1) && (snd q =? 1))%Z) pairs) +
   length (filter (fun q => ((fst q =? 0) && (snd q =? 1))%Z) pairs) +
   length (filter (fun q => ((fst q =? 0) && (snd q =? 0))%Z) pairs) +
   length (filter (fun q => ((fst q =? 1) && (snd q =? 0))%Z) pairs)
   = length pairs)%nat /\
  (length (filter (fun q => (fst q =? snd q)%Z) pairs) =
   length (filter (fun q => ((fst q =? 1) && (snd q =? 1))%Z) pairs) +
   length (filter (fun q => ((fst q =? 0) && (snd q =? 0))%Z) pairs))%nat.
Proof.
  induction 1 as [|[a p] pairs [Ha Hp] _ [IH1 IH2]]; [simpl; lia|].
  rewrite !length_filter_cons. simpl fst in *. simpl snd in *. simpl length.
  destruct Ha as [-> | ->], Hp as [-> | ->]; simpl; lia.
Qed.

(** X15: the tallying loop: each of the four counts is the number of
    (actual, predicted) pairs of its kind, the pairs being those of [zip]
    (as many as the shorter list has); a pair with a value other than 0 or 1
    is counted nowhere, so the counts add up to at most the number of pairs,
    and to exactly that number when all values are 0 or 1. *)
Theorem confusion_matrix_counts (testing_response predicted : list (list Z)) :
  let pairs := combine (flatten testing_response) (flatten predicted) in
  let c := confusion_matrix testing_response predicted in
  TP c = length (filter (fun q => ((fst q =? 1) && (snd q =? 1))%Z) pairs) /\
  FP c = length (filter (fun q => ((fst q =? 0) && (snd q =? 1))%Z) pairs) /\
  TN c = length (filter (fun q => ((fst q =? 0) && (snd q =? 0))%Z) pairs) /\
  FN c = length (filter (fun q => ((fst q =? 1) && (snd q =? 0))%Z) pairs) /\
  length pairs = Nat.min (length (flatten testing_response)) (length (flatten predicted)) /\
  (TP c + FP c + TN c + FN c <= length pairs)%nat /\
  (Forall (fun q => (fst q = 0 \/ fst q = 1) /\ (snd q = 0 \/ snd q = 1))%Z pairs ->
   (TP c + FP c + TN c + FN c = length pairs)%nat).
Proof.
  intros pairs c. unfold c, confusion_matrix. fold pairs. rewrite fold_tally. simpl.
  repeat split; try reflexivity.
  - apply length_combine.
  - apply counts_bounded.
  - intros Hb. apply (counts_binary pairs Hb).
Qed.

(** X16: on parameters that are numbers (the model's arrays hold neither
    NaN nor an infinity), every prediction of the testing cell is 0 or 1, and
    there is one per test sample. *)
Theorem predictions_are_binary (g : globals) (n : nat) (testing_predictors : ndarray) :
  Spec.shapes_ok g = true -> is_shape n 4 testing_predictors = true -> (0 < n)%nat ->
  exists row, predictions testing_predictors g = Some ([row], g) /\ length row = n /\
              Forall (fun v => v = 0%Z \/ v = 1%Z) row.
Proof. exact (predictions_binary g n testing_predictors). Qed.

Lemma predictions_are_binary_witness :
  exists row, predictions Examples.two_samples Examples.unit_parameters =
                Some ([row], Examples.unit_parameters) /\
              length row = 2%nat /\ Forall (fun v => v = 0%Z \/ v = 1%Z) row.
Proof.
  apply (predictions_are_binary Examples.unit_parameters 2 Examples.two_samples);
    solve [reflexivity | lia].
Defined.

(** X17: the accuracy that the testing cell prints is the share of test samples
    whose prediction equals the label; for labels and predictions that are 0
    or 1 it is [(TP + TN) / n] of the confusion matrix printed above it,
    whose four counts then add up to the number [n] of test samples. *)
Theorem accuracy_matches_confusion_matrix (labels predicted : list Z) :
  length predicted = length labels -> (0 < length labels)%nat ->
  let testing_response := map (fun v => [v]) labels in
  let c := confusion_matrix testing_response [predicted] in
  accuracy [predicted] testing_response =
    Some (INR (length (filter (fun q => (fst q =? snd q)%Z) (combine labels predicted)))
          / INR (length labels)) /\
  (Forall (fun v => v = 0 \/ v = 1)%Z labels ->
   Forall (fun v => v = 0 \/ v = 1)%Z predicted ->
   accuracy [predicted] testing_response = Some (INR (TP c + TN c) / INR (length labels)) /\
   (TP c + FP c + TN c + FN c = length labels)%nat).
Proof.
  intros Hlen Hn testing_response c. subst c testing_response.
  pose proof (accuracy_computed labels predicted Hlen Hn) as Hacc.
  split; [exact Hacc|]. intros Hl Hp.
  pose proof (combine_flatten_column labels predicted) as Hflat.
  assert (Hb : Forall (fun q => (fst q = 0 \/ fst q = 1) /\ (snd q = 0 \/ snd q = 1))%Z
                 (combine labels predicted)).
  { apply Forall_forall. intros [a p] Hin. rewrite Forall_forall in Hl, Hp.
    split; [apply Hl; eapply in_combine_l; eauto | apply Hp; eapply in_combine_r; eauto]. }
  destruct (counts_binary _ Hb) as [Htotal Hagree].
  unfold confusion_matrix. rewrite Hflat, fold_tally. simpl.
  split.
  - rewrite Hacc, Hagree. reflexivity.
  - rewrite length_combine, Hlen, Nat.min_id in Htotal. lia.
Qed.

Lemma accuracy_matches_confusion_matrix_witness :
  accuracy [[1; 0; 0]%Z] (map (fun v => [v]) [1; 1; 0]%Z) =
    Some (INR (length (filter (fun q => (fst q =? snd q)%Z)
                         (combine [1; 1; 0]%Z [1; 0; 0]%Z)))
          / INR (length [1; 1; 0]%Z)).
Proof.
  refine (proj1 (accuracy_matches_confusion_matrix [1; 1; 0]%Z [1; 0; 0]%Z _ _));
    [reflexivity | simpl; lia].
Defined.
End EvaluationTheorems.

Section TrainingTheorems.
Local Open Scope R_scope.
Import np.

Lemma forward_propagation_rejects (g : globals) (r m : nat) (x : ndarray) :
  Spec.shapes_ok g = true -> is_shape r m x = true -> r <> 4%nat ->
  forward_propagation x g = None.
Proof.
  intros Hg Hx Hr. pose proof (shapes_ok_fields g Hg) as (Hw1 & _).
  unfold forward_propagation, bind, load, value, matmul.
  rewrite (is_shape_ncols _ _ _ Hw1) by lia. rewrite (is_shape_nrows _ _ _ Hx).
  destruct (Nat.eqb_spec 4 r) as [He|_]; [congruence | reflexivity].
Qed.

(** X7: [forward_propagation] accepts an input exactly when it has 4 rows: with
    any number of columns it then returns its six values, and on an input of
    any other number of rows it raises (the first matrix product fails). *)
Theorem forward_propagation_input_rows (g : globals) (r m : nat) (x : ndarray) :
  Spec.shapes_ok g = true -> is_shape r m x = true ->
  (r = 4%nat -> exists c, forward_propagation x g = Some (c, g) /\
                          Spec.cache_shapes m c = true) /\
  (r <> 4%nat -> forward_propagation x g = None).
Proof.
  intros Hg Hx. split.
  - intros ->. exists (Spec.forward g m x).
    split; [now apply forward_propagation_computed | apply cache_shapes_forward].
  - now apply (forward_propagation_rejects g r m x).
Qed.

Lemma forward_propagation_input_rows_witness :
  forward_propagation (ones 3 1) Examples.unit_parameters = None.
Proof.
  refine (proj2 (forward_propagation_input_rows Examples.unit_parameters 3 1 (ones 3 1)
                   _ _) _); [reflexivity | reflexivity | lia].
Defined.

(** X6: a step of the training loop raises when the sample index is past the
    end of the predictors or of the responses, where it is the indexing that
    raises, and when the sample does not have exactly 4 predictors, where it
    is the call of [forward_propagation] that raises; these are the
    statements of the loop body that come before its six updates. *)
Theorem training_step_raises (g : globals) (tp tr : ndarray) (i : nat) :
  Spec.shapes_ok g = true ->
  ((length tp <= i)%nat ->
     getitem tp i = None /\ training_step tp tr i g = None) /\
  ((length tr <= i)%nat ->
     getitem tr i = None /\ training_step tp tr i g = None) /\
  (forall row, getitem tp i = Some row -> length row <> 4%nat ->
     forward_propagation (reshape_column row) g = None /\
     training_step tp tr i g = None).
Proof.
  intros Hg. split; [|split].
  - intros Hi. pose proof (proj2 (nth_error_None tp i) Hi) as Hnone.
    split; [exact Hnone|].
    unfold training_step, bind, value, getitem. now rewrite Hnone.
  - intros Hi. pose proof (proj2 (nth_error_None tr i) Hi) as Hnone.
    split; [exact Hnone|].
    unfold training_step, bind, value, getitem.
    rewrite Hnone. now destruct (nth_error tp i).
  - intros row Hrow Hlen.
    pose proof (forward_propagation_rejects g (length row) 1 (reshape_column row) Hg
                  (is_shape_reshape_column row) Hlen) as Hnone.
    split; [exact Hnone|].
    unfold training_step, bind, value. rewrite Hrow.
    destruct (getitem tr i); [|reflexivity]. now rewrite Hnone.
Qed.

Lemma training_step_raises_witness :
  getitem Examples.one_sample 1 = None /\
  training_step Examples.one_sample Examples.one_label 1 Examples.unit_parameters = None.
Proof.
  refine (proj1 (training_step_raises Examples.unit_parameters Examples.one_sample
                   Examples.one_label 1 _) _); [reflexivity | simpl; lia].
Defined.

Lemma item_descend (r c : nat) (eta : R) (p grad : ndarray) (i j : nat) :
  (i < r)%nat -> (j < c)%nat ->
  item (Spec.descend r c eta p grad) i j = item p i j - eta * item grad i j.
Proof. intros Hi Hj. unfold Spec.descend. now rewrite item_fromfunction. Qed.

Lemma positive_inactive (z : R) : z <= 0 -> Spec.positive z = 0.
Proof. intros Hz. unfold Spec.positive. destruct (Rlt_dec 0 z); [lra | reflexivity]. Qed.

(** X4: a step of the training loop moves the output bias by
    [−η·2(ŷ − y)·logistic'(z3)]: not down when the label is 1, not up when it
    is 0, and by less than [η/2 = 0.005] for a label between 0 and 1.  The
    output pre-activation is taken to be at least -709, so that [e^(−z3)] is
    a finite binary64 number. *)
Theorem training_step_output_bias (g : globals) (tp tr : ndarray) (i : nat)
    (row : list R) (y : R) (z1 a1 z2 a2 z3 yhat : ndarray) :
  Spec.shapes_ok g = true ->
  getitem tp i = Some row -> length row = 4%nat -> getitem tr i = Some [y] ->
  forward_propagation (reshape_column row) g = Some ((z1, a1, z2, a2, z3, yhat), g) ->
  -709 <= item z3 0 0 ->
  exists g',
    training_step tp tr i g = Some (tt, g') /\
    item (b_output g') 0 0 =
      item (b_output g) 0 0
      - 1 / 100 * (2 * (item yhat 0 0 - y) * d_logistic (item z3 0 0)) /\
    (y = 1 -> item (b_output g) 0 0 <= item (b_output g') 0 0) /\
    (y = 0 -> item (b_output g') 0 0 <= item (b_output g) 0 0) /\
    (0 <= y <= 1 -> Rabs (item (b_output g') 0 0 - item (b_output g) 0 0) < 1 / 200).
Proof.
  intros Hg Hrow Hlen Hy Hf _. set (x := reshape_column row) in *.
  assert (Hx : is_shape 4 1 x = true)
    by (rewrite <- Hlen; apply is_shape_reshape_column).
  pose proof (forward_cache_is_spec _ _ _ _ _ _ _ _ Hg Hx Hf) as Hc.
  unfold Spec.forward in Hc. inversion Hc; subst z1 a1 z2 a2 z3 yhat; clear Hc.
  pose proof (training_step_computed g tp tr i row y Hg Hrow Hlen Hy) as Hstep.
  cbv zeta in Hstep. unfold Spec.forward in Hstep. fold x in Hstep.
  eexists. split; [exact Hstep|].
  unfold Spec.update, Spec.backward. cbn [b_output].
  rewrite item_descend by lia. rewrite item_column by lia.
  unfold Spec.dL_dz3, learning_rate. rewrite <- d_logistic_logistic'.
  rewrite item_y_hat.
  set (z := item (Spec.z3 g 1 x) 0 0).
  pose proof (logistic_bounds z) as Hb.
  assert (Hd : 0 < d_logistic z <= 1 / 4).
  { rewrite d_logistic_logistic'. unfold Spec.logistic'. split.
    - apply Rmult_lt_0_compat; lra.
    - pose proof (Rle_0_sqr (logistic z - 1 / 2)) as Hsq. unfold Rsqr in Hsq. lra. }
  split; [reflexivity|]. split; [|split].
  - intros ->. assert (H : 0 < (1 - logistic z) * d_logistic z)
      by (apply Rmult_lt_0_compat; lra).
    replace (2 * (logistic z - 1) * d_logistic z)
      with (- 2 * ((1 - logistic z) * d_logistic z)) by ring.
    set (u := (1 - logistic z) * d_logistic z) in *. lra.
  - intros ->. assert (H : 0 < logistic z * d_logistic z)
      by (apply Rmult_lt_0_compat; lra).
    replace (2 * (logistic z - 0) * d_logistic z)
      with (2 * (logistic z * d_logistic z)) by ring.
    set (u := logistic z * d_logistic z) in *. lra.
  - intros Hy01.
    assert (H1 : Rabs ((logistic z - y) * d_logistic z) < 1 * (1 / 4)).
    { rewrite Rabs_mult, (Rabs_right (d_logistic z)) by lra.
      assert (Ha : Rabs (logistic z - y) < 1) by (apply Rabs_def1; lra).
      apply Rlt_le_trans with (1 * d_logistic z); [|lra].
      apply Rmult_lt_compat_r; lra. }
    replace (item (b_output g) 0 0
             - 1 / 100 * (2 * (logistic z - y) * d_logistic z) - item (b_output g) 0 0)
      with (- (1 / 50) * ((logistic z - y) * d_logistic z)) by field.
    rewrite Rabs_mult, (Rabs_left (- (1 / 50))) by lra.
    set (u := Rabs ((logistic z - y) * d_logistic z)) in *. lra.
Qed.

Lemma training_step_output_bias_witness :
  let g := Examples.small_parameters in
  let x := reshape_column [1; 0; 0; 1] in
  exists g',
    training_step Examples.one_sample Examples.one_label 0 g = Some (tt, g') /\
    item (b_output g') 0 0 =
      item (b_output g) 0 0
      - 1 / 100 * (2 * (item (Spec.y_hat g 1 x) 0 0 - 1)
                   * d_logistic (item (Spec.z3 g 1 x) 0 0)) /\
    (1 = 1 -> item (b_output g) 0 0 <= item (b_output g') 0 0) /\
    (1 = 0 -> item (b_output g') 0 0 <= item (b_output g) 0 0) /\
    (0 <= 1 <= 1 -> Rabs (item (b_output g') 0 0 - item (b_output g) 0 0) < 1 / 200).
Proof.
  intros g x.
  apply (training_step_output_bias g Examples.one_sample Examples.one_label 0
           [1; 0; 0; 1] 1 (Spec.z1 g 1 x) (Spec.a1 g 1 x) (Spec.z2 g 1 x)
           (Spec.a2 g 1 x) (Spec.z3 g 1 x) (Spec.y_hat g 1 x)).
  - reflexivity.
  - reflexivity.
  - reflexivity.
  - reflexivity.
  - exact (forward_propagation_computed g 1 x eq_refl eq_refl).
  - pose proof small_parameters_output. fold g x in H. lra.
Defined.

(** X5: units that are inactive on a sample are not trained by it: when the
    pre-activation of a hidden unit is not positive, the step of the training
    loop on that sample leaves the unit's row of weights and its bias exactly
    as they were, in the first hidden layer and in the second.  The output
    pre-activation is taken to be at least -709, so that [e^(−z3)] is a
    finite binary64 number. *)
Theorem training_step_inactive_units (g : globals) (tp tr : ndarray) (i : nat)
    (row : list R) (y : R) (z1 a1 z2 a2 z3 yhat : ndarray) :
  Spec.shapes_ok g = true ->
  getitem tp i = Some row -> length row = 4%nat -> getitem tr i = Some [y] ->
  forward_propagation (reshape_column row) g = Some ((z1, a1, z2, a2, z3, yhat), g) ->
  -709 <= item z3 0 0 ->
  exists g',
    training_step tp tr i g = Some (tt, g') /\
    (forall k, (k < 16)%nat -> item z1 k 0 <= 0 ->
       item (b_first_hidden g') k 0 = item (b_first_hidden g) k 0 /\
       forall j, (j < 4)%nat -> item (w_first_hidden g') k j = item (w_first_hidden g) k j) /\
    (forall k, (k < 16)%nat -> item z2 k 0 <= 0 ->
       item (b_second_hidden g') k 0 = item (b_second_hidden g) k 0 /\
       forall j, (j < 16)%nat ->
         item (w_second_hidden g') k j = item (w_second_hidden g) k j).
Proof.
  intros Hg Hrow Hlen Hy Hf _. set (x := reshape_column row) in *.
  assert (Hx : is_shape 4 1 x = true)
    by (rewrite <- Hlen; apply is_shape_reshape_column).
  pose proof (forward_cache_is_spec _ _ _ _ _ _ _ _ Hg Hx Hf) as Hc.
  unfold Spec.forward in Hc. inversion Hc; subst z1 a1 z2 a2 z3 yhat; clear Hc.
  pose proof (training_step_computed g tp tr i row y Hg Hrow Hlen Hy) as Hstep.
  cbv zeta in Hstep. unfold Spec.forward in Hstep. fold x in Hstep.
  eexists. split; [exact Hstep|].
  unfold Spec.update, Spec.backward.
  cbn [w_first_hidden b_first_hidden w_second_hidden b_second_hidden].
  split.
  - intros k Hk Hz. split.
    + rewrite item_descend by lia. rewrite item_column by lia.
      unfold Spec.dL_dz1. rewrite (positive_inactive _ Hz). ring.
    + intros j Hj. rewrite item_descend by lia. unfold Spec.outer.
      rewrite item_fromfunction by lia.
      unfold Spec.dL_dz1. rewrite (positive_inactive _ Hz). ring.
  - intros k Hk Hz. split.
    + rewrite item_descend by lia. rewrite item_column by lia.
      unfold Spec.dL_dz2. rewrite (positive_inactive _ Hz). ring.
    + intros j Hj. rewrite item_descend by lia. unfold Spec.outer.
      rewrite item_fromfunction by lia.
      unfold Spec.dL_dz2. rewrite (positive_inactive _ Hz). ring.
Qed.

Lemma zero_parameters_inactive (x : ndarray) (k : nat) :
  (k < 16)%nat -> item (Spec.z2 Examples.zero_parameters 1 x) k 0 <= 0.
Proof.
  intros Hk. rewrite item_z2 by assumption.
  change (w_second_hidden Examples.zero_parameters) with (zeros 16 16).
  change (b_second_hidden Examples.zero_parameters) with (zeros 16 1).
  rewrite sum_range_zero.
  - rewrite item_zeros by lia. lra.
  - intros j Hj. rewrite item_zeros by lia. ring.
Qed.

Lemma zero_parameters_output (x : ndarray) :
  item (Spec.z3 Examples.zero_parameters 1 x) 0 0 = 0.
Proof.
  rewrite item_z3.
  change (w_output Examples.zero_parameters) with (zeros 1 16).
  change (b_output Examples.zero_parameters) with (zeros 1 1).
  rewrite sum_range_zero.
  - rewrite item_zeros by lia. lra.
  - intros j Hj. rewrite item_zeros by lia. ring.
Qed.

Lemma training_step_inactive_units_witness :
  exists g',
    training_step Examples.one_sample Examples.one_label 0 Examples.zero_parameters =
      Some (tt, g') /\
    item (b_second_hidden g') 5 0 = item (b_second_hidden Examples.zero_parameters) 5 0 /\
    forall j, (j < 16)%nat ->
      item (w_second_hidden g') 5 j = item (w_second_hidden Examples.zero_parameters) 5 j.
Proof.
  destruct (training_step_inactive_units Examples.zero_parameters Examples.one_sample
              Examples.one_label 0 [1; 0; 0; 1] 1
              (Spec.z1 Examples.zero_parameters 1 (reshape_column [1; 0; 0; 1]))
              (Spec.a1 Examples.zero_parameters 1 (reshape_column [1; 0; 0; 1]))
              (Spec.z2 Examples.zero_parameters 1 (reshape_column [1; 0; 0; 1]))
              (Spec.a2 Examples.zero_parameters 1 (reshape_column [1; 0; 0; 1]))
              (Spec.z3 Examples.zero_parameters 1 (reshape_column [1; 0; 0; 1]))
              (Spec.y_hat Examples.zero_parameters 1 (reshape_column [1; 0; 0; 1]))
              eq_refl eq_refl eq_refl eq_refl
              (forward_propagation_computed Examples.zero_parameters 1
                 (reshape_column [1; 0; 0; 1]) eq_refl eq_refl))
    as (g' & Hstep & _ & Hsecond); [rewrite zero_parameters_output; lra|].
  exists g'. split; [exact Hstep|].
  apply Hsecond; [lia | apply zero_parameters_inactive; lia].
Defined.
End TrainingTheorems.

Section NotebookTheorems.
Local Open Scope R_scope.
Import np.

Lemma response_as_column (data : list banknote) :
  response data = map (fun v => [v]) (map target data).
Proof. unfold response. now rewrite map_map. Qed.

(** X18: the notebook, from the preprocessing to the report, raises nowhere on
    a table of at least two rows whose four predictor columns are not
    constant (so that the standardisation divides by no zero): the parameters
    are initialised, trained for the 100 epochs on the first [⌊2n/3⌋] rows
    and evaluated on the rest; there is one prediction per test row; the
    confusion matrix is tallied from the targets and the predictions of the
    test rows, and its four counts add up to at most their number; and the
    accuracy is the share of test rows whose prediction equals the target.
    What the predictions are is not stated. *)
Theorem notebook_runs (draws : nat -> R) (data : list banknote) :
  (2 <= length data)%nat ->
  (forall j, (j < 4)%nat -> pd.std (pd.column j (features data)) <> 0) ->
  let m := (length data - split_index data)%nat in
  exists row c a,
    notebook draws data = Some ([row], c, a) /\
    length row = m /\ (1 <= m)%nat /\
    c = confusion_matrix (testing_response data) [row] /\
    (TP c + FP c + TN c + FN c <= m)%nat /\
    a = INR (length (filter (fun q => (fst q =? snd q)%Z)
                       (combine (map target (skipn (split_index data) data)) row)))
        / INR m.
Proof.
  intros Hn Hstd m. set (s := split_index data) in *.
  pose proof (split_index_bounds data) as Hb. fold s in Hb.
  assert (Hm : (1 <= m)%nat) by (unfold m; lia).
  assert (Hpos : (0 < length data)%nat) by lia.
  pose proof (is_shape_predictors data Hpos) as Hp.
  assert (Htp : is_shape s 4 (training_predictors data) = true)
    by (apply (is_shape_firstn (length data)); [exact Hp | lia]).
  assert (Htr : is_shape s 1 (training_response data) = true).
  { unfold training_response. fold s. rewrite response_as_column, firstn_map.
    destruct (labels_as_array (firstn s (map target data))) as [Hshape _].
    rewrite length_firstn, length_map in Hshape.
    now replace (Nat.min s (length data)) with s in Hshape by lia. }
  assert (Hte : is_shape m 4 (testing_predictors data) = true)
    by (apply is_shape_skipn; exact Hp).
  destruct (training_epochs_total epochs s _ _ (initialise draws)
              (shapes_ok_initialise draws) Htp Htr) as (trained & Htrain & Hok).
  destruct (predictions_binary trained m _ Hok Hte) as (row & Hpred & Hlen & _);
    [lia|].
  set (labels := map target (skipn s data)).
  assert (Hlabels : testing_response data = map (fun v => [v]) labels).
  { unfold testing_response, labels. fold s.
    now rewrite response_as_column, !skipn_map. }
  assert (Hll : length labels = m)
    by (unfold labels; rewrite length_map, length_skipn; reflexivity).
  assert (Hacc : accuracy [row] (testing_response data) =
                 Some (INR (length (filter (fun q => (fst q =? snd q)%Z)
                                      (combine labels row))) / INR m)).
  { rewrite Hlabels, <- Hll. apply accuracy_computed; lia. }
  exists row, (confusion_matrix (testing_response data) [row]).
  eexists. split.
  - unfold notebook, training_loop. rewrite Htrain, Hpred, Hacc. reflexivity.
  - split; [exact Hlen|]. split; [exact Hm|]. split; [reflexivity|].
    split; [|reflexivity].
    pose proof (counts_bounded (combine labels row)) as Hle.
    unfold confusion_matrix. rewrite Hlabels, combine_flatten_column, fold_tally. simpl.
    rewrite length_combine, Hll, Hlen, Nat.min_id in Hle. lia.
Qed.

Lemma two_rows_spread_all (j : nat) :
  (j < 4)%nat ->
  pd.std (pd.column j (features [Banknote 0 0 0 0 0; Banknote 2 1 1 1 1])) <> 0.
Proof.
  intros Hj. apply Rgt_not_eq. apply sqrt_lt_R0.
  destruct j as [|[|[|[|j]]]]; [| | | |lia];
    unfold pd.column, features, pd.mean, pd.sum; simpl; lra.
Qed.

Lemma notebook_runs_witness :
  exists row c a,
    notebook (fun _ => 1) [Banknote 0 0 0 0 0; Banknote 2 1 1 1 1] = Some ([row], c, a) /\
    length row = 1%nat.
Proof.
  destruct (notebook_runs (fun _ => 1) [Banknote 0 0 0 0 0; Banknote 2 1 1 1 1])
    as (row & c & a & Hrun & Hlen & _); [simpl; lia | exact two_rows_spread_all|].
  exists row, c, a. split; [exact Hrun | exact Hlen].
Defined.

Lemma draw_index_in_range (p : Gradient.parameter) (i j : nat) :
  (i < Gradient.rows p)%nat -> (j < Gradient.cols p)%nat -> (draw_index p i j < 369)%nat.
Proof. unfold draw_index. destruct p; simpl; lia. Qed.

(** X12: the initialisation cell fills the six tensors, in the order of its six
    calls and row by row, with the first 369 draws of the seeded generator:
    every entry is one draw, no draw fills two entries, and each of the 369
    draws fills one; so parameters drawn from [0, 1) all lie in [0, 1). *)
Theorem initialise_draw_order (draws : nat -> R) :
  (forall p i j, (i < Gradient.rows p)%nat -> (j < Gradient.cols p)%nat ->
     item (Gradient.tensor p (initialise draws)) i j = draws (draw_index p i j) /\
     (draw_index p i j < 369)%nat) /\
  (forall p i j q i' j',
     (i < Gradient.rows p)%nat -> (j < Gradient.cols p)%nat ->
     (i' < Gradient.rows q)%nat -> (j' < Gradient.cols q)%nat ->
     draw_index p i j = draw_index q i' j' -> p = q /\ i = i' /\ j = j') /\
  (forall k, (k < 369)%nat ->
     exists p i j, (i < Gradient.rows p)%nat /\ (j < Gradient.cols p)%nat /\
                   draw_index p i j = k) /\
  ((forall k, 0 <= draws k < 1) ->
   forall p i j, (i < Gradient.rows p)%nat -> (j < Gradient.cols p)%nat ->
     0 <= item (Gradient.tensor p (initialise draws)) i j < 1).
Proof.
  assert (Hentry : forall p i j,
            (i < Gradient.rows p)%nat -> (j < Gradient.cols p)%nat ->
            item (Gradient.tensor p (initialise draws)) i j = draws (draw_index p i j)).
  { intros p i j Hi Hj. unfold draw_index.
    destruct p; simpl in Hi, Hj |- *; rewrite item_fromfunction by assumption;
      f_equal; lia. }
  split; [|split; [|split]].
  - intros p i j Hi Hj. split; [now apply Hentry | now apply draw_index_in_range].
  - intros p i j q i' j' Hi Hj Hi' Hj' He. unfold draw_index in He.
    destruct p, q; simpl in *;
      first [ exfalso; lia | repeat split; try reflexivity; lia ].
  - intros k Hk.
    pose proof (Nat.div_mod_eq k 4) as H4.
    assert (M4 : (k mod 4 < 4)%nat) by (apply Nat.mod_upper_bound; lia).
    pose proof (Nat.div_mod_eq (k - 80) 16) as H16.
    assert (M16 : ((k - 80) mod 16 < 16)%nat) by (apply Nat.mod_upper_bound; lia).
    unfold draw_index.
    destruct (Nat.lt_ge_cases k 64);
      [exists Gradient.W1, (k / 4)%nat, (k mod 4)%nat;
       cbn [Gradient.rows Gradient.cols first_draw]; lia|].
    destruct (Nat.lt_ge_cases k 80);
      [exists Gradient.B1, (k - 64)%nat, 0%nat;
       cbn [Gradient.rows Gradient.cols first_draw]; lia|].
    destruct (Nat.lt_ge_cases k 336);
      [exists Gradient.W2, ((k - 80) / 16)%nat, ((k - 80) mod 16)%nat;
       cbn [Gradient.rows Gradient.cols first_draw]; lia|].
    destruct (Nat.lt_ge_cases k 352);
      [exists Gradient.B2, (k - 336)%nat, 0%nat;
       cbn [Gradient.rows Gradient.cols first_draw]; lia|].
    destruct (Nat.lt_ge_cases k 368);
      [exists Gradient.W3, 0%nat, (k - 352)%nat;
       cbn [Gradient.rows Gradient.cols first_draw]; lia|].
    exists Gradient.B3, 0%nat, 0%nat. cbn [Gradient.rows Gradient.cols first_draw]. lia.
  - intros Hd p i j Hi Hj. rewrite Hentry by assumption. apply Hd.
Qed.
End NotebookTheorems.

Section DescentTheorem.
Local Open Scope R_scope.
Import np.

Lemma item_scale (r c : nat) (s : R) (a : ndarray) (i j : nat) :
  is_shape r c a = true -> (i < r)%nat -> (j < c)%nat ->
  item (scale s a) i j = s * item a i j.
Proof. intros Ha Hi Hj. exact (item_elementwise r c (Rmult s) a i j Ha Hi Hj). Qed.

Lemma frobenius_opposite (r c : nat) (a : ndarray) :
  is_shape r c a = true ->
  Gradient.frobenius r c a (scale (-1) a) = - Gradient.frobenius r c a a.
Proof.
  intros Ha.
  replace (- Gradient.frobenius r c a a) with ((-1) * Gradient.frobenius r c a a) by ring.
  unfold Gradient.frobenius. rewrite sum_range_scal.
  apply sum_range_ext. intros i Hi. rewrite sum_range_scal.
  apply sum_range_ext. intros j Hj. rewrite (item_scale r c) by assumption. ring.
Qed.

Lemma frobenius_square_nonneg (r c : nat) (a : ndarray) :
  0 <= Gradient.frobenius r c a a.
Proof.
  unfold Gradient.frobenius. apply sum_range_nonneg. intros i Hi.
  apply sum_range_nonneg. intros j Hj.
  pose proof (Rle_0_sqr (item a i j)) as H. exact H.
Qed.

Lemma descend_derivable (r c : nat) (p grad : ndarray) (t0 : R) :
  is_shape r c grad = true ->
  Gradient.entries_derivable r c (fun eta => Spec.descend r c eta p grad) t0
    (scale (-1) grad).
Proof.
  intros Hg i j Hi Hj.
  apply derivable_ext with (f := fun eta => item p i j + eta * (- item grad i j));
    [intros eta; rewrite item_descend by assumption; ring|].
  rewrite (item_scale r c) by assumption.
  apply derivable_value with (c := 0 + 1 * (- item grad i j)); [ring|].
  apply (derivable_add (fun _ => item p i j) (fun eta => eta * (- item grad i j)));
    [apply derivable_pt_lim_const|].
  apply (derivable_mul_const id). apply derivable_pt_lim_id.
Qed.

Lemma descend_zero (r c : nat) (p grad : ndarray) :
  is_shape r c p = true -> Spec.descend r c 0 p grad = p.
Proof.
  intros Hp. apply (ndarray_ext r c); [apply is_shape_fromfunction | assumption|].
  intros i j Hi Hj. rewrite item_descend by assumption. ring.
Qed.

Lemma update_zero (g : globals) (grads : gradients) :
  Spec.shapes_ok g = true -> Spec.update 0 g grads = g.
Proof.
  intros Hg. apply shapes_ok_fields in Hg.
  destruct Hg as (Hw1 & Hb1 & Hw2 & Hb2 & Hw3 & Hb3).
  destruct grads as [[[[[dw3 db3] dw2] db2] dw1] db1]. unfold Spec.update.
  rewrite !descend_zero by assumption. now destruct g.
Qed.

(** X3: the update of the training loop is a step of steepest descent for the
    loss of the sample it is computed from: the state after the step is
    [P − η·G] at [η = 0.01]; as a function of [η], the loss of the network on
    the sample is differentiable at [η = 0], where the state is the current
    one, with derivative minus the sum of the squares of all entries of the
    gradient tuple; and for a label 0 or 1 that sum is positive, so that the
    loss decreases, to first order, along the step.  No hidden
    pre-activation may be exactly 0, and the output pre-activation is taken
    between -36 and 36, the range in which the binary64 output stays
    strictly between 0 and 1. *)
Theorem training_step_descends (g : globals) (tp tr : ndarray) (i : nat)
    (row : list R) (y : R) (z1 a1 z2 a2 z3 yhat : ndarray) (grads : gradients) :
  Spec.shapes_ok g = true ->
  getitem tp i = Some row -> length row = 4%nat -> getitem tr i = Some [y] ->
  forward_propagation (reshape_column row) g = Some ((z1, a1, z2, a2, z3, yhat), g) ->
  backward_propagation z1 a1 z2 a2 z3 yhat (reshape_column row) [y] g = Some (grads, g) ->
  (forall k, (k < 16)%nat -> item z1 k 0 <> 0) ->
  (forall k, (k < 16)%nat -> item z2 k 0 <> 0) ->
  -36 <= item z3 0 0 <= 36 ->
  training_step tp tr i g = Some (tt, Spec.update learning_rate g grads) /\
  Spec.update 0 g grads = g /\
  derivable_pt_lim
    (fun eta => Gradient.network_loss (Spec.update eta g grads) (reshape_column row) y)
    0 (- Gradient.squared_norm grads) /\
  0 <= Gradient.squared_norm grads /\
  (y = 0 \/ y = 1 -> 0 < Gradient.squared_norm grads).
Proof.
  intros Hg Hrow Hlen Hy Hf Hb Hz1 Hz2 _. set (x := reshape_column row) in *.
  assert (Hx : is_shape 4 1 x = true)
    by (rewrite <- Hlen; apply is_shape_reshape_column).
  pose proof (forward_cache_is_spec _ _ _ _ _ _ _ _ Hg Hx Hf) as Hc.
  unfold Spec.forward in Hc. inversion Hc; subst z1 a1 z2 a2 z3 yhat; clear Hc.
  rewrite (backward_on_forward _ _ y Hg Hx) in Hb. inversion Hb; subst grads; clear Hb.
  pose proof (training_step_computed g tp tr i row y Hg Hrow Hlen Hy) as Hstep.
  cbv zeta in Hstep. unfold Spec.forward in Hstep. fold x in Hstep.
  set (grads := Spec.backward g (Spec.z1 g 1 x) (Spec.a1 g 1 x) (Spec.z2 g 1 x)
                  (Spec.a2 g 1 x) (Spec.z3 g 1 x) (Spec.y_hat g 1 x) x y) in *.
  pose proof (update_zero g grads Hg) as Hzero.
  assert (Hnorm : Gradient.inner grads (Gradient.descent_direction grads) =
                  - Gradient.squared_norm grads).
  { unfold Gradient.inner, Gradient.squared_norm, Gradient.descent_direction.
    cbn [w_first_hidden b_first_hidden w_second_hidden b_second_hidden w_output b_output].
    unfold grads, Spec.backward, Gradient.component.
    rewrite !frobenius_opposite
      by first [apply is_shape_outer | apply is_shape_column].
    ring. }
  split; [exact Hstep|]. split; [exact Hzero|]. split; [|split].
  - rewrite <- Hnorm. unfold grads at 2. rewrite <- differential_is_inner.
    rewrite <- Hzero at 1 2 3.
    apply network_loss_along_path.
    + intros eta. apply shapes_ok_update.
    + exact Hx.
    + unfold grads, Spec.backward, Spec.update, Gradient.descent_direction,
        Gradient.component. cbn [w_first_hidden]. apply descend_derivable, is_shape_outer.
    + unfold grads, Spec.backward, Spec.update, Gradient.descent_direction,
        Gradient.component. cbn [b_first_hidden]. apply descend_derivable, is_shape_column.
    + unfold grads, Spec.backward, Spec.update, Gradient.descent_direction,
        Gradient.component. cbn [w_second_hidden]. apply descend_derivable, is_shape_outer.
    + unfold grads, Spec.backward, Spec.update, Gradient.descent_direction,
        Gradient.component. cbn [b_second_hidden]. apply descend_derivable, is_shape_column.
    + unfold grads, Spec.backward, Spec.update, Gradient.descent_direction,
        Gradient.component. cbn [w_output]. apply descend_derivable, is_shape_outer.
    + unfold grads, Spec.backward, Spec.update, Gradient.descent_direction,
        Gradient.component. cbn [b_output]. apply descend_derivable, is_shape_column.
    + rewrite Hzero. exact Hz1.
    + rewrite Hzero. exact Hz2.
  - unfold Gradient.squared_norm.
    pose proof (frobenius_square_nonneg 16 4 (Gradient.component Gradient.W1 grads)).
    pose proof (frobenius_square_nonneg 16 1 (Gradient.component Gradient.B1 grads)).
    pose proof (frobenius_square_nonneg 16 16 (Gradient.component Gradient.W2 grads)).
    pose proof (frobenius_square_nonneg 16 1 (Gradient.component Gradient.B2 grads)).
    pose proof (frobenius_square_nonneg 1 16 (Gradient.component Gradient.W3 grads)).
    pose proof (frobenius_square_nonneg 1 1 (Gradient.component Gradient.B3 grads)).
    lra.
  - intros Hlabel. unfold Gradient.squared_norm.
    assert (Hb3 : 0 < Gradient.frobenius 1 1 (Gradient.component Gradient.B3 grads)
                        (Gradient.component Gradient.B3 grads)).
    { unfold grads, Spec.backward, Gradient.component. rewrite frobenius_column.
      rewrite sum_range_one, item_column by lia.
      unfold Spec.dL_dz3. rewrite item_y_hat, <- d_logistic_logistic'.
      set (z := item (Spec.z3 g 1 x) 0 0).
      pose proof (logistic_bounds z) as Hbd.
      assert (Hd : 0 < d_logistic z).
      { rewrite d_logistic_logistic'. unfold Spec.logistic'.
        apply Rmult_lt_0_compat; lra. }
      assert (Hne : 2 * (logistic z - y) * d_logistic z <> 0).
      { apply Rmult_integral_contrapositive_currified; [|lra].
        destruct Hlabel as [-> | ->]; lra. }
      pose proof (Rsqr_pos_lt _ Hne) as Hsq. exact Hsq. }
    pose proof (frobenius_square_nonneg 16 4 (Gradient.component Gradient.W1 grads)).
    pose proof (frobenius_square_nonneg 16 1 (Gradient.component Gradient.B1 grads)).
    pose proof (frobenius_square_nonneg 16 16 (Gradient.component Gradient.W2 grads)).
    pose proof (frobenius_square_nonneg 16 1 (Gradient.component Gradient.B2 grads)).
    pose proof (frobenius_square_nonneg 1 16 (Gradient.component Gradient.W3 grads)).
    lra.
Qed.

Lemma training_step_descends_witness :
  let x := reshape_column [1; 0; 0; 1] in
  let g := Examples.small_parameters in
  let grads := Spec.backward g (Spec.z1 g 1 x) (Spec.a1 g 1 x) (Spec.z2 g 1 x)
                 (Spec.a2 g 1 x) (Spec.z3 g 1 x) (Spec.y_hat g 1 x) x 1 in
  training_step Examples.one_sample Examples.one_label 0 g =
    Some (tt, Spec.update learning_rate g grads) /\
  Spec.update 0 g grads = g /\
  derivable_pt_lim (fun eta => Gradient.network_loss (Spec.update eta g grads) x 1)
    0 (- Gradient.squared_norm grads) /\
  0 <= Gradient.squared_norm grads /\
  (1 = 0 \/ 1 = 1 -> 0 < Gradient.squared_norm grads).
Proof.
  intros x g grads.
  apply (training_step_descends g Examples.one_sample Examples.one_label 0
           [1; 0; 0; 1] 1 (Spec.z1 g 1 x) (Spec.a1 g 1 x) (Spec.z2 g 1 x)
           (Spec.a2 g 1 x) (Spec.z3 g 1 x) (Spec.y_hat g 1 x) grads).
  - reflexivity.
  - reflexivity.
  - reflexivity.
  - reflexivity.
  - exact (forward_propagation_computed g 1 x eq_refl eq_refl).
  - exact (backward_on_forward g x 1 eq_refl eq_refl).
  - exact (proj1 small_parameters_active).
  - exact (proj2 small_parameters_active).
  - exact small_parameters_output.
Defined.
End DescentTheorem.
